(** * plastid.genomics.genome_array: mapping rules and genome arrays

    A shallow embedding of [plastid/genomics/genome_array.py]: the four
    mapping functions, the mutable dense [GenomeArray] and the parts of
    [BAMGenomeArray] that export and convert it.

    Conventions:
    - Python integers are [Z]; numpy [float64] values and Python floats are
      Rocq's primitive binary64 [float]s;
    - a numpy one-dimensional array is a [list float];
    - dictionaries are stdpp [gmap]s;
    - a Python call is an [outcome]: the warnings it emitted, and either the
      exception it raised or the value it returned. *)

From Stdlib Require Import ZArith List Lia Bool.
From Stdlib Require Import Floats.
From stdpp Require Import gmap strings list sorting.

Local Open Scope Z_scope.

(** ** Python outcomes: warnings and exceptions *)

Inductive exn :=
| KeyError | AssertionError | ValueError | TypeError
| AttributeError | ZeroDivisionError | IndexError.

Inductive category := DataWarning | UserWarning.

(** The messages passed to [warnings.warn], with the numbers they format. *)
Inductive message :=
| ShorterThanNibble (read_length twice_nibble : Z)
| ShorterThanOffset (read_length offset : Z)
| NoOffsetForLength (feature_length : Z)
| OffsetLongerThanRead (offset feature_length : Z)
| NormalizationOff.

Record warning := Warning { w_category : category; w_message : message }.

Record outcome (A : Type) := Outcome {
  warnings : list warning;
  result : exn + A }.
Arguments Outcome {A} _ _.
Arguments warnings {A} _.
Arguments result {A} _.

Definition returns {A} (a : A) : outcome A := Outcome [] (inr a).
Definition raise {A} (e : exn) : outcome A := Outcome [] (inl e).
Definition warn (c : category) (m : message) : outcome unit :=
  Outcome [Warning c m] (inr tt).

Definition obind {A B} (f : A -> outcome B) (c : outcome A) : outcome B :=
  match result c with
  | inl e => Outcome (warnings c) (inl e)
  | inr a => let r := f a in Outcome (warnings c ++ warnings r) (result r)
  end.

#[export] Instance outcome_ret : MRet outcome := @returns.
#[export] Instance outcome_bind : MBind outcome := @obind.

Definition raised {A} (c : outcome A) : bool :=
  match result c with inl _ => true | inr _ => false end.

(** ** Segments and alignments (the collaborators of [roitools]) *)

(** The strand labels ["+"], ["-"] and ["."]. *)
Inductive Strand := Plus | Minus | Unstranded.

#[export] Instance Strand_eq_dec : EqDecision Strand.
Proof. solve_decision. Defined.

Definition Strand_code (s : Strand) : nat :=
  match s with Plus => 0%nat | Minus => 1%nat | Unstranded => 2%nat end.

Definition Strand_decode (n : nat) : option Strand :=
  match n with
  | O => Some Plus
  | S O => Some Minus
  | S (S O) => Some Unstranded
  | _ => None
  end.

#[export] Instance Strand_countable : Countable Strand.
Proof.
  refine (inj_countable Strand_code Strand_decode _).
  intros []; reflexivity.
Defined.

(** [GenomicSegment(chrom,start,end,strand)]: a half-open interval. *)
Record GenomicSegment := Segment {
  chrom : string;
  start : Z;
  end_ : Z;
  strand : Strand }.

(** [len(seg)] *)
Definition seg_len (seg : GenomicSegment) : Z := end_ seg - start seg.

(** What the mapping functions read of an alignment ([SegmentChain]): its
    [spanning_segment] and its [length]. *)
Record SegmentChain := Feature {
  spanning_segment : GenomicSegment;
  feature_length : Z }.

(** An ungapped alignment is one segment, and as long as its span. *)
Definition ungapped (seg : GenomicSegment) : SegmentChain :=
  {| spanning_segment := seg; feature_length := seg_len seg |}.

(** ** Keyword arguments of the mapping functions *)

(** Keys of the offset dictionary of [variable_five_prime_map]: a read
    length, or the string ["default"]. *)
Inductive offset_key := LengthKey (n : Z) | DefaultKey.

#[export] Instance offset_key_eq_dec : EqDecision offset_key.
Proof. solve_decision. Defined.

#[export] Instance offset_key_countable : Countable offset_key.
Proof.
  refine (inj_countable'
            (fun k => match k with LengthKey n => inl n | DefaultKey => inr tt end)
            (fun s => match s with inl n => LengthKey n | inr _ => DefaultKey end) _).
  intros []; reflexivity.
Defined.

(** [kwargs["offset"]] is an integer or a dictionary of integers. *)
Inductive offset_arg :=
| OffsetInt (n : Z)
| OffsetDict (d : gmap offset_key Z).

(** [**kwargs]: each recognised name is present or absent. *)
Record kwargs := Kwargs {
  kw_offset : option offset_arg;
  kw_value : option float;
  kw_nibble : option Z }.

Definition no_kwargs : kwargs := Kwargs None None None.

(** [kwargs.get("offset",0)], where an integer is expected. *)
Definition offset_or_0 (kw : kwargs) : outcome Z :=
  match kw_offset kw with
  | None => returns 0
  | Some (OffsetInt n) => returns n
  | Some (OffsetDict _) => raise TypeError
  end.

(** [kwargs.get("value",1.0)] *)
Definition value_or_1 (kw : kwargs) : float :=
  match kw_value kw with
  | None => 1%float
  | Some v => v
  end.

(** [float(n)] for an integer within 63 bits. *)
Definition Z2float (n : Z) : float :=
  if n <? 0 then PrimFloat.opp (PrimFloat.of_uint63 (Uint63.of_Z (- n)))
  else PrimFloat.of_uint63 (Uint63.of_Z n).

(** ** The mapping functions *)

Definition mapped := list (GenomicSegment * float).

Definition center_map (feature : SegmentChain) (kw : kwargs) : outcome mapped :=
  match kw_nibble kw with
  | None => raise KeyError
  | Some nibble =>
    let read_length := feature_length feature in
    if read_length <=? 2 * nibble then
      _ ← warn DataWarning (ShorterThanNibble read_length (2 * nibble));
      mret []
    else
      let span := spanning_segment feature in
      let strand := strand span in
      let chrom := chrom span in
      offset ← offset_or_0 kw;
      let value := value_or_1 kw in
      let sign := if decide (strand = Minus) then -1 else 1 in
      let start := start span + nibble + sign * offset in
      let end_ := end_ span - nibble + sign * offset in
      let seg := Segment chrom start end_ strand in
      if seg_len seg =? 0 then raise ZeroDivisionError
      else
        let frac := PrimFloat.div value (Z2float (seg_len seg)) in
        mret [(seg, frac)]
  end.

Definition five_prime_map (feature : SegmentChain) (kw : kwargs) : outcome mapped :=
  offset ← offset_or_0 kw;
  let read_length := feature_length feature in
  if read_length <? offset then
    _ ← warn DataWarning (ShorterThanOffset read_length offset);
    mret []
  else
    let value := value_or_1 kw in
    let span := spanning_segment feature in
    let strand := strand span in
    let start :=
      match strand with
      | Plus | Unstranded => start span + offset
      | Minus => end_ span - 1 - offset
      end in
    let seg := Segment (chrom span) start (start + 1) strand in
    mret [(seg, value)].

Definition three_prime_map (feature : SegmentChain) (kw : kwargs) : outcome mapped :=
  offset ← offset_or_0 kw;
  let read_length := feature_length feature in
  if read_length <? offset then
    _ ← warn DataWarning (ShorterThanOffset read_length offset);
    mret []
  else
    let value := value_or_1 kw in
    let span := spanning_segment feature in
    let strand := strand span in
    let start :=
      match strand with
      | Plus | Unstranded => end_ span - 1 - offset
      | Minus => start span + offset
      end in
    let seg := Segment (chrom span) start (start + 1) strand in
    mret [(seg, value)].

(** [kwargs["offset"].get(len(span),kwargs["offset"].get("default",None))] *)
Definition lookup_offset (d : gmap offset_key Z) (n : Z) : option Z :=
  match d !! LengthKey n with
  | Some o => Some o
  | None => d !! DefaultKey
  end.

Definition variable_five_prime_map (feature : SegmentChain) (kw : kwargs)
  : outcome mapped :=
  let span := spanning_segment feature in
  let strand := strand span in
  let value := value_or_1 kw in
  match kw_offset kw with
  | None => raise KeyError
  | Some (OffsetInt _) => raise AttributeError
  | Some (OffsetDict d) =>
    let feature_length := feature_length feature in
    match lookup_offset d (seg_len span) with
    | None =>
      _ ← warn DataWarning (NoOffsetForLength feature_length);
      mret []
    | Some offset =>
      _ ← (if feature_length <=? offset
           then warn UserWarning (OffsetLongerThanRead offset feature_length)
           else mret tt);
      let start :=
        match strand with
        | Plus | Unstranded => start span + offset
        | Minus => end_ span - 1 - offset
        end in
      let seg := Segment (chrom span) start (start + 1) strand in
      mret [(seg, value)]
    end
  end.

(** ** numpy arrays *)

(** [ndarray.sum()] is numpy's; the arrays only rely on it being a function
    of the array's contents. *)
Class NumpySum := np_sum : list float -> float.

(** Python's builtin [sum]: accumulation from the left, starting at 0. *)
Definition py_sum (xs : list float) : float :=
  fold_left PrimFloat.add xs 0%float.

(** [len(buf)] *)
Definition len {A} (buf : list A) : Z := Z.of_nat (length buf).

(** [numpy.zeros(n)]. For [n = None] numpy returns a zero-dimensional array
    holding one zero, which stands here as a one-element buffer:
    [apply_operation] builds such placeholders in mode ["all"] and overwrites
    each of them before it returns. *)
Definition zeros (n : option Z) : outcome (list float) :=
  match n with
  | None => returns [0%float]
  | Some n =>
    if n <? 0 then raise ValueError
    else returns (replicate (Z.to_nat n) 0%float)
  end.

(** Python's [max] and [min] of a list of integers. *)
Definition py_max (xs : list Z) : outcome Z :=
  match xs with
  | [] => raise ValueError
  | x :: rest => returns (fold_left Z.max rest x)
  end.

Definition py_min (xs : list Z) : outcome Z :=
  match xs with
  | [] => raise ValueError
  | x :: rest => returns (fold_left Z.min rest x)
  end.

(** An elementwise numpy operation on two vectors, with broadcasting of a
    one-element operand. *)
Definition elementwise {A} (f : float -> float -> A) (x y : list float)
  : outcome (list A) :=
  match x, y with
  | [a], _ => returns (f a <$> y)
  | _, [b] => returns ((fun a => f a b) <$> x)
  | _, _ =>
    if decide (length x = length y) then returns (zip_with f x y)
    else raise ValueError
  end.

(** [buf.resize(n)] for [n >= 0]: truncate, or extend with zeros. *)
Definition resize (buf : list float) (n : Z) : list float :=
  take (Z.to_nat n) buf ++ replicate (Z.to_nat n - length buf) 0%float.

(** How Python clips one bound of a slice of a sequence of length [n]. *)
Definition slice_bound (n i : Z) : Z :=
  if i <? 0 then Z.max 0 (i + n) else Z.min i n.

(** [buf[lo:hi]] *)
Definition slice {A} (buf : list A) (lo hi : Z) : list A :=
  let lo' := slice_bound (len buf) lo in
  let hi' := slice_bound (len buf) hi in
  take (Z.to_nat (hi' - lo')) (drop (Z.to_nat lo') buf).

(** The right-hand side of an assignment: a scalar or a vector. *)
Inductive values := Scalar (x : float) | Vector (v : list float).

(** numpy broadcasting of the assigned value to a slice of [k] places. *)
Definition broadcast (k : nat) (val : values) : option (list float) :=
  match val with
  | Scalar x => Some (replicate k x)
  | Vector [x] => Some (replicate k x)
  | Vector v => if decide (length v = k) then Some v else None
  end.

(** [buf[lo:hi] = val] *)
Definition set_slice (buf : list float) (lo hi : Z) (val : values)
  : outcome (list float) :=
  let lo' := Z.to_nat (slice_bound (len buf) lo) in
  let hi' := Z.to_nat (slice_bound (len buf) hi) in
  let k := (hi' - lo')%nat in
  match broadcast k val with
  | None => raise ValueError
  | Some new => returns (take lo' buf ++ new ++ drop (lo' + k) buf)
  end.

(** [val[::-1]] when [val] is an [ndarray] *)
Definition reverse_values (val : values) : values :=
  match val with
  | Scalar x => Scalar x
  | Vector v => Vector (reverse v)
  end.

(** [x != 0] on floats *)
Definition nonzerob (x : float) : bool := negb (PrimFloat.eqb x 0%float).

(** [buf.nonzero()[0]]: the indices of the nonzero entries, ascending. *)
Fixpoint nonzero_from (i : Z) (buf : list float) : list Z :=
  match buf with
  | [] => []
  | x :: rest =>
    if nonzerob x then i :: nonzero_from (i + 1) rest
    else nonzero_from (i + 1) rest
  end.

Definition np_nonzero (buf : list float) : list Z := nonzero_from 0 buf.

(** [buf[x]] *)
Definition item {A} (buf : list A) (x : Z) : outcome A :=
  let i := if x <? 0 then x + len buf else x in
  if i <? 0 then raise IndexError
  else match buf !! Z.to_nat i with
       | Some a => returns a
       | None => raise IndexError
       end.

(** [xrange(0,stop,step)] for a positive [step] *)
Definition xrange (stop step : Z) : list Z :=
  (fun k => k * step) <$> seqZ 0 ((stop + step - 1) / step).

(** [sorted] on strings, and on the items of [kwargs] by their key. *)
Definition sorted (xs : list string) : list string :=
  merge_sort (fun a b => String.leb a b) xs.

Definition sorted_items (kv : list (string * string)) : list (string * string) :=
  merge_sort (fun a b => String.leb a.1 b.1) kv.

(** ** Lines written to a bedGraph file *)

Inductive line :=
| Track (trackname : string) (kwargs : list (string * string))
| Data (chrom : string) (start end_ : Z) (value : float).

(** ** Lines written to a variableStep wiggle file *)

Inductive wiggle_line :=
| WiggleTrack (trackname : string) (kwargs : list (string * string))
| VariableStep (chrom : string)
| Position (x : Z) (value : float).

(** [xrange(0,stop,step)] for any [step]: zero is refused, and a negative
    step counts downwards. *)
Definition xrange_from_0 (stop step : Z) : outcome (list Z) :=
  if step =? 0 then raise ValueError
  else returns ((fun k => k * step) <$> seqZ 0 (- ((- stop) / step))).

(** ** An [OrderedDict] with string keys, as its list of items *)

(** [d[k] = v]: a key that is present keeps its place. *)
Fixpoint od_set {V} (k : string) (v : V) (d : list (string * V)) : list (string * V) :=
  match d with
  | [] => [(k, v)]
  | (k', v') :: rest =>
    if decide (k' = k) then (k, v) :: rest else (k', v') :: od_set k v rest
  end.

(** [d.pop(k)]: the value and the remaining items, if [k] is present. *)
Fixpoint od_pop {V} (k : string) (d : list (string * V))
  : option (V * list (string * V)) :=
  match d with
  | [] => None
  | (k', v') :: rest =>
    if decide (k' = k) then Some (v', rest)
    else '(v, rest') ← od_pop k rest; Some (v, (k', v') :: rest')
  end.

(** ** Stateful calls: methods of an object of state [S] *)

Definition State (S A : Type) : Type := S -> outcome (A * S).

Definition sret {S A} (a : A) : State S A := fun s => returns (a, s).

Definition sbind {S A B} (f : A -> State S B) (c : State S A) : State S B :=
  fun s => obind (fun '(a, s') => f a s') (c s).

#[export] Instance State_ret {S} : MRet (State S) := @sret S.
#[export] Instance State_bind {S} : MBind (State S) := @sbind S.

Definition get_state {S} : State S S := fun s => returns (s, s).
Definition put_state {S} (s : S) : State S unit := fun _ => returns (tt, s).
Definition lift {S A} (c : outcome A) : State S A :=
  fun s => obind (fun a => returns (a, s)) c.
Definition throw {S A} (e : exn) : State S A := lift (raise e).
Definition swarn {S} (c : category) (m : message) : State S unit :=
  lift (warn c m).

(** A loop that returns [False] from the enclosing function as soon as one
    round says so, and [True] at its end. *)
Fixpoint all_rounds {S A} (xs : list A) (round : A -> State S bool) : State S bool :=
  match xs with
  | [] => mret true
  | x :: rest => ok ← round x; if ok : bool then all_rounds rest round else mret false
  end.

(** [for x in xs: acc = body(acc,x)] *)
Fixpoint fold_each {S A B} (xs : list A) (acc : B) (body : B -> A -> State S B)
  : State S B :=
  match xs with
  | [] => mret acc
  | x :: rest => acc' ← body acc x; fold_each rest acc' body
  end.

(** [for x in xs: body(x)] *)
Fixpoint for_each {S A} (xs : list A) (body : A -> State S unit) : State S unit :=
  match xs with
  | [] => mret tt
  | x :: rest => _ ← body x; for_each rest body
  end.

(** [try: body / except e: handler e]; the bodies below raise before they
    change the state. *)
Definition try_except {S A} (body : State S A)
  (handler : exn -> option (State S A)) : State S A :=
  fun s =>
    let r := body s in
    match result r with
    | inr _ => r
    | inl e =>
      match handler e with
      | None => r
      | Some h => let r' := h s in Outcome (warnings r ++ warnings r') (result r')
      end
    end.

(** ** GenomeArray *)

Definition MIN_CHR_SIZE : Z := 10000000.

Definition _DEFAULT_STRANDS : list Strand := [Plus; Minus].

Module GenomeArray.

Record t := Make {
  _chroms : gmap string (gmap Strand (list float));
  _strands : list Strand;
  min_chr_size : Z;
  _sum : option float;
  _normalize : bool }.

Definition with_chroms (c : gmap string (gmap Strand (list float))) (ga : t) : t :=
  Make c (_strands ga) (min_chr_size ga) (_sum ga) (_normalize ga).

Definition with_sum (s : option float) (ga : t) : t :=
  Make (_chroms ga) (_strands ga) (min_chr_size ga) s (_normalize ga).

Definition with_normalize (b : bool) (ga : t) : t :=
  Make (_chroms ga) (_strands ga) (min_chr_size ga) (_sum ga) b.

Abbreviation Method := (State t).

(** [self._chroms[chrom][strand]] *)
Definition buffer (chrom : string) (strand : Strand) : Method (list float) :=
  fun ga =>
    match _chroms ga !! chrom with
    | None => raise KeyError
    | Some d =>
      match d !! strand with
      | None => raise KeyError
      | Some buf => returns (buf, ga)
      end
    end.

(** [self._chroms[chrom][strand] = buf] *)
Definition store_buffer (chrom : string) (strand : Strand) (buf : list float)
  : Method unit :=
  fun ga =>
    match _chroms ga !! chrom with
    | None => raise KeyError
    | Some d =>
      returns (tt, with_chroms (<[chrom := <[strand := buf]> d]> (_chroms ga)) ga)
    end.

(** [self._chroms[chrom] = {}] *)
Definition new_chrom (chrom : string) : Method unit :=
  fun ga => returns (tt, with_chroms (<[chrom := ∅]> (_chroms ga)) ga).

(** [self.keys()], [self.chroms()] *)
Definition keys (ga : t) : list string := (map_to_list (_chroms ga)).*1.

(** [self.strands()] *)
Definition strands (ga : t) : list Strand := _strands ga.

Definition set_sum (val : float) : Method unit :=
  fun ga => returns (tt, with_sum (Some val) ga).

(** The [bool] type leaves the assertion [value in (True,False)] nothing to
    reject. *)
Definition set_normalize (value : bool) : Method unit :=
  fun ga => returns (tt, with_normalize value ga).

(** [for chrom in self.keys(): for strand in self.strands(): yield ...] *)
Definition iterchroms : Method (list (list float)) :=
  ga ← get_state;
  mapM (fun '(chrom, strand) => buffer chrom strand)
       (chrom ← keys ga; strand ← strands ga; [(chrom, strand)]).

(** [GenomeArray(chr_lengths,strands,min_chr_size)] *)
Definition __init__ (chr_lengths : option (gmap string (option Z)))
  (strands : option (list Strand)) (min_chr_size : Z) : outcome t :=
  let _strands := default _DEFAULT_STRANDS strands in
  let empty := Make ∅ _strands min_chr_size None false in
  match chr_lengths with
  | None => returns empty
  | Some chr_lengths =>
    '(_, ga) ← for_each (map_to_list chr_lengths) (fun '(chrom, l) =>
                 _ ← new_chrom chrom;
                 for_each _strands (fun strand =>
                   z ← lift (zeros l);
                   store_buffer chrom strand z)) empty;
    returns ga
  end.

(** [self.lengths()] *)
Definition lengths : Method (gmap string Z) :=
  ga ← get_state;
  fold_each (keys ga) ∅ (fun d_out key =>
    ls ← mapM (fun X => buf ← buffer key X; mret (len buf)) (strands ga);
    m ← lift (py_max ls);
    mret (<[key := m]> d_out)).

(** [self.nonzero()] *)
Definition nonzero : Method (gmap string (gmap Strand (list Z))) :=
  ga ← get_state;
  fold_each (keys ga) ∅ (fun d_out key =>
    d ← fold_each (strands ga) ∅ (fun d strand =>
          buf ← buffer key strand;
          mret (<[strand := np_nonzero buf]> d));
    mret (<[key := d]> d_out)).

(** [GenomeArray.like(other)] *)
Definition like (other : t) : outcome t :=
  '(ls, _) ← lengths other;
  __init__ (Some (Some <$> ls)) (Some (strands other)) MIN_CHR_SIZE.

(** [chrom in self] *)
Definition __contains__ (chrom : string) (ga : t) : bool :=
  bool_decide (is_Some (_chroms ga !! chrom)).

(** [len(self)] *)
Definition __len__ : Method Z :=
  ga ← get_state;
  ls ← lengths;
  mret (len (_strands ga) * foldl Z.add 0 (map_to_list ls).*2).

Section Methods.
Context `{NumpySum}.

Definition reset_sum : Method unit :=
  bufs ← iterchroms;
  ga ← get_state;
  put_state (with_sum (Some (py_sum (np_sum <$> bufs))) ga).

(** [self._sum] is a number once [reset_sum] has run. *)
Definition sum : Method float :=
  ga ← get_state;
  _ ← (match _sum ga with None => reset_sum | Some _ => mret tt end);
  ga ← get_state;
  match _sum ga with
  | Some s => mret s
  | None => throw TypeError
  end.

(** The handler of [AssertionError] in [__getitem__] and [__setitem__]:
    every strand of the chromosome is resized. *)
Definition grow (chrom : string) (strand : Strand) (end_ : Z) : Method unit :=
  buf ← buffer chrom strand;
  let my_len := len buf in
  let new_size := Z.max (my_len + 10000) (end_ + 10000) in
  ga ← get_state;
  for_each (strands ga) (fun my_strand =>
    new_strand ← buffer chrom my_strand;
    store_buffer chrom my_strand (resize new_strand new_size)).

(** The handler of [KeyError]: an unknown chromosome is allocated. *)
Definition allocate (chrom : string) (strand : Strand) : Method unit :=
  ga ← get_state;
  if decide (strand ∈ strands ga) then
    match _chroms ga !! chrom with
    | Some _ => mret tt
    | None =>
      _ ← new_chrom chrom;
      for_each (strands ga) (fun my_strand =>
        z ← lift (zeros (Some (min_chr_size ga)));
        store_buffer chrom my_strand z)
    end
  else throw AssertionError.

(** The [try] statement shared by [__getitem__] and [__setitem__]. *)
Definition make_room (chrom : string) (strand : Strand) (end_ : Z) : Method unit :=
  try_except
    (buf ← buffer chrom strand;
     if end_ <? len buf then mret tt else throw AssertionError)
    (fun e =>
       match e with
       | AssertionError => Some (grow chrom strand end_)
       | KeyError => Some (allocate chrom strand)
       | _ => None
       end).

(** [self[roi]] for a [GenomicSegment] *)
Definition __getitem__ (roi : GenomicSegment) (roi_order : bool)
  : Method (list float) :=
  let chrom := chrom roi in
  let strand := strand roi in
  let start := start roi in
  let end_ := end_ roi in
  _ ← make_room chrom strand end_;
  buf ← buffer chrom strand;
  let vals := slice buf start end_ in
  ga ← get_state;
  vals ← (if _normalize ga
          then s ← sum;
               mret ((fun v => PrimFloat.div (PrimFloat.mul 1e6%float v) s) <$> vals)
          else mret vals);
  mret (if roi_order && bool_decide (strand = Minus) then reverse vals else vals).

(** [self[seg] = val] for a [GenomicSegment] *)
Definition __setitem__ (seg : GenomicSegment) (val : values) (roi_order : bool)
  : Method unit :=
  ga ← get_state;
  _ ← put_state (with_sum None ga);
  let old_normalize := _normalize ga in
  _ ← (if old_normalize then swarn DataWarning NormalizationOff else mret tt);
  _ ← set_normalize false;
  let chrom := chrom seg in
  let strand := strand seg in
  let start := start seg in
  let end_ := end_ seg in
  let val := if bool_decide (strand = Minus) && roi_order
             then reverse_values val else val in
  _ ← make_room chrom strand end_;
  buf ← buffer chrom strand;
  new ← lift (set_slice buf start end_ val);
  _ ← store_buffer chrom strand new;
  set_normalize old_normalize.

(** *** Two arrays: [self] and [other] *)

Definition on_self {A} (c : Method A) : State (t * t) A :=
  fun '(self, other) => obind (fun '(a, self') => returns (a, (self', other))) (c self).

Definition on_other {A} (c : Method A) : State (t * t) A :=
  fun '(self, other) => obind (fun '(a, other') => returns (a, (self, other'))) (c other).

(** [set(a.chroms()) | set(b.chroms())] and the like *)
Definition chrom_union (a b : t) : list string :=
  elements (dom (_chroms a) ∪ dom (_chroms b)).

Definition chrom_intersection (a b : t) : list string :=
  elements (dom (_chroms a) ∩ dom (_chroms b)).

Definition strand_union (a b : t) : list Strand :=
  elements (list_to_set (strands a) ∪ list_to_set (strands b) : gset Strand).

Definition strand_intersection (a b : t) : list Strand :=
  elements (list_to_set (strands a) ∩ list_to_set (strands b) : gset Strand).

(** [self == other], with [tol] defaulting to [1e-10] *)
Definition __eq__ (tol : float) : State (t * t) bool :=
  snz ← on_self nonzero;
  onz ← on_other nonzero;
  '(self, other) ← get_state;
  all_rounds (chrom ← chrom_union self other;
              strand ← strand_union self other; [(chrom, strand)])
    (fun '(chrom, strand) =>
       let self_nonzero_vec := default [] (snz !! chrom ≫= (.!! strand)) in
       let other_nonzero_vec := default [] (onz !! chrom ≫= (.!! strand)) in
       if negb (bool_decide (length self_nonzero_vec = length other_nonzero_vec))
       then mret false
       else if negb (bool_decide (self_nonzero_vec = other_nonzero_vec))
       then mret false
       else if bool_decide (0 < length self_nonzero_vec)%nat then
         lo ← lift (py_min self_nonzero_vec);
         hi ← lift (py_max self_nonzero_vec);
         let test_seg := Segment chrom lo hi strand in
         x ← on_self (__getitem__ test_seg true);
         y ← on_other (__getitem__ test_seg true);
         close ← lift (elementwise
                         (fun a b => PrimFloat.leb (PrimFloat.sub a b) tol) x y);
         mret (forallb id close)
       else mret true).

(** [1e-10], as the nearest binary64 value *)
Definition default_tol : float := 0x1.b7cdfd9d7bdbbp-34%float.

(** *** [apply_operation] *)

(** The second operand: an array of the same class, or a scalar. *)
Inductive operand := Array (ga : t) | Number (x : float).

(** The binary operator [func], applied to two buffers or to a buffer and a
    scalar. *)
Record binop := Binop {
  on_arrays : list float -> list float -> outcome (list float);
  on_number : list float -> float -> outcome (list float) }.

(** The local state of [apply_operation]. *)
Record frame := Frame { frame_self : t; frame_other : t; frame_new : t }.

Definition in_self {A} (c : Method A) : State frame A :=
  fun f => obind (fun '(a, x) => returns (a, Frame x (frame_other f) (frame_new f)))
                 (c (frame_self f)).

Definition in_other {A} (c : Method A) : State frame A :=
  fun f => obind (fun '(a, x) => returns (a, Frame (frame_self f) x (frame_new f)))
                 (c (frame_other f)).

Definition in_new {A} (c : Method A) : State frame A :=
  fun f => obind (fun '(a, x) => returns (a, Frame (frame_self f) (frame_other f) x))
                 (c (frame_new f)).

Definition _has_same_dimensions : State frame unit :=
  f ← get_state;
  if negb (bool_decide (dom (_chroms (frame_self f)) = dom (_chroms (frame_other f))))
  then throw AssertionError
  else if negb (bool_decide (strands (frame_self f) = strands (frame_other f)))
  then throw AssertionError
  else
    sl ← in_self lengths;
    ol ← in_other lengths;
    if negb (bool_decide (sl = ol)) then throw AssertionError else mret tt.

(** [oc.resize(len(sc))] or [sc.resize(len(oc))], whichever is shorter. *)
Definition grow_shorter (sc oc : list float) : list float * list float :=
  if len oc <? len sc then (sc, resize oc (len sc))
  else if len sc <? len oc then (resize sc (len oc), oc)
  else (sc, oc).

Definition shrink_longer (sc oc : list float) : list float * list float :=
  if len oc <? len sc then (resize sc (len oc), oc)
  else if len sc <? len oc then (sc, resize oc (len sc))
  else (sc, oc).

Definition combine_same (func : binop) : State frame unit :=
  _ ← _has_same_dimensions;
  f ← get_state;
  for_each (chrom ← keys (frame_self f); strand ← strands (frame_self f); [(chrom, strand)])
    (fun '(chrom, strand) =>
       buf ← in_self (buffer chrom strand);
       let seg := Segment chrom 0 (len buf) strand in
       a ← in_self (__getitem__ seg true);
       b ← in_other (__getitem__ seg true);
       v ← lift (on_arrays func a b);
       in_new (__setitem__ seg (Vector v) true)).

Definition combine_all (func : binop) : State frame unit :=
  f ← get_state;
  let chroms := chrom_union (frame_self f) (frame_other f) in
  let strands' := strand_union (frame_self f) (frame_other f) in
  fresh ← lift (__init__ (Some (gset_to_gmap None (list_to_set chroms)))
                         (Some strands') MIN_CHR_SIZE);
  _ ← put_state (Frame (frame_self f) (frame_other f) fresh);
  for_each chroms (fun chrom =>
    if bool_decide (chrom ∈ keys (frame_self f)) && bool_decide (chrom ∈ keys (frame_other f))
    then
      for_each strands' (fun strand =>
        if bool_decide (strand ∈ strands (frame_self f))
           && bool_decide (strand ∈ strands (frame_other f))
        then
          sc ← in_self (buffer chrom strand);
          oc ← in_other (buffer chrom strand);
          let '(sc, oc) := grow_shorter sc oc in
          v ← lift (on_arrays func sc oc);
          in_new (store_buffer chrom strand v)
        else if bool_decide (strand ∈ strands (frame_self f)) then
          sc ← in_self (buffer chrom strand);
          v ← lift (on_number func sc 0%float);
          in_new (store_buffer chrom strand v)
        else
          oc ← in_other (buffer chrom strand);
          v ← lift (on_number func oc 0%float);
          in_new (store_buffer chrom strand v))
    else if bool_decide (chrom ∈ keys (frame_self f)) then
      (* [self[chrom][strand]] indexes the array by a string, which has no
         attribute [chrom] *)
      for_each strands' (fun _ => throw AttributeError)
    else
      (* [other[chrom][strand]], likewise *)
      for_each strands' (fun _ => throw AttributeError)).

Definition combine_truncate (func : binop) : State frame unit :=
  f ← get_state;
  let my_strands := strand_intersection (frame_self f) (frame_other f) in
  let my_chroms := chrom_intersection (frame_self f) (frame_other f) in
  for_each (chrom ← my_chroms; strand ← my_strands; [(chrom, strand)])
    (fun '(chrom, strand) =>
       sc ← in_self (buffer chrom strand);
       oc ← in_other (buffer chrom strand);
       let '(sc, oc) := shrink_longer sc oc in
       v ← lift (on_arrays func sc oc);
       in_new (store_buffer chrom strand v)).

Definition combine_number (func : binop) (x : float) : State frame unit :=
  f ← get_state;
  for_each (chrom ← keys (frame_self f); strand ← strands (frame_self f); [(chrom, strand)])
    (fun '(chrom, strand) =>
       buf ← in_self (buffer chrom strand);
       v ← lift (on_number func buf x);
       in_new (store_buffer chrom strand v)).

(** [self.apply_operation(other,func,mode)]: the new array, and [self] and
    [other] as the call leaves them. *)
Definition apply_operation (self : t) (other : operand) (func : binop)
  (mode : string) : outcome (t * t * operand) :=
  new_array ← like self;
  let old_normalize := _normalize self in
  _ ← (if old_normalize then warn DataWarning NormalizationOff else mret tt);
  '(new_array, self, other) ←
    match other with
    | Array o =>
      '(_, f) ← (if decide (mode = "same") then combine_same func
                 else if decide (mode = "all") then combine_all func
                 else if decide (mode = "truncate") then combine_truncate func
                 else throw ValueError) (Frame self o new_array);
      mret (frame_new f, frame_self f, Array (frame_other f))
    | Number x =>
      '(_, f) ← combine_number func x (Frame self self new_array);
      mret (frame_new f, frame_self f, Number x)
    end;
  '(_, self) ← set_normalize old_normalize self;
  mret (new_array, self, other).

(** *** Export *)

(** One round of the loop over [x] in [to_bedgraph]. *)
Definition bedgraph_round (chrom : string) (buf : list float)
  (st : float * Z * list line) (x : Z) : Method (float * Z * list line) :=
  let '(last_val, last_x, out) := st in
  val ← lift (item buf x);
  if negb (PrimFloat.eqb val last_val)
  then mret (val, x, out ++ [Data chrom last_x x last_val])
  else mret (last_val, last_x, out).

(** The lines written for one chromosome, after [out]. *)
Definition bedgraph_chrom (nonzero : gmap string (gmap Strand (list Z)))
  (strand : Strand) (out : list line) (chrom : string) : Method (list line) :=
  buf ← buffer chrom strand;
  if PrimFloat.ltb 0%float (np_sum buf) then
    match nonzero !! chrom ≫= (.!! strand) with
    | None => throw KeyError
    | Some nz =>
      lo ← lift (py_min nz);
      hi ← lift (py_max nz);
      '(last_val, last_x, out) ←
        fold_each (seqZ lo (hi + 1 - lo)) (0%float, 0, out)
                  (bedgraph_round chrom buf);
      (* after the loop [x] is the last index, [nz.max()] *)
      mret (out ++ [Data chrom last_x (hi + 1) last_val])
    end
  else mret out.

(** [self.to_bedgraph(fh,trackname,strand,**kwargs)]: the lines written to
    [fh], in order. *)
Definition to_bedgraph (trackname : string) (strand : Strand)
  (kwargs : list (string * string)) : Method (list line) :=
  ga ← get_state;
  if negb (bool_decide (strand ∈ strands ga)) then throw AssertionError
  else
    let header := Track trackname (sorted_items kwargs) in
    nonzero ← nonzero;
    fold_each (sorted (elements (dom nonzero))) [header]
              (bedgraph_chrom nonzero strand).

(** *** Import *)

(** [self[seg] += val]: Python reads [self[seg]], adds [val] to what it read
    and assigns the result to [self[seg]]. With normalization off what is
    read is a view of the buffer, so the addition already changes the buffer
    in place; the assignment then writes the same values, and the array is
    left as by the assignment of a copy. *)
Definition increment (seg : GenomicSegment) (val : float) : Method unit :=
  vals ← __getitem__ seg true;
  __setitem__ seg (Vector ((fun v => PrimFloat.add v val) <$> vals)) true.

(** [self.add_from_bowtie(fh,mapfunc,min_length,max_length,**trans_args)],
    for the alignments that [BowtieReader(fh)] yields; [max_length] is a
    number or, by default, infinity. *)
Definition add_from_bowtie (features : list SegmentChain)
  (mapfunc : SegmentChain -> kwargs -> outcome mapped)
  (min_length : Z) (max_length : option Z) (trans_args : kwargs) : Method unit :=
  _ ← for_each features (fun feature =>
        let span_len := seg_len (spanning_segment feature) in
        if (min_length <=? span_len)
           && (match max_length with Some m => span_len <=? m | None => true end)
        then
          tuples ← lift (mapfunc feature trans_args);
          for_each tuples (fun '(seg, val) => increment seg val)
        else mret tt);
  ga ← get_state;
  put_state (with_sum None ga).

(** [self.add_from_wiggle(fh,strand)], for the records that
    [WiggleReader(fh)] yields *)
Definition add_from_wiggle (records : list (string * Z * Z * float))
  (strand : Strand) : Method unit :=
  ga ← get_state;
  if negb (bool_decide (strand ∈ strands ga)) then throw AssertionError
  else
    _ ← for_each records (fun '(chrom, start, stop, val) =>
          increment (Segment chrom start stop strand) val);
    ga ← get_state;
    put_state (with_sum None ga).

(** [self.to_variable_step(fh,trackname,strand,**kwargs)]: the lines written
    to [fh], in order. *)
Definition to_variable_step (trackname : string) (strand : Strand)
  (kwargs : list (string * string)) : Method (list wiggle_line) :=
  ga ← get_state;
  if negb (bool_decide (strand ∈ strands ga)) then throw AssertionError
  else
    let header := WiggleTrack trackname (sorted_items kwargs) in
    nonzero ← nonzero;
    fold_each (sorted (elements (dom nonzero))) [header] (fun out chrom =>
      let out := out ++ [VariableStep chrom] in
      match nonzero !! chrom ≫= (.!! strand) with
      | None => throw KeyError
      | Some indices =>
        fold_each indices out (fun out idx =>
          buf ← buffer chrom strand;
          val ← lift (item buf idx);
          mret (out ++ [Position (idx + 1) val]))
      end).

End Methods.

End GenomeArray.

(** ** BAMGenomeArray *)

(** What the array reads of a [pysam.AlignedSegment]. *)
Class AlignedSegment (read : Type) := is_reverse : read -> bool.

Module BAMGenomeArray.

Section Reads.
Context {read : Type} `{AlignedSegment read} `{NumpySum}.

(** An open [pysam.AlignmentFile]. *)
Record AlignmentFile := {
  references : list string;
  lengths_ : list Z;
  mapped : Z;
  fetch : string -> Z -> Z -> outcome (list read) }.

Record t := Make {
  bamfiles : list AlignmentFile;
  map_fn : list read -> GenomicSegment -> outcome (list read * list float);
  _strands : list Strand;
  _normalize : bool;
  _chr_lengths : gmap string Z;
  _chroms : list string;
  _filters : list (string * (read -> bool));
  _sum : option float }.

Abbreviation Method := (State t).

Definition with_sum (s : option float) (a : t) : t :=
  Make (bamfiles a) (map_fn a) (_strands a) (_normalize a) (_chr_lengths a)
       (_chroms a) (_filters a) s.

Definition reset_sum : Method unit :=
  a ← get_state;
  put_state (with_sum (Some (Z2float (foldl Z.add 0 (mapped <$> bamfiles a)))) a).

(** [BAMGenomeArray(bamfiles,mapping)], for open files and a given mapping
    function. *)
Definition __init__ (bamfiles : list AlignmentFile)
  (mapping : list read -> GenomicSegment -> outcome (list read * list float)) : t :=
  let _chr_lengths :=
    foldl (fun d bamfile =>
             foldl (fun d '(k, v) => <[k := Z.max (default 0 (d !! k)) v]> d)
                   d (zip (references bamfile) (lengths_ bamfile)))
          (∅ : gmap string Z) bamfiles in
  with_sum (Some (Z2float (foldl Z.add 0 (mapped <$> bamfiles))))
    (Make bamfiles mapping [Plus; Minus; Unstranded] false _chr_lengths
          (sorted (elements (dom _chr_lengths))) [] None).

Definition sum : Method float :=
  a ← get_state;
  _ ← (match _sum a with None => reset_sum | Some _ => mret tt end);
  a ← get_state;
  match _sum a with
  | Some s => mret s
  | None => throw TypeError
  end.

Definition chroms (a : t) : list string := _chroms a.
Definition strands (a : t) : list Strand := _strands a.
Definition lengths (a : t) : gmap string Z := _chr_lengths a.

Definition get_reads_and_counts (roi : GenomicSegment) (roi_order : bool)
  : Method (list read * list float) :=
  a ← get_state;
  let chrom := chrom roi in
  let strand := strand roi in
  let start := start roi in
  let end_ := end_ roi in
  if negb (bool_decide (chrom ∈ chroms a)) then
    z ← lift (zeros (Some (seg_len roi)));
    mret ([], z)
  else
    fetched ← lift (mapM (fun X => fetch X chrom start end_) (bamfiles a));
    let reads := concat fetched in
    let reads :=
      match strand with
      | Plus => filter (fun x => is_reverse x = false) reads
      | Minus => filter (fun x => is_reverse x = true) reads
      | Unstranded => reads
      end in
    let reads :=
      foldl (fun reads my_filter => filter (fun x => my_filter x = true) reads)
            reads (snd <$> _filters a) in
    '(reads, count_array) ← lift (map_fn a reads roi);
    count_array ← (if _normalize a
                   then s ← sum;
                        mret ((fun c => PrimFloat.mul (PrimFloat.div c s) 1e6%float)
                                <$> count_array)
                   else mret count_array);
    mret (reads,
          if roi_order && bool_decide (strand = Minus)
          then reverse count_array else count_array).

Definition __getitem__ (roi : GenomicSegment) (roi_order : bool)
  : Method (list float) :=
  '(_, count_array) ← get_reads_and_counts roi roi_order;
  mret count_array.

(** [self.to_genome_array()], for the default [array_type], [GenomeArray]:
    the new array and [self] after the queries. *)
Definition to_genome_array : Method GenomeArray.t :=
  a ← get_state;
  ga ← lift (GenomeArray.__init__ (Some (Some <$> lengths a)) (Some (strands a))
                                  MIN_CHR_SIZE);
  fold_each (chrom ← chroms a; strand ← strands a; [(chrom, strand)]) ga
    (fun ga '(chrom, strand) =>
       match lengths a !! chrom with
       | None => throw KeyError
       | Some l =>
         let seg := Segment chrom 0 (l - 1) strand in
         v ← __getitem__ seg true;
         '(_, ga') ← lift (GenomeArray.__setitem__ seg (Vector v) true ga);
         mret ga'
       end).

(** One round of the loop over [my_counts[1:]] in [to_bedgraph]. *)
Definition bedgraph_round (chrom : string) (my_start : Z)
  (st : float * Z * list line) (xv : Z * float) : float * Z * list line :=
  let '(last_val, genomic_start_x, out) := st in
  let '(x, val) := xv in
  if negb (PrimFloat.eqb val last_val) then
    let genomic_end_x := 1 + x + my_start in
    (val, genomic_end_x,
     if PrimFloat.ltb 0%float last_val
     then out ++ [Data chrom genomic_start_x genomic_end_x last_val]
     else out)
  else (last_val, genomic_start_x, out).

(** [enumerate(xs)] *)
Definition enumerate {A} (xs : list A) : list (Z * A) :=
  zip (seqZ 0 (len xs)) xs.

(** The lines written for the window starting at [my_start], after [out]. *)
Definition bedgraph_window (chrom : string) (strand : Strand) (my_size window_size : Z)
  (out : list line) (my_start : Z) : Method (list line) :=
  let my_end := Z.min (my_start + window_size) my_size in
  my_counts ← __getitem__ (Segment chrom my_start my_end strand) false;
  if PrimFloat.ltb 0%float (np_sum my_counts) then
    let genomic_start_x := my_start in
    last_val ← lift (item my_counts 0);
    let '(last_val, genomic_start_x, out) :=
      foldl (bedgraph_round chrom my_start) (last_val, genomic_start_x, out)
            (enumerate (drop 1 my_counts)) in
    mret (if PrimFloat.ltb 0%float last_val
          then out ++ [Data chrom genomic_start_x my_end last_val]
          else out)
  else mret out.

(** [self.to_bedgraph(fh,trackname,strand,window_size,**kwargs)]: the lines
    written to [fh], in order. *)
Definition to_bedgraph (trackname : string) (strand : Strand) (window_size : Z)
  (kwargs : list (string * string)) : Method (list line) :=
  a ← get_state;
  if negb (bool_decide (strand ∈ strands a)) then throw AssertionError
  else if negb (0 <? window_size) then throw AssertionError
  else
    let header := Track trackname (sorted_items kwargs) in
    fold_each (sorted (chroms a)) [header] (fun out chrom =>
      match _chr_lengths a !! chrom with
      | None => throw KeyError
      | Some my_size =>
        let window_starts := xrange my_size window_size in
        fold_each window_starts out
                  (bedgraph_window chrom strand my_size window_size)
      end).

(** *** Settings *)

Definition with_normalize (b : bool) (a : t) : t :=
  Make (bamfiles a) (map_fn a) (_strands a) b (_chr_lengths a)
       (_chroms a) (_filters a) (_sum a).

Definition with_map_fn
  (f : list read -> GenomicSegment -> outcome (list read * list float)) (a : t) : t :=
  Make (bamfiles a) f (_strands a) (_normalize a) (_chr_lengths a)
       (_chroms a) (_filters a) (_sum a).

Definition with_filters (fs : list (string * (read -> bool))) (a : t) : t :=
  Make (bamfiles a) (map_fn a) (_strands a) (_normalize a) (_chr_lengths a)
       (_chroms a) fs (_sum a).

(** [self.set_sum(val)] and [self.set_normalize(value)], as inherited *)
Definition set_sum (val : float) : Method unit :=
  fun a => returns (tt, with_sum (Some val) a).

Definition set_normalize (value : bool) : Method unit :=
  fun a => returns (tt, with_normalize value a).

Definition _update : Method unit := reset_sum.

(** [self.add_filter(name,func)] *)
Definition add_filter (name : string) (func : read -> bool) : Method unit :=
  fun a => returns (tt, with_filters (od_set name func (_filters a)) a).

(** [self.remove_filter(name)] *)
Definition remove_filter (name : string) : Method (read -> bool) :=
  fun a =>
    match od_pop name (_filters a) with
    | None => raise KeyError
    | Some (retval, rest) => returns (retval, with_filters rest a)
    end.

(** [self.get_reads(roi)] *)
Definition get_reads (roi : GenomicSegment) : Method (list read) :=
  '(reads, _) ← get_reads_and_counts roi true;
  mret reads.

(** [self.set_mapping(mapping_function)] *)
Definition set_mapping
  (mapping_function : list read -> GenomicSegment -> outcome (list read * list float))
  : Method unit :=
  a ← get_state;
  _ ← put_state (with_map_fn mapping_function a);
  _update.

(** The lines written for the window starting at [my_start], after [out]. *)
Definition variable_step_window (chrom : string) (strand : Strand)
  (my_size window_size : Z) (out : list wiggle_line) (my_start : Z)
  : Method (list wiggle_line) :=
  let my_end := Z.min (my_start + window_size) my_size in
  my_counts ← __getitem__ (Segment chrom my_start my_end strand) false;
  if PrimFloat.ltb 0%float (np_sum my_counts) then
    fold_each (np_nonzero my_counts) out (fun out idx =>
      let genomic_x := my_start + idx in
      val ← lift (item my_counts idx);
      mret (out ++ [Position (genomic_x + 1) val]))
  else mret out.

(** [self.to_variable_step(fh,trackname,strand,window_size,**kwargs)]: the
    lines written to [fh], in order. *)
Definition to_variable_step (trackname : string) (strand : Strand) (window_size : Z)
  (kwargs : list (string * string)) : Method (list wiggle_line) :=
  a ← get_state;
  if negb (bool_decide (strand ∈ strands a)) then throw AssertionError
  else
    let header := WiggleTrack trackname (sorted_items kwargs) in
    fold_each (sorted (chroms a)) [header] (fun out chrom =>
      match lengths a !! chrom with
      | None => throw KeyError
      | Some my_size =>
        let out := out ++ [VariableStep chrom] in
        match _chr_lengths a !! chrom with
        | None => throw KeyError
        | Some stop =>
          window_starts ← lift (xrange_from_0 stop window_size);
          fold_each window_starts out
                    (variable_step_window chrom strand my_size window_size)
        end
      end).

End Reads.

Arguments AlignmentFile : clear implicits.
Arguments t : clear implicits.

End BAMGenomeArray.

(** ** Instances for the worked examples *)

(** A summation that accumulates from the left. *)
Definition seq_sum : NumpySum := fun xs => fold_left PrimFloat.add xs 0%float.

(** [operator.add] on buffers *)
Definition operator_add : GenomeArray.binop :=
  GenomeArray.Binop (elementwise PrimFloat.add)
                    (fun x n => returns ((fun a => PrimFloat.add a n) <$> x)).

(** [operator.mul] on buffers *)
Definition operator_mul : GenomeArray.binop :=
  GenomeArray.Binop (elementwise PrimFloat.mul)
                    (fun x n => returns ((fun a => PrimFloat.mul a n) <$> x)).

(** [self + other], [self * other] and [self - other] with their [mode]
    argument: the new array, and both operands as the call leaves them. *)
Definition __add__ `{NumpySum} (self : GenomeArray.t) (other : GenomeArray.operand)
  (mode : string) : outcome (GenomeArray.t * GenomeArray.t * GenomeArray.operand) :=
  GenomeArray.apply_operation self other operator_add mode.

Definition __mul__ `{NumpySum} (self : GenomeArray.t) (other : GenomeArray.operand)
  (mode : string) : outcome (GenomeArray.t * GenomeArray.t * GenomeArray.operand) :=
  GenomeArray.apply_operation self other operator_mul mode.

(** [self.__add__(other*-1)]: [mode] is not passed on, and [other*-1] is a
    product by a scalar in the default mode, ["all"]. *)
Definition __sub__ `{NumpySum} (self : GenomeArray.t) (other : GenomeArray.operand)
  (mode : string) : outcome (GenomeArray.t * GenomeArray.t * GenomeArray.operand) :=
  '(negated, other) ←
    match other with
    | GenomeArray.Number x =>
      returns (GenomeArray.Number (PrimFloat.mul x (-1)%float), other)
    | GenomeArray.Array o =>
      '(n, o, _) ← __mul__ o (GenomeArray.Number (-1)%float) "all";
      returns (GenomeArray.Array n, GenomeArray.Array o)
    end;
  '(new_array, self, _) ← __add__ self negated "all";
  returns (new_array, self, other).

(** An array with the default strands, both holding [buf] on each of the
    chromosomes listed. *)
Definition dense (l : list (string * list float)) : GenomeArray.t :=
  GenomeArray.Make
    (list_to_map ((fun '(c, buf) => (c, {[ Plus := buf; Minus := buf ]})) <$> l))
    _DEFAULT_STRANDS MIN_CHR_SIZE None false.

(** What a call returned, without the state it left. *)
Definition answer {A S} (o : outcome (A * S)) : exn + A :=
  match result o with
  | inl e => inl e
  | inr (a, _) => inr a
  end.

(** The state a call left, if it returned. *)
Definition final {A S} (o : outcome (A * S)) : option S :=
  match result o with
  | inl _ => None
  | inr (_, s) => Some s
  end.

(** The length of each buffer of an array. *)
Definition buffer_lengths (ga : GenomeArray.t) : list (string * list (Strand * Z)) :=
  (fun '(c, d) => (c, (fun '(s, buf) => (s, len buf)) <$> map_to_list d))
    <$> map_to_list (GenomeArray._chroms ga).

(** A read alignment reduced to its coordinates. *)
Record toy_read := ToyRead { r_start : Z; r_end : Z; r_reverse : bool }.

#[export] Instance toy_read_aligned : AlignedSegment toy_read := r_reverse.

(** A file of one reference [chrom] of [size] positions. *)
Definition toy_file (chrom : string) (size : Z) (reads : list toy_read)
  : BAMGenomeArray.AlignmentFile toy_read :=
  {| BAMGenomeArray.references := [chrom];
     BAMGenomeArray.lengths_ := [size];
     BAMGenomeArray.mapped := len reads;
     BAMGenomeArray.fetch := fun c s e =>
       if decide (c = chrom)
       then returns (filter (fun r => r_start r < e ∧ s < r_end r) reads)
       else raise ValueError |}.

(** A mapping function in the manner of [FivePrimeMapFactory()]: each read
    counts once at its 5' end. *)
Definition toy_fiveprime (reads : list toy_read) (roi : GenomicSegment)
  : outcome (list toy_read * list float) :=
  let site r := if r_reverse r then r_end r - 1 else r_start r in
  returns (reads,
           (fun p => Z2float (len (filter (fun r => site r = p) reads)))
             <$> seqZ (start roi) (seg_len roi)).

(** The value stored at a genome position of a chromosome strand. *)
Definition stored (ga : GenomeArray.t) (chrom : string) (strand : Strand) (p : Z)
  : option float :=
  d ← GenomeArray._chroms ga !! chrom;
  buf ← d !! strand;
  if p <? 0 then None else buf !! Z.to_nat p.

(** The one-position segment at [start], as the 5' and 3' rules return it. *)
Definition site (span : GenomicSegment) (start : Z) : GenomicSegment :=
  Segment (chrom span) start (start + 1) (strand span).

(** The position that 5' mapping assigns to [span] at [offset]. *)
Definition five_prime_site (span : GenomicSegment) (offset : Z) : Z :=
  match strand span with
  | Plus | Unstranded => start span + offset
  | Minus => end_ span - 1 - offset
  end.

Import GenomeArray.

(** The strand dictionary of a new chromosome once [l] has been walked. *)
Definition fresh_strands (l : list Strand) (z : list float) (d : gmap Strand (list float))
  : gmap Strand (list float) :=
  foldl (fun d s => <[s := z]> d) d l.

(** The array after [allocate] on a chromosome it did not have. *)
Definition allocated (ga : t) (c : string) : t :=
  with_chroms
    (<[c := fresh_strands (strands ga)
              (replicate (Z.to_nat (min_chr_size ga)) 0%float) ∅]> (_chroms ga)) ga.

(** No growth: the segment ends within the buffer of its chromosome strand,
    or within the buffer that is allocated for a chromosome the array does
    not have yet. *)
Definition within_buffer (ga : t) (iv : GenomicSegment) : Prop :=
  (exists d buf, _chroms ga !! chrom iv = Some d /\ d !! strand iv = Some buf /\
                 end_ iv < len buf) \/
  (_chroms ga !! chrom iv = None /\ strand iv ∈ strands ga /\
   end_ iv < min_chr_size ga).

(** The buffers that [iterchroms] yields. *)
Fixpoint lookups (m : gmap string (gmap Strand (list float)))
  (l : list (string * Strand)) : option (list (list float)) :=
  match l with
  | [] => Some []
  | (c, s) :: rest =>
    match m !! c ≫= (.!! s) with
    | None => None
    | Some buf => (buf ::.) <$> lookups m rest
    end
  end.

Definition yielded (ga : t) : option (list (list float)) :=
  lookups (_chroms ga) (chrom ← keys ga; strand ← strands ga; [(chrom, strand)]).

(** The length, and the first [n] entries, of a buffer of an array. *)
Definition buffer_len (ga : t) (c : string) (s : Strand) : option Z :=
  d ← _chroms ga !! c; buf ← d !! s; Some (len buf).

Definition contents (ga : t) (c : string) (s : Strand) (n : nat)
  : option (list float) :=
  d ← _chroms ga !! c; buf ← d !! s; Some (take n buf).

(** Arrays of one chromosome for the worked examples. *)
Definition chrI : t := dense [("chrI"%string, [1; 0; 2]%float)].
Definition chrI' : t := dense [("chrI"%string, [5; 0; 2]%float)].
Definition chrII : t := dense [("chrII"%string, [5; 0; 2]%float)].

(** Five forward reads on a reference of four positions: their 5' ends give
    the counts [1, 1, 1, 2]. *)
Definition toy_bam : BAMGenomeArray.t toy_read :=
  BAMGenomeArray.__init__
    [toy_file "chrI" 4 [ToyRead 0 3 false; ToyRead 1 3 false; ToyRead 2 4 false;
                        ToyRead 3 4 false; ToyRead 3 4 false]]
    toy_fiveprime.

(** ** Runs of equal values *)

(** The loops of both [to_bedgraph] methods, as a recursion over the values
    from position [x] on: [last_val] has run since [last_x], and [keep] says
    whether a line is written for a value. *)
Fixpoint rle (chrom : string) (keep : float -> bool) (last_val : float)
  (last_x x : Z) (vals : list float) : float * Z * list line :=
  match vals with
  | [] => (last_val, last_x, [])
  | val :: rest =>
    if negb (PrimFloat.eqb val last_val)
    then let '(lv, lx, out) := rle chrom keep val x (x + 1) rest in
         (lv, lx,
          (if keep last_val then [Data chrom last_x x last_val] else []) ++ out)
    else rle chrom keep last_val last_x (x + 1) rest
  end.

(** The value at genome position [p] of a vector that starts at [base]. *)
Definition at_position (vals : list float) (base p : Z) : option float :=
  if p <? base then None else vals !! Z.to_nat (p - base).

(** [s,e) is a run of [v] in [vals]: it starts with [v], every later
    position compares equal to [v], and the positions next to it, where
    [vals] has any, compare different. *)
Definition maximal_run (vals : list float) (base s e : Z) (v : float) : Prop :=
  base <= s < e /\ e <= base + len vals /\
  at_position vals base s = Some v /\
  (forall q y, s < q < e -> at_position vals base q = Some y ->
               PrimFloat.eqb y v = true) /\
  (forall y, at_position vals base (s - 1) = Some y -> PrimFloat.eqb y v = false) /\
  (forall y, at_position vals base e = Some y -> PrimFloat.eqb y v = false).

(** The state of a loop before position [x]: the run of [lv] that began at
    [lx] reaches [x] and cannot be extended to the left. *)
Definition open_run (vals : list float) (base x : Z) (lv : float) (lx : Z) : Prop :=
  base <= lx < x /\
  at_position vals base lx = Some lv /\
  (forall q y, lx < q < x -> at_position vals base q = Some y ->
               PrimFloat.eqb y lv = true) /\
  (forall y, at_position vals base (lx - 1) = Some y -> PrimFloat.eqb y lv = false).

(** The line [l] is a data line on [chrom] and satisfies [P]. *)
Definition line_is (chrom : string) (P : Z -> Z -> float -> Prop) (l : line) : Prop :=
  exists s e v, l = Data chrom s e v /\ P s e v.

(** A line of a window: a maximal run, within the window's counts, of a
    positive value. *)
Definition positive_run (counts : list float) (base : Z) (chrom : string)
  : line -> Prop :=
  line_is chrom (fun s e v => PrimFloat.ltb 0%float v = true /\
                              maximal_run counts base s e v).

(** A line of a chromosome strand: when its value is nonzero, a maximal run
    of the buffer. *)
Definition nonzero_run (buf : list float) (chrom : string) : line -> Prop :=
  line_is chrom (fun s e v => nonzerob v = true -> maximal_run buf 0 s e v).

(** The indices that [nonzero] records are those of the stored buffers. *)
Definition recorded (ga : t) (c : string) (s : Strand) (v : list Z) : Prop :=
  exists d buf, _chroms ga !! c = Some d /\ d !! s = Some buf /\ v = np_nonzero buf.

(** A line written by the dense array for [strand]. *)
Definition dense_line (ga : t) (strand : Strand) (l : line) : Prop :=
  exists chrom d buf,
    _chroms ga !! chrom = Some d /\ d !! strand = Some buf /\
    nonzero_run buf chrom l.

Module B := BAMGenomeArray.

Section Views.
Context {read : Type} `{AlignedSegment read} `{NumpySum}.
Implicit Types (a : B.t read).

Definition total_mapped a : float :=
  Z2float (foldl Z.add 0 (B.mapped <$> B.bamfiles a)).

(** [a'] is [a], but for a sum cached by a call of [sum]. *)
Definition cache_of a a' : Prop :=
  a' = a \/ (B._sum a = None /\ a' = B.with_sum (Some (total_mapped a)) a).

(** What [get_reads_and_counts] does once the mapping function has
    returned. *)
Definition finish (roi : GenomicSegment) (roi_order : bool) a
  (rc : list read * list float) : outcome ((list read * list float) * B.t read) :=
  let '(reads, count_array) := rc in
  let ordered (c : list float) :=
    if roi_order && bool_decide (strand roi = Minus) then reverse c else c in
  if B._normalize a then
    obind (fun '(s, a') =>
             returns ((reads,
                       ordered ((fun c => PrimFloat.mul (PrimFloat.div c s) 1e6%float)
                                  <$> count_array)), a'))
          (B.sum a)
  else returns ((reads, ordered count_array), a).

(** The reads fetched, filtered and mapped. *)
Definition mapped_counts (roi : GenomicSegment) a : outcome (list read * list float) :=
  obind (fun fetched =>
           let reads := concat fetched in
           let reads :=
             match strand roi with
             | Plus => filter (fun x => is_reverse x = false) reads
             | Minus => filter (fun x => is_reverse x = true) reads
             | Unstranded => reads
             end in
           let reads :=
             foldl (fun reads my_filter => filter (fun x => my_filter x = true) reads)
                   reads (snd <$> B._filters a) in
           B.map_fn a reads roi)
        (mapM (fun X => B.fetch X (chrom roi) (start roi) (end_ roi)) (B.bamfiles a)).

(** The mapping function returns one count for each position of the
    region. *)
Definition sized a : Prop :=
  forall reads roi w r c,
    start roi <= end_ roi ->
    B.map_fn a reads roi = Outcome w (inr (r, c)) -> len c = seg_len roi.

(** A line written for one window: a run of one positive value, maximal
    within the window, of the counts that the array reports there. *)
Definition window_line a (strand : Strand) (window_size : Z) (l : line) : Prop :=
  exists chrom my_size my_start counts,
    B._chr_lengths a !! chrom = Some my_size /\
    my_start ∈ xrange my_size window_size /\
    answer (B.__getitem__
              (Segment chrom my_start (Z.min (my_start + window_size) my_size) strand)
              false a) = inr counts /\
    positive_run counts my_start chrom l.

End Views.

(** ** Notions for the properties of the arrays *)

(** Every chromosome has a buffer for each strand of the array. *)
Definition complete (ga : t) : Prop :=
  forall c d s, _chroms ga !! c = Some d -> s ∈ strands ga -> is_Some (d !! s).

(** The buffer that [numpy.zeros(l)] returns. *)
Definition zeros_of (l : option Z) : list float :=
  match l with
  | None => [0%float]
  | Some n => replicate (Z.to_nat n) 0%float
  end.

(** The chromosomes of a new array of the given lengths. *)
Definition fresh_chroms (S : list Strand) (chr_lengths : gmap string (option Z))
  : gmap string (gmap Strand (list float)) :=
  (fun l => fresh_strands S (zeros_of l) ∅) <$> chr_lengths.

(** The length that [lengths] reports for a chromosome: that of its longest
    strand. *)
Definition chrom_len (S : list Strand) (d : gmap Strand (list float)) : Z :=
  foldl Z.max 0 ((fun s => len (default [] (d !! s))) <$> S).

(** Every chromosome has one buffer for each strand of the array and for no
    other, and its buffers have one length. *)
Definition rectangular (ga : t) : Prop :=
  forall c d, _chroms ga !! c = Some d ->
    (forall s, is_Some (d !! s) <-> s ∈ strands ga) /\
    exists n, forall s buf, d !! s = Some buf -> len buf = n.

(** The strand dictionary of a chromosome once [grow] has walked [l]. *)
Definition resized (l : list Strand) (n : Z) (d : gmap Strand (list float))
  : gmap Strand (list float) :=
  foldl (fun d s => match d !! s with
                    | Some b => <[s := resize b n]> d
                    | None => d
                    end) d l.

(** The array after [grow] has resized the strands of [c] to [n]. *)
Definition grown (ga : t) (c : string) (n : Z) : t :=
  with_chroms (<[c := resized (strands ga) n (default ∅ (_chroms ga !! c))]> (_chroms ga)) ga.

(** Whatever [ga] stores, [ga'] stores too. *)
Definition extends (ga ga' : t) : Prop :=
  forall c s p v, stored ga c s p = Some v -> stored ga' c s p = Some v.

(** The array holds a nonzero value at position [p] of chromosome [c] on one
    of its strands, [s]. *)
Definition holds_nonzero (ga : t) (c : string) (s : Strand) (p : Z) : Prop :=
  s ∈ strands ga /\ exists v, stored ga c s p = Some v /\ nonzerob v = true.

(** What [nonzero] returns for one chromosome. *)
Definition nonzero_strands (S : list Strand) (d : gmap Strand (list float))
  : gmap Strand (list Z) :=
  foldl (fun m s => <[s := np_nonzero (default [] (d !! s))]> m) ∅ S.

(** The buffer that mode ["all"] stores for [(c,s)]. *)
Definition combined (g : list float -> list float -> list float)
  (gn : list float -> list float) (self other : t) (c : string) (s : Strand)
  : list float :=
  let sc := default [] (_chroms self !! c ≫= (.!! s)) in
  let oc := default [] (_chroms other !! c ≫= (.!! s)) in
  if bool_decide (s ∈ strands self) && bool_decide (s ∈ strands other)
  then g (resize sc (Z.max (len sc) (len oc))) (resize oc (Z.max (len sc) (len oc)))
  else if bool_decide (s ∈ strands self) then gn sc else gn oc.

(** The lines of one chromosome in a variableStep file: its declaration,
    then one line for each nonzero entry of [buf], by ascending position. *)
Definition variable_step_block (buf : list float) (chrom : string) : list wiggle_line :=
  VariableStep chrom ::
  ((fun idx => Position (idx + 1) (default 0%float (buf !! Z.to_nat idx)))
     <$> np_nonzero buf).

(** The buffer of [(c,s)], empty if the array has none. *)
Definition buffer_of (ga : t) (c : string) (s : Strand) : list float :=
  default [] (_chroms ga !! c ≫= (.!! s)).

(** [acc], plus the value of the tuple if its segment covers position [p] of
    chromosome [c] on strand [s]. *)
Definition add_tuple (c : string) (s : Strand) (p : Z) (acc : float)
  (t : GenomicSegment * float) : float :=
  if bool_decide (chrom t.1 = c /\ strand t.1 = s /\ start t.1 <= p < end_ t.1)
  then PrimFloat.add acc t.2 else acc.

(** The segment lies within a buffer that the array has, short of its last
    position. *)
Definition fits (ga : t) (seg : GenomicSegment) : Prop :=
  exists n, buffer_len ga (chrom seg) (strand seg) = Some n /\
            0 <= start seg <= end_ seg /\ end_ seg < n.

(** The alignments that [add_from_bowtie] maps: those whose span has a
    length from [min_length] to [max_length]. *)
Definition counted (min_length : Z) (max_length : option Z) (feature : SegmentChain)
  : bool :=
  (min_length <=? seg_len (spanning_segment feature))
  && match max_length with
     | Some m => seg_len (spanning_segment feature) <=? m
     | None => true
     end.

(** A wiggle record as a tuple on [strand]. *)
Definition wiggle_tuple (strand : Strand) (r : string * Z * Z * float)
  : GenomicSegment * float :=
  let '(chrom, start, stop, val) := r in (Segment chrom start stop strand, val).

Section MoreViews.
Context {read : Type} `{AlignedSegment read} `{NumpySum}.
Implicit Types (a : B.t read).

(** The lengths that the files report for the reference [k], in the order of
    the files. *)
Definition reported (bamfiles : list (B.AlignmentFile read)) (k : string) : list Z :=
  (filter (fun p => p.1 = k)
          (bamfiles ≫= fun f => zip (B.references f) (B.lengths_ f))).*2.

(** The read [x] is on the strand of [roi] and passes every filter of [a]. *)
Definition passes a (roi : GenomicSegment) (x : read) : bool :=
  match strand roi with
  | Plus => negb (is_reverse x)
  | Minus => is_reverse x
  | Unstranded => true
  end && forallb (fun f => f x) (B._filters a).*2.

(** A position line of the BAM array's [variableStep] output: a nonzero
    count of some window, written at its 1-based position. *)
Definition position_line a (strand : Strand) (window_size : Z) (l : wiggle_line)
  : Prop :=
  exists chrom my_size my_start counts idx v,
    B.lengths a !! chrom = Some my_size /\
    (exists k, 0 <= k /\ my_start = k * window_size) /\
    answer (B.__getitem__
              (Segment chrom my_start (Z.min (my_start + window_size) my_size) strand)
              false a) = inr counts /\
    0 <= idx /\ counts !! Z.to_nat idx = Some v /\ nonzerob v = true /\
    l = Position (my_start + idx + 1) v.

(** The line gives a position and its value. *)
Definition is_position (l : wiggle_line) : bool :=
  match l with Position _ _ => true | _ => false end.

End MoreViews.

(** * Properties of the mapping functions *)

Section Mapping.

Implicit Types (feature : SegmentChain) (value : option float).

Lemma five_prime_map_kept feature offset value nibble :
  offset <= feature_length feature ->
  five_prime_map feature (Kwargs (Some (OffsetInt offset)) value nibble) =
  returns [(site (spanning_segment feature)
                 (five_prime_site (spanning_segment feature) offset),
            value_or_1 (Kwargs (Some (OffsetInt offset)) value nibble))].
Proof.
  intros Hle. unfold five_prime_map, five_prime_site, site; cbn.
  destruct (Z.ltb_spec (feature_length feature) offset); [lia|].
  destruct (strand (spanning_segment feature)); reflexivity.
Qed.

Lemma five_prime_map_discarded feature offset value nibble :
  feature_length feature < offset ->
  five_prime_map feature (Kwargs (Some (OffsetInt offset)) value nibble) =
  Outcome [Warning DataWarning (ShorterThanOffset (feature_length feature) offset)]
          (inr []).
Proof.
  intros Hlt. unfold five_prime_map; cbn.
  destruct (Z.ltb_spec (feature_length feature) offset); [reflexivity|lia].
Qed.

(** C2. With [offset=2], an ungapped alignment spanning [50,70) maps to
    [(chrom,52,53,'+')] on the plus strand and to [(chrom,67,68,'-')] on the
    minus strand, each with weight [1.0]; and an alignment shorter than the
    offset is discarded: a warning, and the empty list. *)
Theorem five_prime_map_scenario :
  (forall c,
      five_prime_map (ungapped (Segment c 50 70 Plus))
                     (Kwargs (Some (OffsetInt 2)) None None)
      = returns [(Segment c 52 53 Plus, 1%float)]) /\
  (forall c,
      five_prime_map (ungapped (Segment c 50 70 Minus))
                     (Kwargs (Some (OffsetInt 2)) None None)
      = returns [(Segment c 67 68 Minus, 1%float)]) /\
  (forall feature offset value nibble,
      feature_length feature < offset ->
      let call := five_prime_map feature
                    (Kwargs (Some (OffsetInt offset)) value nibble) in
      result call = inr [] /\
      warnings call =
      [Warning DataWarning (ShorterThanOffset (feature_length feature) offset)]).
Proof.
  split; [|split].
  - intros c. reflexivity.
  - intros c. reflexivity.
  - intros feature offset value nibble Hlt call. subst call.
    rewrite five_prime_map_discarded by assumption. split; reflexivity.
Qed.

Lemma five_prime_map_scenario_witness :
  let call := five_prime_map (ungapped (Segment "chrI" 50 70 Plus))
                (Kwargs (Some (OffsetInt 21)) None None) in
  result call = inr [] /\
  warnings call = [Warning DataWarning (ShorterThanOffset 20 21)].
Proof.
  apply (proj2 (proj2 five_prime_map_scenario)
           (ungapped (Segment "chrI" 50 70 Plus)) 21 None None).
  vm_compute. reflexivity.
Defined.

(** *** Omitted parameters *)

Lemma offset_or_0_default value nibble :
  offset_or_0 (Kwargs None value nibble) =
  offset_or_0 (Kwargs (Some (OffsetInt 0)) value nibble).
Proof. reflexivity. Qed.

Lemma five_prime_map_returns feature offset value nibble :
  raised (five_prime_map feature (Kwargs (OffsetInt <$> offset) value nibble))
  = false.
Proof.
  unfold five_prime_map. destruct offset as [o|]; cbn.
  - destruct (feature_length feature <? o); reflexivity.
  - destruct (feature_length feature <? 0); reflexivity.
Qed.

Lemma three_prime_map_returns feature offset value nibble :
  raised (three_prime_map feature (Kwargs (OffsetInt <$> offset) value nibble))
  = false.
Proof.
  unfold three_prime_map. destruct offset as [o|]; cbn.
  - destruct (feature_length feature <? o); reflexivity.
  - destruct (feature_length feature <? 0); reflexivity.
Qed.

Lemma variable_five_prime_map_returns feature d value nibble :
  raised (variable_five_prime_map feature (Kwargs (Some (OffsetDict d)) value nibble))
  = false.
Proof.
  unfold variable_five_prime_map; cbn.
  destruct (lookup_offset d _) as [o|]; [|reflexivity].
  destruct (feature_length feature <=? o); reflexivity.
Qed.

Lemma center_map_returns seg offset value nibble :
  raised (center_map (ungapped seg) (Kwargs (OffsetInt <$> offset) value (Some nibble)))
  = false.
Proof.
  unfold center_map; cbn.
  destruct (Z.leb_spec (seg_len seg) (2 * nibble)) as [|Hlt]; [reflexivity|].
  assert (Hnz : forall o,
             (seg_len (Segment (chrom seg) (start seg + nibble + o)
                               (end_ seg - nibble + o) (strand seg)) =? 0)
             = false).
  { intros o. apply Z.eqb_neq. unfold seg_len in *; cbn. lia. }
  destruct offset as [o|]; cbn; rewrite Hnz; reflexivity.
Qed.

(** C6, as the code has it. [five_prime_map] and [three_prime_map] return
    their list of pairs whichever of [offset] and [value] is omitted, an
    omitted one standing for [0] and [1.0]. [variable_five_prime_map] needs
    its dictionary of offsets; given it, it returns with [value] omitted as
    with [value=1.0]. [center_map], given [nibble], returns on an ungapped
    alignment with [offset] and [value] omitted as with [0] and [1.0]. *)
Theorem mapping_functions_defaults feature seg d nibble' :
  (forall offset value nibble,
      raised (five_prime_map feature (Kwargs (OffsetInt <$> offset) value nibble))
      = false /\
      raised (three_prime_map feature (Kwargs (OffsetInt <$> offset) value nibble))
      = false) /\
  (forall nibble,
      five_prime_map feature (Kwargs None None nibble) =
      five_prime_map feature (Kwargs (Some (OffsetInt 0)) (Some 1%float) nibble) /\
      three_prime_map feature (Kwargs None None nibble) =
      three_prime_map feature (Kwargs (Some (OffsetInt 0)) (Some 1%float) nibble)) /\
  (forall value nibble,
      raised (variable_five_prime_map feature
                (Kwargs (Some (OffsetDict d)) value nibble)) = false) /\
  (forall nibble,
      variable_five_prime_map feature (Kwargs (Some (OffsetDict d)) None nibble) =
      variable_five_prime_map feature
        (Kwargs (Some (OffsetDict d)) (Some 1%float) nibble)) /\
  (forall offset value,
      raised (center_map (ungapped seg)
                (Kwargs (OffsetInt <$> offset) value (Some nibble'))) = false) /\
  center_map (ungapped seg) (Kwargs None None (Some nibble')) =
  center_map (ungapped seg) (Kwargs (Some (OffsetInt 0)) (Some 1%float) (Some nibble')).
Proof.
  repeat split.
  - apply five_prime_map_returns.
  - apply three_prime_map_returns.
  - apply variable_five_prime_map_returns.
  - intros. apply center_map_returns.
Qed.

(** C6, as stated, fails: without [offset], [variable_five_prime_map] raises
    [KeyError]. *)
Lemma variable_five_prime_map_needs_offset :
  result (variable_five_prime_map (ungapped (Segment "chrI" 50 70 Plus)) no_kwargs)
  = inl KeyError.
Proof. reflexivity. Qed.

(** [center_map] reads [kwargs["nibble"]] unguarded. *)
Lemma center_map_needs_nibble feature offset value :
  center_map feature (Kwargs offset value None) = raise KeyError.
Proof. reflexivity. Qed.

(** *** Variable offsets *)

Lemma lookup_offset_None d n :
  lookup_offset d n = None <-> d !! LengthKey n = None /\ d !! DefaultKey = None.
Proof.
  unfold lookup_offset. destruct (d !! LengthKey n) as [o|].
  - split; [discriminate|]. intros [? _]; discriminate.
  - split; [intros ->; split; reflexivity|]. intros [_ ?]; assumption.
Qed.

(** C7. [variable_five_prime_map] returns the empty list exactly when the
    dictionary of offsets has neither the alignment's length nor ["default"],
    and then warns that there is no offset; with an offset at or beyond the
    read length it warns and still returns the one-position segment at that
    offset. *)
Theorem variable_five_prime_map_policy feature d value nibble :
  let kw := Kwargs (Some (OffsetDict d)) value nibble in
  let span := spanning_segment feature in
  let call := variable_five_prime_map feature kw in
  (result call = inr [] <->
   d !! LengthKey (seg_len span) = None /\ d !! DefaultKey = None) /\
  (result call = inr [] ->
   warnings call = [Warning DataWarning (NoOffsetForLength (feature_length feature))]) /\
  (forall offset,
      lookup_offset d (seg_len span) = Some offset ->
      feature_length feature <= offset ->
      call = Outcome [Warning UserWarning
                        (OffsetLongerThanRead offset (feature_length feature))]
                     (inr [(site span (five_prime_site span offset),
                            value_or_1 kw)])).
Proof.
  intros kw span call. subst kw span call.
  unfold variable_five_prime_map; cbn.
  rewrite <- lookup_offset_None.
  destruct (lookup_offset d (seg_len (spanning_segment feature))) as [o|] eqn:Ho.
  - assert (Hne : forall ws, result
             (obind (fun _ : unit =>
                returns [(Segment (chrom (spanning_segment feature))
                   match strand (spanning_segment feature) with
                   | Minus => end_ (spanning_segment feature) - 1 - o
                   | _ => start (spanning_segment feature) + o
                   end
                   (match strand (spanning_segment feature) with
                    | Minus => end_ (spanning_segment feature) - 1 - o
                    | _ => start (spanning_segment feature) + o
                    end + 1) (strand (spanning_segment feature)),
                   value_or_1 (Kwargs (Some (OffsetDict d)) value nibble))])
                ws) <> inr []).
    { intros [w [e|[]]]; cbn; discriminate. }
    split; [split; [intros H; exfalso; eapply Hne; exact H | discriminate]|].
    split; [intros H; exfalso; eapply Hne; exact H|].
    intros offset [= <-] Hle.
    destruct (Z.leb_spec (feature_length feature) o); [|lia].
    unfold site, five_prime_site.
    destruct (strand (spanning_segment feature)); reflexivity.
  - split; [split; [reflexivity|reflexivity]|].
    split; [reflexivity|discriminate].
Qed.

Lemma variable_five_prime_map_policy_witness :
  variable_five_prime_map (ungapped (Segment "chrI" 50 70 Minus))
    (Kwargs (Some (OffsetDict {[ LengthKey 20 := 25 ]})) None None)
  = Outcome [Warning UserWarning (OffsetLongerThanRead 25 20)]
            (inr [(Segment "chrI" 44 45 Minus, 1%float)]).
Proof.
  apply (proj2 (proj2 (variable_five_prime_map_policy
                         (ungapped (Segment "chrI" 50 70 Minus))
                         {[ LengthKey 20 := 25 ]} None None)) 25).
  - vm_compute. reflexivity.
  - vm_compute. discriminate.
Defined.

End Mapping.

(** * Calls that return *)

Lemma outcome_eta {A} (r : outcome A) : Outcome (warnings r) (result r) = r.
Proof. destruct r; reflexivity. Qed.

Lemma obind_returns {A B} (f : A -> outcome B) a : obind f (returns a) = f a.
Proof. unfold obind; cbn. apply outcome_eta. Qed.

Lemma obind_ok {A B} (f : A -> outcome B) a : obind f (Outcome [] (inr a)) = f a.
Proof. exact (obind_returns f a). Qed.

Lemma obind_raise {A B} (f : A -> outcome B) e : obind f (raise e) = raise e.
Proof. reflexivity. Qed.

Lemma run_bind {S A B} (c : State S A) (k : A -> State S B) s :
  (c ≫= k) s = obind (fun '(a, s') => k a s') (c s).
Proof. reflexivity. Qed.

Lemma run_ret {S A} (a : A) (s : S) : (mret a : State S A) s = returns (a, s).
Proof. reflexivity. Qed.

Lemma run_get {S} (s : S) : get_state s = returns (s, s).
Proof. reflexivity. Qed.

Lemma run_put {S} (s s' : S) : put_state s' s = returns (tt, s').
Proof. reflexivity. Qed.

Lemma run_lift {S A} (c : outcome A) (s : S) :
  lift c s = obind (fun a => returns (a, s)) c.
Proof. reflexivity. Qed.

Lemma run_set_normalize b ga :
  set_normalize b ga = returns (tt, with_normalize b ga).
Proof. reflexivity. Qed.

Lemma slice_bound_id n i : 0 <= i <= n -> slice_bound n i = i.
Proof.
  intros [H0 Hn]. unfold slice_bound.
  destruct (Z.ltb_spec i 0); lia.
Qed.

Lemma slice_inside {A} (buf : list A) lo hi :
  0 <= lo <= hi -> hi <= len buf ->
  slice buf lo hi = take (Z.to_nat (hi - lo)) (drop (Z.to_nat lo) buf).
Proof.
  intros Hlo Hhi. unfold slice.
  rewrite !slice_bound_id by lia. reflexivity.
Qed.

Lemma broadcast_length k val new : broadcast k val = Some new -> length new = k.
Proof.
  destruct val as [x|v]; cbn.
  - intros [= <-]. apply length_replicate.
  - destruct v as [|x [|y v]]; cbn.
    + destruct (decide (0%nat = k)); [intros [= <-]; cbn; lia|discriminate].
    + intros [= <-]. apply length_replicate.
    + destruct (decide (S (S (length v)) = k)); [intros [= <-]; cbn; lia|discriminate].
Qed.

Lemma broadcast_vector k v : length v = k -> broadcast k (Vector v) = Some v.
Proof.
  intros <-. destruct v as [|x [|y v]]; cbn; try reflexivity.
  - destruct (decide (S (S (length v)) = S (S (length v)))); [reflexivity|congruence].
Qed.

Lemma set_slice_inside buf lo hi val new :
  0 <= lo <= hi -> hi <= len buf ->
  broadcast (Z.to_nat (hi - lo)) val = Some new ->
  set_slice buf lo hi val =
  returns (take (Z.to_nat lo) buf ++ new ++ drop (Z.to_nat hi) buf).
Proof.
  intros Hlo Hhi Hb. unfold set_slice.
  rewrite !slice_bound_id by lia.
  replace (Z.to_nat hi - Z.to_nat lo)%nat with (Z.to_nat (hi - lo)) by lia.
  rewrite Hb.
  replace (Z.to_nat lo + Z.to_nat (hi - lo))%nat with (Z.to_nat hi) by lia.
  reflexivity.
Qed.

Lemma slice_of_set_slice (buf new : list float) lo hi :
  0 <= lo <= hi -> hi <= len buf -> length new = Z.to_nat (hi - lo) ->
  slice (take (Z.to_nat lo) buf ++ new ++ drop (Z.to_nat hi) buf) lo hi = new.
Proof.
  intros Hlo Hhi Hn. unfold len in *.
  assert (Hlen : length (take (Z.to_nat lo) buf) = Z.to_nat lo).
  { rewrite length_take. lia. }
  rewrite slice_inside.
  - rewrite drop_app_length' by (symmetry; exact Hlen).
    rewrite take_app_length' by lia. reflexivity.
  - lia.
  - unfold len. rewrite !length_app, Hlen, Hn, length_drop. lia.
Qed.

Lemma len_set_slice (buf new : list float) lo hi :
  0 <= lo <= hi -> hi <= len buf -> length new = Z.to_nat (hi - lo) ->
  len (take (Z.to_nat lo) buf ++ new ++ drop (Z.to_nat hi) buf) = len buf.
Proof.
  intros Hlo Hhi Hn. unfold len in *.
  rewrite !length_app, length_take, Hn, length_drop. lia.
Qed.

Lemma run_lift_bind {S A B} (c : outcome A) (k : A -> State S B) s :
  (lift c ≫= k) s = obind (fun a => k a s) c.
Proof.
  rewrite run_bind, run_lift. destruct c as [w [e|a]]; [reflexivity|].
  unfold obind; cbn [result warnings returns].
  rewrite app_nil_r. reflexivity.
Qed.

Lemma obind_inv {A B} (f : A -> outcome B) c w b :
  obind f c = Outcome w (inr b) ->
  exists w1 a w2, c = Outcome w1 (inr a) /\ f a = Outcome w2 (inr b) /\ w = w1 ++ w2.
Proof.
  destruct c as [w1 [e|a]]; unfold obind; cbn [result warnings]; [discriminate|].
  destruct (f a) as [w2 r] eqn:Hf. cbn [result warnings].
  intros [= <- ->]. eauto 6.
Qed.

Lemma obind_assoc {A B C} (f : A -> outcome B) (g : B -> outcome C) c :
  obind g (obind f c) = obind (fun a => obind g (f a)) c.
Proof.
  destruct c as [w [e|a]]; [reflexivity|].
  unfold obind; cbn [result warnings].
  destruct (f a) as [w' [e|b]]; cbn [result warnings]; [reflexivity|].
  rewrite app_assoc. reflexivity.
Qed.

Lemma obind_ext {A B} (f g : A -> outcome B) c :
  (forall a, f a = g a) -> obind f c = obind g c.
Proof.
  intros Hfg. destruct c as [w [e|a]]; [reflexivity|].
  unfold obind; cbn [result warnings]. rewrite Hfg. reflexivity.
Qed.

Lemma obind_run {A B} (f : A -> outcome B) w1 a w2 b :
  f a = Outcome w2 (inr b) ->
  obind f (Outcome w1 (inr a)) = Outcome (w1 ++ w2) (inr b).
Proof. intros Hf. unfold obind; cbn [result warnings]. rewrite Hf. reflexivity. Qed.

Lemma fold_each_inv {S A B} (I : B -> S -> Prop) (body : B -> A -> State S B) xs :
  (forall x acc s w acc' s',
      x ∈ xs -> I acc s -> body acc x s = Outcome w (inr (acc', s')) -> I acc' s') ->
  forall acc s w acc' s',
    I acc s -> fold_each xs acc body s = Outcome w (inr (acc', s')) -> I acc' s'.
Proof.
  induction xs as [|x xs IH]; intros Hbody acc s w acc' s' HI Hrun.
  - cbn in Hrun. injection Hrun as _ <- <-. exact HI.
  - cbn [fold_each] in Hrun. rewrite run_bind in Hrun.
    apply obind_inv in Hrun as (w1 & [acc1 s1] & w2 & Hb & Hrest & ->).
    apply (IH (fun y acc0 s0 w0 acc0' s0' Hy => Hbody y acc0 s0 w0 acc0' s0'
                 (list_elem_of_further _ _ _ Hy))
              acc1 s1 w2 acc' s'); [|exact Hrest].
    apply (Hbody x acc s w1 acc1 s1); [left|exact HI|exact Hb].
Qed.

Lemma xrange_bounds stop step x :
  0 < step -> x ∈ xrange stop step -> 0 <= x < stop.
Proof.
  intros Hstep Hx. unfold xrange in Hx.
  apply list_elem_of_fmap in Hx as (k & -> & Hk).
  apply elem_of_seqZ in Hk.
  pose proof (Z.mul_div_le (stop + step - 1) step Hstep). nia.
Qed.

Lemma answer_inv {A S} (o : outcome (A * S)) x :
  answer o = inr x -> exists w s, o = Outcome w (inr (x, s)).
Proof.
  destruct o as [w [e|[y s]]]; unfold answer; cbn [result]; [discriminate|].
  intros [= ->]. eauto.
Qed.

Lemma answer_returned {A S} w (x : A) (s : S) :
  answer (Outcome w (inr (x, s))) = inr x.
Proof. reflexivity. Qed.

Lemma run_bind_inv {S A B} (c : State S A) (k : A -> State S B) s w b s' :
  (c ≫= k) s = Outcome w (inr (b, s')) ->
  exists w1 a s1 w2,
    c s = Outcome w1 (inr (a, s1)) /\ k a s1 = Outcome w2 (inr (b, s')) /\
    w = w1 ++ w2.
Proof.
  rewrite run_bind. intros Hrun.
  apply obind_inv in Hrun as (w1 & [a s1] & w2 & Hc & Hk & ->). eauto 8.
Qed.

(** * Properties of the dense array *)

Section Dense.
Context `{NumpySum}.

Lemma buffer_found ga c s d buf :
  _chroms ga !! c = Some d -> d !! s = Some buf ->
  buffer c s ga = returns (buf, ga).
Proof. intros Hc Hs. unfold buffer. rewrite Hc, Hs. reflexivity. Qed.

Lemma make_room_fits ga c s e d buf :
  _chroms ga !! c = Some d -> d !! s = Some buf -> e < len buf ->
  make_room c s e ga = returns (tt, ga).
Proof.
  intros Hc Hs He. unfold make_room, try_except.
  rewrite run_bind, (buffer_found _ _ _ _ _ Hc Hs), obind_returns.
  destruct (Z.ltb_spec e (len buf)); [|lia]. reflexivity.
Qed.

Lemma getitem_fits ga roi order d buf :
  _normalize ga = false ->
  _chroms ga !! chrom roi = Some d -> d !! strand roi = Some buf ->
  end_ roi < len buf ->
  __getitem__ roi order ga =
  returns (if order && bool_decide (strand roi = Minus)
           then reverse (slice buf (start roi) (end_ roi))
           else slice buf (start roi) (end_ roi), ga).
Proof.
  intros Hn Hc Hs He. unfold __getitem__; cbv zeta.
  rewrite run_bind, (make_room_fits _ _ _ _ _ _ Hc Hs He), obind_returns.
  cbv beta iota.
  rewrite run_bind, (buffer_found _ _ _ _ _ Hc Hs), obind_returns.
  cbv beta iota.
  rewrite run_bind, run_get, obind_returns. cbv beta iota.
  rewrite Hn. reflexivity.
Qed.

Lemma store_buffer_found ga c s d new :
  _chroms ga !! c = Some d ->
  store_buffer c s new ga =
  returns (tt, with_chroms (<[c := <[s := new]> d]> (_chroms ga)) ga).
Proof. intros Hc. unfold store_buffer. rewrite Hc. reflexivity. Qed.



Lemma broadcast_reverse k val new :
  broadcast k val = Some new ->
  broadcast k (reverse_values val) = Some (reverse new).
Proof.
  destruct val as [x|v].
  - cbn. intros [= <-]. rewrite reverse_replicate. reflexivity.
  - intros Hb. pose proof (broadcast_length _ _ _ Hb) as Hl.
    destruct v as [|x [|y v]].
    + cbn in *. destruct (decide (0%nat = k)); [|discriminate].
      injection Hb as <-. reflexivity.
    + cbn in *. injection Hb as <-. rewrite reverse_replicate. reflexivity.
    + cbn in Hb. destruct (decide (S (S (length v)) = k)) as [Hk|]; [|discriminate].
      injection Hb as <-.
      apply broadcast_vector. rewrite length_reverse. exact Hk.
Qed.

Lemma zeros_nonneg n :
  0 <= n -> zeros (Some n) = returns (replicate (Z.to_nat n) 0%float).
Proof. intros Hn. unfold zeros. destruct (Z.ltb_spec n 0); [lia|reflexivity]. Qed.

Lemma fresh_strands_lookup l z : forall d s,
  s ∈ l \/ d !! s = Some z -> fresh_strands l z d !! s = Some z.
Proof.
  induction l as [|x l IH]; intros d s Hs; cbn.
  - destruct Hs as [Hs|Hs]; [inversion Hs|exact Hs].
  - apply IH. destruct (decide (x = s)) as [->|Hne].
    + right. apply lookup_insert_eq.
    + destruct Hs as [Hs|Hs].
      * apply elem_of_cons in Hs as [->|Hs]; [congruence|left; exact Hs].
      * right. rewrite lookup_insert_ne by exact Hne. exact Hs.
Qed.

Lemma allocate_strands c n l : forall ga d,
  0 <= n -> _chroms ga !! c = Some d ->
  for_each l (fun my_strand =>
                z ← lift (zeros (Some n)); store_buffer c my_strand z) ga =
  returns (tt, with_chroms
                 (<[c := fresh_strands l (replicate (Z.to_nat n) 0%float) d]>
                    (_chroms ga)) ga).
Proof.
  induction l as [|x l IH]; intros ga d Hn Hc.
  - cbn [for_each fresh_strands foldl]. rewrite run_ret.
    rewrite insert_id by exact Hc. destruct ga; reflexivity.
  - cbn [for_each]. rewrite run_bind, run_lift_bind.
    rewrite (zeros_nonneg n Hn) at 1. rewrite obind_returns.
    rewrite (store_buffer_found _ _ _ _ _ Hc), obind_returns; cbv beta iota.
    rewrite (IH _ (<[x := replicate (Z.to_nat n) 0%float]> d) Hn)
      by (cbn [with_chroms _chroms]; apply lookup_insert_eq).
    cbn [with_chroms _chroms _strands min_chr_size _sum _normalize].
    rewrite insert_insert_eq. reflexivity.
Qed.

Lemma allocate_new ga c s :
  _chroms ga !! c = None -> s ∈ strands ga -> 0 <= min_chr_size ga ->
  allocate c s ga = returns (tt, allocated ga c).
Proof.
  intros Hc Hs Hn. unfold allocate.
  rewrite run_bind, run_get, obind_returns; cbv beta iota.
  destruct (decide (s ∈ strands ga)) as [_|Hne]; [|contradiction].
  rewrite Hc. rewrite run_bind. unfold new_chrom at 1.
  rewrite obind_returns; cbv beta iota.
  rewrite (allocate_strands _ _ _ _ ∅ Hn)
    by (cbn [with_chroms _chroms]; apply lookup_insert_eq).
  cbn [with_chroms _chroms _strands min_chr_size _sum _normalize].
  rewrite insert_insert_eq. reflexivity.
Qed.

Lemma make_room_new ga c s e :
  _chroms ga !! c = None -> s ∈ strands ga -> 0 <= min_chr_size ga ->
  make_room c s e ga = returns (tt, allocated ga c).
Proof.
  intros Hc Hs Hn. unfold make_room, try_except.
  rewrite run_bind. unfold buffer at 1 2. rewrite Hc.
  rewrite obind_raise. cbn [result raise warnings app].
  rewrite (allocate_new _ _ _ Hc Hs Hn). reflexivity.
Qed.

Lemma setitem_with_room ga seg val order ga3 d buf new :
  make_room (chrom seg) (strand seg) (end_ seg)
            (with_normalize false (with_sum None ga)) = returns (tt, ga3) ->
  _chroms ga3 !! chrom seg = Some d -> d !! strand seg = Some buf ->
  0 <= start seg <= end_ seg -> end_ seg <= len buf ->
  broadcast (Z.to_nat (seg_len seg))
            (if bool_decide (strand seg = Minus) && order
             then reverse_values val else val) = Some new ->
  __setitem__ seg val order ga =
  Outcome (if _normalize ga then [Warning DataWarning NormalizationOff] else [])
          (inr (tt, with_normalize (_normalize ga)
                      (with_chroms
                         (<[chrom seg :=
                              <[strand seg :=
                                  take (Z.to_nat (start seg)) buf ++ new
                                    ++ drop (Z.to_nat (end_ seg)) buf]> d]>
                            (_chroms ga3)) ga3))).
Proof.
  intros Hroom Hc Hs Hse He Hb. unfold __setitem__; cbv zeta.
  rewrite run_bind, run_get, obind_returns; cbv beta iota.
  rewrite run_bind, run_put, obind_returns; cbv beta iota.
  rewrite run_bind.
  assert (Hw : (if _normalize ga then swarn DataWarning NormalizationOff else mret tt)
                 (with_sum None ga)
               = Outcome (if _normalize ga then [Warning DataWarning NormalizationOff] else [])
                         (inr (tt, with_sum None ga))).
  { destruct (_normalize ga); reflexivity. }
  rewrite Hw. clear Hw.
  unfold obind at 1. cbn [result warnings].
  rewrite run_bind, run_set_normalize, obind_returns; cbv beta iota.
  rewrite run_bind, Hroom, obind_returns; cbv beta iota.
  rewrite run_bind, (buffer_found _ _ _ _ _ Hc Hs), obind_returns; cbv beta iota.
  rewrite run_bind, run_lift.
  rewrite (set_slice_inside _ _ _ _ new) by (try lia; exact Hb).
  rewrite !obind_returns; cbv beta iota.
  rewrite run_bind, (store_buffer_found _ _ _ _ _ Hc), obind_returns; cbv beta iota.
  rewrite run_set_normalize. cbn [result warnings returns]. rewrite app_nil_r.
  reflexivity.
Qed.

Lemma set_then_get_with_room ga iv val ga3 d buf new :
  _normalize ga = false ->
  make_room (chrom iv) (strand iv) (end_ iv)
            (with_normalize false (with_sum None ga)) = returns (tt, ga3) ->
  _chroms ga3 !! chrom iv = Some d -> d !! strand iv = Some buf ->
  0 <= start iv <= end_ iv -> end_ iv < len buf ->
  broadcast (Z.to_nat (seg_len iv)) val = Some new ->
  answer ((__setitem__ iv val true ≫= fun _ => __getitem__ iv true) ga) = inr new.
Proof.
  intros Hn Hroom Hc Hs Hse He Hb.
  set (stored_as := if bool_decide (strand iv = Minus) && true
                    then reverse new else new).
  assert (Hb' : broadcast (Z.to_nat (seg_len iv))
                  (if bool_decide (strand iv = Minus) && true
                   then reverse_values val else val) = Some stored_as).
  { subst stored_as. destruct (bool_decide (strand iv = Minus)); cbn; [|exact Hb].
    apply broadcast_reverse, Hb. }
  assert (Hlen : length stored_as = Z.to_nat (end_ iv - start iv)).
  { apply (broadcast_length _ _ _ Hb'). }
  rewrite run_bind.
  rewrite (setitem_with_room _ _ _ _ _ _ _ stored_as Hroom Hc Hs Hse ltac:(lia) Hb'), Hn.
  cbv iota. rewrite obind_ok; cbv beta iota.
  set (buf' := take (Z.to_nat (start iv)) buf ++ stored_as
                 ++ drop (Z.to_nat (end_ iv)) buf).
  assert (Hlen' : len buf' = len buf).
  { apply len_set_slice; [lia|lia|exact Hlen]. }
  rewrite (getitem_fits _ _ _ (<[strand iv := buf']> d) buf').
  - unfold answer; cbn [result returns]. subst buf'.
    rewrite slice_of_set_slice; [|lia|lia|exact Hlen].
    subst stored_as.
    destruct (bool_decide (strand iv = Minus)); cbn [andb];
      [rewrite reverse_involutive|]; reflexivity.
  - reflexivity.
  - cbn [with_normalize with_chroms _chroms]. apply lookup_insert_eq.
  - apply lookup_insert_eq.
  - rewrite Hlen'. exact He.
Qed.

Lemma set_then_get_within ga iv val new :
  _normalize ga = false -> 0 <= start iv <= end_ iv -> within_buffer ga iv ->
  broadcast (Z.to_nat (seg_len iv)) val = Some new ->
  answer ((__setitem__ iv val true ≫= fun _ => __getitem__ iv true) ga) = inr new.
Proof.
  intros Hn Hse [(d & buf & Hc & Hs & He)|(Hc & Hs & He)] Hb.
  - apply (set_then_get_with_room ga iv val
             (with_normalize false (with_sum None ga)) d buf new Hn);
      try assumption.
    apply (make_room_fits _ _ _ _ d buf); assumption.
  - set (ga2 := with_normalize false (with_sum None ga)).
    assert (Hs2 : strand iv ∈ strands ga2) by exact Hs.
    apply (set_then_get_with_room ga iv val (allocated ga2 (chrom iv))
             (fresh_strands (strands ga2)
                (replicate (Z.to_nat (min_chr_size ga2)) 0%float) ∅)
             (replicate (Z.to_nat (min_chr_size ga2)) 0%float) new Hn);
      try assumption.
    + apply make_room_new; [exact Hc|exact Hs2|cbn; lia].
    + cbn [allocated with_chroms _chroms]. apply lookup_insert_eq.
    + apply fresh_strands_lookup. left. exact Hs2.
    + unfold len. rewrite length_replicate. cbn. lia.
Qed.

Lemma stored_found ga c s d buf p :
  _chroms ga !! c = Some d -> d !! s = Some buf -> 0 <= p ->
  stored ga c s p = buf !! Z.to_nat p.
Proof.
  intros Hc Hs Hp. unfold stored. rewrite Hc; cbn. rewrite Hs; cbn.
  destruct (Z.ltb_spec p 0); [lia|reflexivity].
Qed.

Lemma slice_lookup {A} (buf : list A) lo hi i :
  0 <= lo <= hi -> hi <= len buf -> 0 <= i < hi - lo ->
  slice buf lo hi !! Z.to_nat i = buf !! Z.to_nat (lo + i).
Proof.
  intros Hlo Hhi Hi. rewrite slice_inside by assumption.
  rewrite lookup_take_lt by lia. rewrite lookup_drop. f_equal. lia.
Qed.

Lemma slice_length {A} (buf : list A) lo hi :
  0 <= lo <= hi -> hi <= len buf -> len (slice buf lo hi) = hi - lo.
Proof.
  intros Hlo Hhi. rewrite slice_inside by assumption. unfold len in *.
  rewrite length_take, length_drop. lia.
Qed.

Lemma getitem_positions ga iv d buf :
  _normalize ga = false ->
  _chroms ga !! chrom iv = Some d -> d !! strand iv = Some buf ->
  0 <= start iv <= end_ iv -> end_ iv < len buf ->
  exists vals,
    __getitem__ iv true ga = returns (vals, ga) /\
    len vals = seg_len iv /\
    forall i, 0 <= i < seg_len iv ->
      vals !! Z.to_nat i =
      stored ga (chrom iv) (strand iv)
             (if bool_decide (strand iv = Minus) then end_ iv - 1 - i
              else start iv + i).
Proof.
  intros Hn Hc Hs Hse He.
  rewrite (getitem_fits _ _ _ _ _ Hn Hc Hs He). cbn [andb].
  pose proof (slice_length buf (start iv) (end_ iv) Hse ltac:(lia)) as Hl.
  eexists; split; [reflexivity|]. unfold seg_len.
  destruct (bool_decide (strand iv = Minus)).
  - split; [unfold len in *; rewrite length_reverse; exact Hl|].
    intros i Hi. rewrite (stored_found _ _ _ _ _ _ Hc Hs) by lia.
    rewrite reverse_lookup by (unfold len in Hl; lia).
    replace (length (slice buf (start iv) (end_ iv)) - S (Z.to_nat i))%nat
      with (Z.to_nat (end_ iv - start iv - 1 - i)) by (unfold len in Hl; lia).
    rewrite slice_lookup by lia. f_equal. lia.
  - split; [exact Hl|].
    intros i Hi. rewrite (stored_found _ _ _ _ _ _ Hc Hs) by lia.
    apply slice_lookup; lia.
Qed.


Lemma buffer_spec ga c s :
  buffer c s ga = match _chroms ga !! c ≫= (.!! s) with
                  | Some buf => returns (buf, ga)
                  | None => raise KeyError
                  end.
Proof.
  unfold buffer. destruct (_chroms ga !! c) as [d|]; cbn; [|reflexivity].
  destruct (d !! s); reflexivity.
Qed.

Lemma mapM_buffer ga l :
  mapM (fun '(c, s) => buffer c s) l ga =
  match lookups (_chroms ga) l with
  | Some bufs => returns (bufs, ga)
  | None => raise KeyError
  end.
Proof.
  induction l as [|[c s] l IH]; [reflexivity|].
  cbn [mapM lookups]. rewrite run_bind, buffer_spec.
  destruct (_chroms ga !! c ≫= (.!! s)) as [buf|]; [|reflexivity].
  rewrite obind_returns; cbv beta iota.
  rewrite run_bind, IH.
  destruct (lookups (_chroms ga) l) as [bufs|]; [|reflexivity].
  rewrite obind_returns. reflexivity.
Qed.


Lemma iterchroms_spec ga :
  iterchroms ga = match yielded ga with
                  | Some bufs => returns (bufs, ga)
                  | None => raise KeyError
                  end.
Proof.
  unfold iterchroms. rewrite run_bind, run_get, obind_returns; cbv beta iota.
  apply mapM_buffer.
Qed.

Lemma sum_spec ga :
  sum ga =
  match _sum ga with
  | Some s => returns (s, ga)
  | None =>
    match yielded ga with
    | Some bufs =>
      returns (py_sum (np_sum <$> bufs),
               with_sum (Some (py_sum (np_sum <$> bufs))) ga)
    | None => raise KeyError
    end
  end.
Proof.
  unfold sum. rewrite run_bind, run_get, obind_returns; cbv beta iota.
  destruct (_sum ga) as [s|] eqn:Hs.
  - rewrite run_bind, run_ret, obind_returns; cbv beta iota.
    rewrite run_bind, run_get, obind_returns; cbv beta iota.
    rewrite Hs. reflexivity.
  - rewrite run_bind. unfold reset_sum.
    rewrite run_bind, iterchroms_spec.
    destruct (yielded ga) as [bufs|]; [|reflexivity].
    rewrite obind_returns; cbv beta iota.
    rewrite run_bind, run_get, obind_returns; cbv beta iota.
    rewrite run_put, obind_returns; cbv beta iota.
    rewrite run_bind, run_get, obind_returns; cbv beta iota.
    reflexivity.
Qed.

(** C1. Writing then reading one segment gives back what was written, on
    either strand, for a vector of the segment's length ordered 5' to 3' and
    for a scalar, with normalization off and no growth: the segment lies
    within its buffer, or within the buffer allocated for a chromosome that
    the array meets for the first time. What is read at index [i] is the
    value stored at the [i]-th position from the segment's 5' end: for a
    minus-strand segment covering [100,105), index 0 is genome position 104
    and index 4 is position 100. *)
Theorem set_get_roundtrip ga iv :
  _normalize ga = false -> 0 <= start iv <= end_ iv ->
  (within_buffer ga iv ->
   (forall v, len v = seg_len iv ->
      answer ((__setitem__ iv (Vector v) true ≫= fun _ => __getitem__ iv true) ga)
      = inr v) /\
   (forall x,
      answer ((__setitem__ iv (Scalar x) true ≫= fun _ => __getitem__ iv true) ga)
      = inr (replicate (Z.to_nat (seg_len iv)) x))) /\
  (forall d buf,
     _chroms ga !! chrom iv = Some d -> d !! strand iv = Some buf ->
     end_ iv < len buf ->
     exists vals,
       answer (__getitem__ iv true ga) = inr vals /\
       len vals = seg_len iv /\
       (forall i, 0 <= i < seg_len iv ->
          vals !! Z.to_nat i =
          stored ga (chrom iv) (strand iv)
                 (if bool_decide (strand iv = Minus) then end_ iv - 1 - i
                  else start iv + i)) /\
       (strand iv = Minus -> start iv = 100 -> end_ iv = 105 ->
        vals !! 0%nat = stored ga (chrom iv) Minus 104 /\
        vals !! 4%nat = stored ga (chrom iv) Minus 100)).
Proof.
  intros Hn Hse. split.
  - intros Hfit. split.
    + intros v Hv. apply (set_then_get_within ga iv); try assumption.
      apply broadcast_vector. unfold len in Hv. lia.
    + intros x. apply (set_then_get_within ga iv); try assumption. reflexivity.
  - intros d buf Hc Hs He.
    destruct (getitem_positions ga iv d buf Hn Hc Hs Hse He) as (vals & Hg & Hl & Hp).
    exists vals. rewrite Hg. split; [reflexivity|]. split; [exact Hl|].
    split; [exact Hp|].
    intros Hm H100 H105. unfold seg_len in Hp. rewrite Hm, H100, H105 in Hp.
    split; [exact (Hp 0 ltac:(lia))|exact (Hp 4 ltac:(lia))].
Qed.

(** C3. Normalization is applied when reading only. Toggling it changes the
    flag and no stored value; [sum()] answers the same whatever the flag,
    and with no cached sum it is the total of the raw buffers; with the sum
    at 2,000,000 and normalization on, a position holding 4 reads as 2.0,
    and the read leaves the stored values as they were. *)
Theorem normalization_is_a_view ga :
  (forall b, final (set_normalize b ga) = Some (with_normalize b ga)) /\
  (forall b, _chroms (with_normalize b ga) = _chroms ga) /\
  (forall b, answer (sum (with_normalize b ga)) = answer (sum ga)) /\
  (forall b, _sum ga = None ->
     answer (sum (with_normalize b ga)) =
     match yielded ga with
     | Some bufs => inr (py_sum (np_sum <$> bufs))
     | None => inl KeyError
     end) /\
  (forall c s d buf p,
     answer (sum ga) = inr 2000000%float ->
     _chroms ga !! c = Some d -> d !! s = Some buf ->
     0 <= p -> p + 1 < len buf ->
     buf !! Z.to_nat p = Some 4%float ->
     let call := __getitem__ (Segment c p (p + 1) s) true (with_normalize true ga) in
     answer call = inr [2%float] /\
     (_chroms <$> final call) = Some (_chroms ga)).
Proof.
  assert (Hsum : forall b, answer (sum (with_normalize b ga)) = answer (sum ga)).
  { intros b. rewrite !sum_spec. cbn [with_normalize _sum].
    destruct (_sum ga); [reflexivity|].
    change (yielded (with_normalize b ga)) with (yielded ga).
    destruct (yielded ga); reflexivity. }
  split; [reflexivity|]. split; [reflexivity|]. split; [exact Hsum|].
  split.
  - intros b Hnone. rewrite Hsum, sum_spec, Hnone.
    destruct (yielded ga); reflexivity.
  - intros c s d buf p Hs2 Hc Hs Hp Hlen Hbuf call. subst call.
    set (ga' := with_normalize true ga).
    assert (Hsum' : exists ga'', sum ga' = returns (2000000%float, ga'')
                                 /\ _chroms ga'' = _chroms ga).
    { specialize (Hsum true). rewrite Hs2 in Hsum. fold ga' in Hsum.
      rewrite sum_spec in Hsum |- *.
      destruct (_sum ga') as [x|].
      - injection Hsum as ->. eexists; split; reflexivity.
      - destruct (yielded ga') as [bufs|]; [|discriminate].
        injection Hsum as ->. eexists; split; reflexivity. }
    destruct Hsum' as (ga'' & Hsum' & Hch).
    unfold __getitem__; cbv zeta. cbn [chrom strand start end_].
    assert (Hc' : _chroms ga' !! c = Some d) by exact Hc.
    rewrite run_bind, (make_room_fits _ _ _ _ _ _ Hc' Hs Hlen), obind_returns.
    cbv beta iota.
    rewrite run_bind, (buffer_found _ _ _ _ _ Hc' Hs), obind_returns.
    cbv beta iota.
    rewrite run_bind, run_get, obind_returns. cbv beta iota.
    cbn [ga' with_normalize _normalize].
    rewrite run_bind, run_bind. fold ga'. rewrite Hsum', obind_returns.
    cbv beta iota. rewrite run_ret, obind_returns. cbv beta iota.
    rewrite run_ret.
    assert (Hslice : slice buf p (p + 1) = [4%float]).
    { rewrite slice_inside by lia.
      replace (Z.to_nat (p + 1 - p)) with 1%nat by lia.
      rewrite (drop_S _ _ _ Hbuf). reflexivity. }
    rewrite Hslice. unfold answer, final; cbn [result returns fmap option_fmap option_map].
    split.
    + destruct (true && bool_decide (s = Minus)); reflexivity.
    + rewrite Hch. reflexivity.
Qed.
End Dense.

#[local] Existing Instance seq_sum.

Lemma set_get_roundtrip_witness :
  answer ((__setitem__ (Segment "chrI" 100 105 Minus)
                       (Vector [1; 2; 3; 4; 5]%float) true
           ≫= fun _ => __getitem__ (Segment "chrI" 100 105 Minus) true)
          (dense [("chrI"%string, replicate 200 0%float)]))
  = inr [1; 2; 3; 4; 5]%float /\
  answer ((__setitem__ (Segment "chrII" 100 105 Minus)
                       (Vector [1; 2; 3; 4; 5]%float) true
           ≫= fun _ => __getitem__ (Segment "chrII" 100 105 Minus) true)
          (dense []))
  = inr [1; 2; 3; 4; 5]%float.
Proof.
  split.
  - refine (proj1 (proj1 (set_get_roundtrip
                            (dense [("chrI"%string, replicate 200 0%float)])
                            (Segment "chrI" 100 105 Minus) _ _) _) _ _).
    + reflexivity.
    + cbn. lia.
    + left. exists {[ Plus := replicate 200 0%float; Minus := replicate 200 0%float ]},
                   (replicate 200 0%float).
      split; [vm_compute; reflexivity|]. split; [vm_compute; reflexivity|].
      vm_compute. reflexivity.
    + vm_compute. reflexivity.
  - refine (proj1 (proj1 (set_get_roundtrip (dense [])
                            (Segment "chrII" 100 105 Minus) _ _) _) _ _).
    + reflexivity.
    + cbn. lia.
    + right. split; [vm_compute; reflexivity|]. split; [|vm_compute; reflexivity].
      cbn. apply list_elem_of_further, list_elem_of_here.
    + vm_compute. reflexivity.
Defined.

Lemma normalization_is_a_view_witness :
  answer (__getitem__ (Segment "chrI" 1 2 Plus) true
            (with_normalize true
               (with_sum (Some 2000000%float)
                  (dense [("chrI"%string, [0; 4; 0; 0]%float)]))))
  = inr [2%float].
Proof.
  refine (proj1 (proj2 (proj2 (proj2 (proj2 (normalization_is_a_view
            (with_sum (Some 2000000%float)
               (dense [("chrI"%string, [0; 4; 0; 0]%float)])))))) "chrI"%string Plus
            {[ Plus := [0; 4; 0; 0]%float; Minus := [0; 4; 0; 0]%float ]}
            [0; 4; 0; 0]%float 1 _ _ _ _ _ _)).
  - vm_compute. reflexivity.
  - vm_compute. reflexivity.
  - vm_compute. reflexivity.
  - lia.
  - vm_compute. reflexivity.
  - reflexivity.
Defined.

(** * Equality of floats *)

Lemma SFeqb_true a b :
  SFeqb a b = true ->
  (exists s t, a = S754_zero s /\ b = S754_zero t) \/ a = b.
Proof.
  unfold SFeqb, SFcompare.
  destruct a as [s|s| |s m e], b as [t|t| |t m' e'];
    intros H; try discriminate H;
    try (left; eauto; fail);
    try (destruct s; discriminate H);
    try (destruct t; discriminate H).
  - destruct s, t; try discriminate H; right; reflexivity.
  - right.
    assert (He : e = e').
    { destruct s, t; try discriminate H;
        destruct (Z.compare_spec e e'); try discriminate H; assumption. }
    subst e'. rewrite Z.compare_refl in H.
    assert (Hm : m = m').
    { apply Pos.compare_eq. unfold Pos.compare.
      destruct s, t; try discriminate H;
        destruct (Pos.compare_cont Eq m m'); try discriminate H; reflexivity. }
    subst m'.
    destruct s, t; try discriminate H; reflexivity.
Qed.

Lemma SFeqb_zero_l s t c : SFeqb (S754_zero s) c = SFeqb (S754_zero t) c.
Proof. destruct c; reflexivity. Qed.

Lemma SFeqb_zero_r s t c : SFeqb c (S754_zero s) = SFeqb c (S754_zero t).
Proof. destruct c; reflexivity. Qed.

Lemma float_eqb_trans_l a b c :
  PrimFloat.eqb a b = true -> PrimFloat.eqb a c = PrimFloat.eqb b c.
Proof.
  rewrite !FloatAxioms.eqb_spec. intros Hab.
  destruct (SFeqb_true _ _ Hab) as [(s & t & -> & ->)| ->].
  - apply SFeqb_zero_l.
  - reflexivity.
Qed.

Lemma float_eqb_trans_r a b c :
  PrimFloat.eqb a b = true -> PrimFloat.eqb c a = PrimFloat.eqb c b.
Proof.
  rewrite !FloatAxioms.eqb_spec. intros Hab.
  destruct (SFeqb_true _ _ Hab) as [(s & t & -> & ->)| ->].
  - apply SFeqb_zero_r.
  - reflexivity.
Qed.

Lemma float_eqb_sym a b : PrimFloat.eqb a b = PrimFloat.eqb b a.
Proof.
  destruct (PrimFloat.eqb a b) eqn:Hab.
  - rewrite <- (float_eqb_trans_l _ _ a Hab). symmetry.
    rewrite (float_eqb_trans_r _ _ a Hab). exact Hab.
  - destruct (PrimFloat.eqb b a) eqn:Hba; [|reflexivity].
    rewrite <- (float_eqb_trans_l _ _ b Hba) in Hab.
    rewrite (float_eqb_trans_r _ _ b Hba) in Hab. congruence.
Qed.

(** * Run-length encoding *)

Section Runs.
Variables (chrom : string) (keep : float -> bool).
Variables (vals : list float) (base : Z).

Lemma at_position_Some p y :
  at_position vals base p = Some y -> base <= p < base + len vals.
Proof.
  unfold at_position. destruct (Z.ltb_spec p base); [discriminate|].
  intros Hl. apply lookup_lt_Some in Hl. unfold len. lia.
Qed.

Lemma rle_runs rest : forall x lv lx,
  open_run vals base x lv lx ->
  (forall j y, rest !! j = Some y -> at_position vals base (x + Z.of_nat j) = Some y) ->
  let '(lv', lx', out) := rle chrom keep lv lx x rest in
  open_run vals base (x + len rest) lv' lx' /\
  Forall (line_is chrom (fun s e v => keep v = true /\ maximal_run vals base s e v)) out.
Proof.
  induction rest as [|val rest IH]; intros x lv lx Hopen Hrest.
  - cbn. unfold len; cbn. rewrite Z.add_0_r. split; [exact Hopen|constructor].
  - assert (Hx : at_position vals base x = Some val).
    { specialize (Hrest 0%nat val eq_refl). rewrite Z.add_0_r in Hrest. exact Hrest. }
    assert (Hrest' : forall j y, rest !! j = Some y ->
                       at_position vals base (x + 1 + Z.of_nat j) = Some y).
    { intros j y Hj. specialize (Hrest (S j) y Hj).
      replace (x + 1 + Z.of_nat j) with (x + Z.of_nat (S j)) by lia. exact Hrest. }
    replace (x + len (val :: rest)) with (x + 1 + len rest)
      by (unfold len; cbn [length]; lia).
    destruct Hopen as (Hlx & Hstart & Hin & Hleft).
    cbn [rle]. destruct (PrimFloat.eqb val lv) eqn:Heq; cbn [negb].
    + apply IH; [|exact Hrest'].
      split; [lia|]. split; [exact Hstart|]. split; [|exact Hleft].
      intros q y Hq Hy. destruct (decide (q = x)) as [->|Hne].
      * rewrite Hx in Hy. injection Hy as <-. exact Heq.
      * apply (Hin q y); [lia|exact Hy].
    + assert (Hnew : open_run vals base (x + 1) val x).
      { split; [lia|]. split; [exact Hx|]. split.
        - intros q y Hq. lia.
        - intros y Hy. replace (x + 1 - 1) with x in Hy by lia.
          destruct (decide (x - 1 = lx)) as [He|Hne].
          + rewrite He, Hstart in Hy. injection Hy as <-.
            rewrite float_eqb_sym. exact Heq.
          + assert (Hy' : PrimFloat.eqb y lv = true) by (apply (Hin (x - 1) y); [lia|exact Hy]).
            rewrite (float_eqb_trans_l _ _ _ Hy'), float_eqb_sym. exact Heq. }
      specialize (IH (x + 1) val x Hnew Hrest').
      destruct (rle chrom keep val x (x + 1) rest) as [[lv' lx'] out].
      destruct IH as [IH1 IH2]. split; [exact IH1|].
      destruct (keep lv) eqn:Hk; [|exact IH2].
      cbn [app]. constructor; [|exact IH2].
      exists lx, x, lv. split; [reflexivity|]. split; [exact Hk|].
      pose proof (at_position_Some _ _ Hx) as Hbx.
      split; [lia|]. split; [lia|]. split; [exact Hstart|].
      split; [exact Hin|]. split; [exact Hleft|].
      intros y Hy. rewrite Hx in Hy. injection Hy as <-. exact Heq.
Qed.

(** The run still open when the loop ends at [stop] is a line too. *)
Lemma open_run_closed stop lv lx :
  open_run vals base stop lv lx -> stop <= base + len vals ->
  (forall y, at_position vals base stop = Some y -> PrimFloat.eqb y lv = false) ->
  maximal_run vals base lx stop lv.
Proof.
  intros (Hlx & Hstart & Hin & Hleft) Hstop Hright.
  split; [lia|]. split; [lia|]. split; [exact Hstart|].
  split; [exact Hin|]. split; [exact Hleft|exact Hright].
Qed.

End Runs.

(** * Loops and their invariants *)











Section Reads.
Context {read : Type} `{AlignedSegment read} `{NumpySum}.
Implicit Types (a : B.t read).

Lemma bam_sum_spec a :
  B.sum a = match B._sum a with
            | Some s => returns (s, a)
            | None => returns (total_mapped a, B.with_sum (Some (total_mapped a)) a)
            end.
Proof.
  unfold B.sum. rewrite run_bind, run_get, obind_returns; cbv beta iota.
  destruct (B._sum a) as [s|] eqn:Hs.
  - rewrite run_bind, run_ret, obind_returns; cbv beta iota.
    rewrite run_bind, run_get, obind_returns; cbv beta iota.
    rewrite Hs. reflexivity.
  - rewrite run_bind. unfold B.reset_sum.
    rewrite run_bind, run_get, obind_returns; cbv beta iota.
    rewrite run_put, obind_returns; cbv beta iota.
    rewrite run_bind, run_get, obind_returns; cbv beta iota.
    reflexivity.
Qed.

Lemma bam_sum_cache a a' :
  cache_of a a' ->
  exists s a'' a0, B.sum a' = returns (s, a'') /\ cache_of a a'' /\
                   B.sum a = returns (s, a0).
Proof.
  intros [->|[Hnone ->]].
  - rewrite bam_sum_spec. unfold cache_of. destruct (B._sum a) eqn:Hs; eauto 10.
  - rewrite !bam_sum_spec. cbn [B.with_sum B._sum]. rewrite Hnone.
    unfold cache_of. eauto 10.
Qed.

Lemma finish_spec roi roi_order a reads ca :
  ((if B._normalize a
    then s ← B.sum;
         mret ((fun c => PrimFloat.mul (PrimFloat.div c s) 1e6%float) <$> ca)
    else mret ca)
   ≫= fun count_array =>
        mret (reads, if roi_order && bool_decide (strand roi = Minus)
                     then reverse count_array else count_array)) a
  = finish roi roi_order a (reads, ca).
Proof.
  unfold finish. rewrite run_bind. destruct (B._normalize a).
  - rewrite run_bind, obind_assoc. apply obind_ext. intros [s a'].
    rewrite run_ret, obind_returns. reflexivity.
  - rewrite run_ret, obind_returns. reflexivity.
Qed.

Lemma get_reads_and_counts_spec roi roi_order a :
  B.get_reads_and_counts roi roi_order a =
  if negb (bool_decide (chrom roi ∈ B.chroms a))
  then obind (fun z => returns (([], z), a)) (zeros (Some (seg_len roi)))
  else obind (finish roi roi_order a) (mapped_counts roi a).
Proof.
  unfold B.get_reads_and_counts; cbv zeta.
  rewrite run_bind, run_get, obind_returns; cbv beta iota.
  destruct (negb (bool_decide (chrom roi ∈ B.chroms a))); cbv iota.
  - rewrite run_lift_bind. reflexivity.
  - rewrite run_lift_bind. unfold mapped_counts.
    rewrite obind_assoc. apply obind_ext. intros fetched.
    rewrite run_lift_bind. apply obind_ext. intros [reads ca].
    apply finish_spec.
Qed.

Lemma finish_cache roi roi_order a a' rc w x a'' :
  cache_of a a' ->
  finish roi roi_order a' rc = Outcome w (inr (x, a'')) ->
  cache_of a a'' /\
  exists a0, finish roi roi_order a rc = Outcome w (inr (x, a0)).
Proof.
  intros Hc. unfold finish. destruct rc as [reads ca].
  assert (Hn : B._normalize a' = B._normalize a).
  { destruct Hc as [->|[_ ->]]; reflexivity. }
  rewrite Hn. destruct (B._normalize a).
  - destruct (bam_sum_cache a a' Hc) as (s & a1 & a0 & -> & Hc1 & ->).
    rewrite !obind_returns. intros [= <- <- <-]. split; [exact Hc1|].
    exists a0. reflexivity.
  - intros [= <- <- <-]. split; [exact Hc|]. exists a. reflexivity.
Qed.

Lemma get_reads_and_counts_cache roi roi_order a a' w x a'' :
  cache_of a a' ->
  B.get_reads_and_counts roi roi_order a' = Outcome w (inr (x, a'')) ->
  cache_of a a'' /\
  exists a0, B.get_reads_and_counts roi roi_order a = Outcome w (inr (x, a0)).
Proof.
  intros Hc. rewrite !get_reads_and_counts_spec.
  assert (Hch : B.chroms a' = B.chroms a).
  { destruct Hc as [->|[_ ->]]; reflexivity. }
  assert (Hm : mapped_counts roi a' = mapped_counts roi a).
  { destruct Hc as [->|[_ ->]]; reflexivity. }
  rewrite Hch, Hm.
  destruct (negb (bool_decide (chrom roi ∈ B.chroms a))).
  - intros Hrun. apply obind_inv in Hrun as (w1 & z & w2 & -> & Hk & ->).
    injection Hk as <- <- <-. split; [exact Hc|]. exists a.
    apply obind_run. reflexivity.
  - intros Hrun. apply obind_inv in Hrun as (w1 & rc & w2 & -> & Hk & ->).
    destruct (finish_cache _ _ _ _ _ _ _ _ Hc Hk) as [Hc' [a0 Hf0]].
    split; [exact Hc'|]. exists a0. apply obind_run. exact Hf0.
Qed.

Lemma getitem_cache roi roi_order a a' w counts a'' :
  cache_of a a' ->
  B.__getitem__ roi roi_order a' = Outcome w (inr (counts, a'')) ->
  cache_of a a'' /\
  exists a0, B.__getitem__ roi roi_order a = Outcome w (inr (counts, a0)).
Proof.
  intros Hc. unfold B.__getitem__. rewrite !run_bind.
  intros Hrun. apply obind_inv in Hrun as (w1 & [[r c] a1] & w2 & Hg & Hk & ->).
  rewrite run_ret in Hk. injection Hk as <- <- <-.
  destruct (get_reads_and_counts_cache _ _ _ _ _ _ _ Hc Hg) as [Hc' [a0 Hg0]].
  split; [exact Hc'|]. exists a0. rewrite Hg0. apply obind_run. reflexivity.
Qed.

Lemma foldl_bedgraph_round chrom my_start vals : forall k lv lx out,
  foldl (B.bedgraph_round chrom my_start) (lv, lx, out)
        (zip (seqZ k (len vals)) vals) =
  let '(lv', lx', out') := rle chrom (PrimFloat.ltb 0%float) lv lx (1 + k + my_start) vals in
  (lv', lx', out ++ out').
Proof.
  induction vals as [|val vals IH]; intros k lv lx out.
  - cbn. rewrite app_nil_r. reflexivity.
  - rewrite seqZ_cons by (unfold len; cbn [length]; lia).
    replace (Z.pred (len (val :: vals))) with (len vals)
      by (unfold len; cbn [length]; lia).
    cbn [zip zip_with foldl rle]. unfold B.bedgraph_round at 2.
    destruct (PrimFloat.eqb val lv); cbn [negb].
    + rewrite IH. replace (1 + Z.succ k + my_start) with (1 + k + my_start + 1) by lia.
      reflexivity.
    + rewrite IH. replace (1 + Z.succ k + my_start) with (1 + k + my_start + 1) by lia.
      destruct (rle chrom (PrimFloat.ltb 0%float) val (1 + k + my_start)
                    (1 + k + my_start + 1) vals) as [[lv' lx'] out'].
      destruct (PrimFloat.ltb 0%float lv); rewrite <- ?app_assoc; reflexivity.
Qed.

Lemma window_lines chrom my_start my_end v0 rest out :
  let '(lv, lx, out') :=
    foldl (B.bedgraph_round chrom my_start) (v0, my_start, out) (B.enumerate rest) in
  exists added,
    (if PrimFloat.ltb 0%float lv
     then out' ++ [Data chrom lx my_end lv] else out')
    = out ++ added /\
    (my_end = my_start + len (v0 :: rest) ->
     Forall (positive_run (v0 :: rest) my_start chrom) added).
Proof.
  unfold B.enumerate. rewrite foldl_bedgraph_round.
  pose proof (rle_runs chrom (PrimFloat.ltb 0%float) (v0 :: rest) my_start rest
                (1 + 0 + my_start) v0 my_start) as Hr.
  destruct (rle chrom (PrimFloat.ltb 0%float) v0 my_start (1 + 0 + my_start) rest)
    as [[lv lx] out1].
  assert (Hat0 : at_position (v0 :: rest) my_start my_start = Some v0).
  { unfold at_position. destruct (Z.ltb_spec my_start my_start); [lia|].
    rewrite Z.sub_diag. reflexivity. }
  destruct Hr as [Hopen Hall].
  { split; [lia|]. split; [exact Hat0|]. split.
    - intros q y Hq. lia.
    - intros y. unfold at_position.
      destruct (Z.ltb_spec (my_start - 1) my_start); [discriminate|lia]. }
  { intros j y Hj. unfold at_position.
    destruct (Z.ltb_spec (1 + 0 + my_start + Z.of_nat j) my_start); [lia|].
    replace (Z.to_nat (1 + 0 + my_start + Z.of_nat j - my_start)) with (S j) by lia.
    exact Hj. }
  replace (1 + 0 + my_start + len rest) with (my_start + len (v0 :: rest)) in Hopen
    by (unfold len; cbn [length]; lia).
  destruct (PrimFloat.ltb 0%float lv) eqn:Hpos.
  - exists (out1 ++ [Data chrom lx my_end lv]).
    split; [rewrite app_assoc; reflexivity|]. intros ->.
    apply Forall_app. split; [exact Hall|]. constructor; [|constructor].
    exists lx, (my_start + len (v0 :: rest)), lv. split; [reflexivity|].
    split; [exact Hpos|].
    apply open_run_closed; [exact Hopen|lia|].
    intros y Hy. apply at_position_Some in Hy. lia.
  - exists out1. split; [reflexivity|]. intros _. exact Hall.
Qed.

Lemma bedgraph_window_spec chrom strand my_size window_size out my_start a w out' a' :
  B.bedgraph_window chrom strand my_size window_size out my_start a
  = Outcome w (inr (out', a')) ->
  let my_end := Z.min (my_start + window_size) my_size in
  exists counts added,
    B.__getitem__ (Segment chrom my_start my_end strand) false a
    = Outcome w (inr (counts, a')) /\
    out' = out ++ added /\
    (len counts = my_end - my_start ->
     Forall (positive_run counts my_start chrom) added).
Proof.
  unfold B.bedgraph_window; cbv zeta. rewrite run_bind. intros Hrun.
  apply obind_inv in Hrun as (w1 & [counts a1] & w2 & Hget & Hrest & ->).
  exists counts.
  destruct (PrimFloat.ltb 0%float (np_sum counts)).
  - rewrite run_lift_bind in Hrest.
    destruct counts as [|v0 rest]; [discriminate Hrest|].
    change (item (v0 :: rest) 0) with (returns v0) in Hrest.
    rewrite obind_returns in Hrest.
    change (drop 1 (v0 :: rest)) with rest in Hrest.
    pose proof (window_lines chrom my_start
                  (Z.min (my_start + window_size) my_size) v0 rest out) as Hl.
    destruct (foldl (B.bedgraph_round chrom my_start) (v0, my_start, out)
                    (B.enumerate rest)) as [[lv lx] out1].
    cbv beta iota in Hrest.
    rewrite run_ret in Hrest. injection Hrest as <- <- <-.
    destruct Hl as (added & Hadd & Hall).
    exists added. rewrite app_nil_r. split; [exact Hget|].
    split; [exact Hadd|].
    intros Hlen. apply Hall. lia.
  - rewrite run_ret in Hrest. injection Hrest as <- <- <-.
    exists []. rewrite !app_nil_r. split; [exact Hget|]. split; [reflexivity|constructor].
Qed.

Lemma finish_sized roi roi_order a reads ca w r c a0 :
  finish roi roi_order a (reads, ca) = Outcome w (inr ((r, c), a0)) ->
  len c = len ca.
Proof.
  unfold finish.
  assert (Hord : forall l : list float,
             len (if roi_order && bool_decide (strand roi = Minus)
                  then reverse l else l) = len l).
  { intros l. destruct (roi_order && bool_decide (strand roi = Minus));
      [unfold len; rewrite length_reverse|]; reflexivity. }
  destruct (B._normalize a).
  - intros Hrun. apply obind_inv in Hrun as (w1 & [s a1] & w2 & _ & Hk & _).
    injection Hk as _ _ <- _. rewrite Hord. unfold len. rewrite length_fmap.
    reflexivity.
  - intros [= _ _ <- _]. apply Hord.
Qed.

Lemma getitem_sized a roi roi_order w counts a0 :
  sized a -> start roi <= end_ roi ->
  B.__getitem__ roi roi_order a = Outcome w (inr (counts, a0)) ->
  len counts = seg_len roi.
Proof.
  intros Hsized Hroi. unfold B.__getitem__. rewrite run_bind. intros Hrun.
  apply obind_inv in Hrun as (w1 & [[r c] a1] & w2 & Hg & Hk & _).
  rewrite run_ret in Hk. injection Hk as _ <- _.
  rewrite get_reads_and_counts_spec in Hg.
  destruct (negb (bool_decide (chrom roi ∈ B.chroms a))).
  - apply obind_inv in Hg as (w3 & z & w4 & Hz & Hk & _).
    injection Hk as _ _ <- _. unfold zeros in Hz.
    destruct (Z.ltb_spec (seg_len roi) 0); [discriminate|].
    injection Hz as _ <-. unfold len. rewrite length_replicate. lia.
  - apply obind_inv in Hg as (w3 & [reads ca] & w4 & Hm & Hf & _).
    apply finish_sized in Hf. rewrite Hf.
    unfold mapped_counts in Hm.
    apply obind_inv in Hm as (w5 & fetched & w6 & _ & Hmap & _).
    cbv zeta in Hmap. apply (Hsized _ _ _ _ _ Hroi Hmap).
Qed.

Lemma bam_bedgraph_runs a trackname strand window_size kwargs lines :
  sized a ->
  answer (B.to_bedgraph trackname strand window_size kwargs a) = inr lines ->
  exists data,
    lines = Track trackname (sorted_items kwargs) :: data /\
    Forall (window_line a strand window_size) data.
Proof.
  intros Hsized Hans. apply answer_inv in Hans as (w & a' & Hrun).
  unfold B.to_bedgraph in Hrun.
  rewrite run_bind, run_get, obind_returns in Hrun; cbv beta iota in Hrun.
  destruct (negb (bool_decide (strand ∈ B.strands a))); [discriminate Hrun|].
  destruct (Z.ltb_spec 0 window_size) as [Hws|]; [|discriminate Hrun].
  cbn [negb] in Hrun. cbv zeta in Hrun.
  set (I := fun (out : list line) (s : B.t read) =>
              cache_of a s /\
              exists data, out = Track trackname (sorted_items kwargs) :: data /\
                           Forall (window_line a strand window_size) data).
  assert (HI : I lines a'); [|destruct HI as [_ HI]; exact HI].
  refine (fold_each_inv I _ _ _ _ _ _ _ _ _ Hrun).
  - intros chrom out s w1 out1 s1 _ HIs Hbody.
    destruct (B._chr_lengths a !! chrom) as [my_size|] eqn:Hsize; [|discriminate Hbody].
    refine (fold_each_inv I _ _ _ _ _ _ _ _ HIs Hbody).
    intros my_start out0 s0 w0 out2 s2 Hstart [Hc (data & -> & Hdata)] Hwin.
    apply bedgraph_window_spec in Hwin as (counts & added & Hget & -> & Hadded).
    destruct (getitem_cache _ _ _ _ _ _ _ Hc Hget) as [Hc1 [a0 Hget0]].
    split; [exact Hc1|]. exists (data ++ added). split; [reflexivity|].
    apply Forall_app. split; [exact Hdata|].
    pose proof (xrange_bounds _ _ _ Hws Hstart) as Hb.
    assert (Hlen : len counts = Z.min (my_start + window_size) my_size - my_start).
    { apply (getitem_sized _ _ _ _ _ _ Hsized) in Hget0; [exact Hget0|cbn; lia]. }
    specialize (Hadded Hlen).
    eapply Forall_impl; [exact Hadded|].
    intros l Hl. exists chrom, my_size, my_start, counts.
    rewrite Hget0. repeat split; assumption.
  - split; [left; reflexivity|]. exists []. split; [reflexivity|constructor].
Qed.
End Reads.

(** * Indices of nonzero entries *)

Lemma elem_of_nonzero_from buf : forall i p,
  p ∈ nonzero_from i buf <->
  i <= p /\ exists y, buf !! Z.to_nat (p - i) = Some y /\ nonzerob y = true.
Proof.
  induction buf as [|x buf IH]; intros i p; cbn [nonzero_from].
  - split; [intros Hp; inversion Hp|]. intros (_ & y & Hy & _). discriminate Hy.
  - assert (Hrest : p ∈ nonzero_from (i + 1) buf <->
                    i < p /\ exists y, (x :: buf) !! Z.to_nat (p - i) = Some y
                                       /\ nonzerob y = true).
    { rewrite IH. split; intros (Hp & y & Hy & Hnz).
      - split; [lia|]. exists y. split; [|exact Hnz].
        replace (Z.to_nat (p - i)) with (S (Z.to_nat (p - (i + 1)))) by lia. exact Hy.
      - split; [lia|]. exists y. split; [|exact Hnz].
        replace (Z.to_nat (p - i)) with (S (Z.to_nat (p - (i + 1)))) in Hy by lia.
        exact Hy. }
    destruct (nonzerob x) eqn:Hx.
    + rewrite elem_of_cons, Hrest. split.
      * intros [->|(Hp & y & Hy & Hnz)].
        -- split; [lia|]. exists x. rewrite Z.sub_diag. split; [reflexivity|exact Hx].
        -- split; [lia|]. eauto.
      * intros (Hp & y & Hy & Hnz). destruct (decide (p = i)) as [->|Hne]; [left; reflexivity|].
        right. split; [lia|]. eauto.
    + rewrite Hrest. split.
      * intros (Hp & y & Hy & Hnz). split; [lia|]. eauto.
      * intros (Hp & y & Hy & Hnz). destruct (decide (p = i)) as [->|Hne].
        -- rewrite Z.sub_diag in Hy. injection Hy as <-. congruence.
        -- split; [lia|]. eauto.
Qed.

Lemma fold_left_min_spec xs : forall x,
  (fold_left Z.min xs x = x \/ fold_left Z.min xs x ∈ xs) /\
  fold_left Z.min xs x <= x /\ (forall y, y ∈ xs -> fold_left Z.min xs x <= y).
Proof.
  induction xs as [|z xs IH]; intros x; cbn [fold_left].
  - split; [left; reflexivity|]. split; [lia|]. intros y Hy. inversion Hy.
  - destruct (IH (Z.min x z)) as (Hin & Hle & Hall).
    split; [|split].
    + destruct Hin as [Heq|Hin]; [|right; right; exact Hin].
      rewrite Heq. destruct (Z.min_spec x z) as [[_ ->]|[_ ->]]; [left|right; left]; reflexivity.
    + lia.
    + intros y Hy. apply elem_of_cons in Hy as [->|Hy]; [lia|apply Hall, Hy].
Qed.

Lemma fold_left_max_spec xs : forall x,
  (fold_left Z.max xs x = x \/ fold_left Z.max xs x ∈ xs) /\
  x <= fold_left Z.max xs x /\ (forall y, y ∈ xs -> y <= fold_left Z.max xs x).
Proof.
  induction xs as [|z xs IH]; intros x; cbn [fold_left].
  - split; [left; reflexivity|]. split; [lia|]. intros y Hy. inversion Hy.
  - destruct (IH (Z.max x z)) as (Hin & Hle & Hall).
    split; [|split].
    + destruct Hin as [Heq|Hin]; [|right; right; exact Hin].
      rewrite Heq. destruct (Z.max_spec x z) as [[_ ->]|[_ ->]]; [right; left|left]; reflexivity.
    + lia.
    + intros y Hy. apply elem_of_cons in Hy as [->|Hy]; [lia|apply Hall, Hy].
Qed.

Lemma py_min_spec xs w lo :
  py_min xs = Outcome w (inr lo) -> lo ∈ xs /\ forall y, y ∈ xs -> lo <= y.
Proof.
  destruct xs as [|x xs]; [discriminate|]. cbn. intros [= _ <-].
  destruct (fold_left_min_spec xs x) as (Hin & Hle & Hall). split.
  - destruct Hin as [->|Hin]; [left|right; exact Hin].
  - intros y Hy. apply elem_of_cons in Hy as [->|Hy]; [exact Hle|apply Hall, Hy].
Qed.

Lemma py_max_spec xs w hi :
  py_max xs = Outcome w (inr hi) -> hi ∈ xs /\ forall y, y ∈ xs -> y <= hi.
Proof.
  destruct xs as [|x xs]; [discriminate|]. cbn. intros [= _ <-].
  destruct (fold_left_max_spec xs x) as (Hin & Hle & Hall). split.
  - destruct Hin as [->|Hin]; [left|right; exact Hin].
  - intros y Hy. apply elem_of_cons in Hy as [->|Hy]; [exact Hle|apply Hall, Hy].
Qed.

(** An entry that is not nonzero equals zero, and one that is differs from it. *)
Lemma zero_differs y v :
  nonzerob y = false -> nonzerob v = true -> PrimFloat.eqb y v = false.
Proof.
  unfold nonzerob. intros Hy Hv.
  apply negb_false_iff in Hy. apply negb_true_iff in Hv.
  rewrite (float_eqb_trans_l _ _ v Hy), float_eqb_sym. exact Hv.
Qed.

Section DenseExport.
Context `{NumpySum}.

Lemma item_inside (buf : list float) x y :
  0 <= x -> buf !! Z.to_nat x = Some y -> item buf x = returns y.
Proof.
  intros Hx Hy. unfold item.
  destruct (Z.ltb_spec x 0); [lia|]. destruct (Z.ltb_spec x 0); [lia|].
  rewrite Hy. reflexivity.
Qed.

Lemma bedgraph_round_spec chrom buf lv lx out x ga y :
  0 <= x -> buf !! Z.to_nat x = Some y ->
  bedgraph_round chrom buf (lv, lx, out) x ga =
  returns (if negb (PrimFloat.eqb y lv)
           then (y, x, out ++ [Data chrom lx x lv]) else (lv, lx, out), ga).
Proof.
  intros Hx Hy. unfold bedgraph_round.
  rewrite run_lift_bind, (item_inside _ _ _ Hx Hy), obind_returns.
  destruct (negb (PrimFloat.eqb y lv)); reflexivity.
Qed.

Lemma dense_rounds chrom buf ga (n : nat) : forall x lv lx out,
  0 <= x -> x + Z.of_nat n <= len buf ->
  fold_each (seqZ x (Z.of_nat n)) (lv, lx, out) (bedgraph_round chrom buf) ga =
  returns (let '(lv', lx', out') :=
             rle chrom (fun _ => true) lv lx x (take n (drop (Z.to_nat x) buf)) in
           (lv', lx', out ++ out'), ga).
Proof.
  induction n as [|n IH]; intros x lv lx out Hx Hn.
  - change (take 0 (drop (Z.to_nat x) buf)) with (@nil float).
    cbn [rle]. rewrite app_nil_r. reflexivity.
  - rewrite seqZ_cons by lia.
    replace (Z.pred (Z.of_nat (S n))) with (Z.of_nat n) by lia.
    destruct (lookup_lt_is_Some_2 buf (Z.to_nat x)) as [y Hy];
      [unfold len in Hn; lia|].
    rewrite (drop_S _ _ _ Hy). cbn [take fold_each rle].
    rewrite run_bind, (bedgraph_round_spec _ _ _ _ _ _ _ _ Hx Hy), obind_returns.
    replace (Z.succ x) with (x + 1) by lia.
    replace (S (Z.to_nat x)) with (Z.to_nat (x + 1)) by lia.
    destruct (PrimFloat.eqb y lv); cbn [negb]; cbv beta iota.
    + rewrite IH by lia. reflexivity.
    + rewrite IH by lia.
      destruct (rle chrom (fun _ => true) y x (x + 1)
                    (take n (drop (Z.to_nat (x + 1)) buf))) as [[lv' lx'] out'].
      rewrite <- app_assoc. reflexivity.
Qed.

Lemma dense_lines chrom buf lo hi :
  lo ∈ np_nonzero buf -> hi ∈ np_nonzero buf ->
  (forall p, p ∈ np_nonzero buf -> lo <= p <= hi) ->
  let '(lv, lx, out) :=
    rle chrom (fun _ => true) 0%float 0 lo
        (take (Z.to_nat (hi + 1 - lo)) (drop (Z.to_nat lo) buf)) in
  Forall (nonzero_run buf chrom) (out ++ [Data chrom lx (hi + 1) lv]).
Proof.
  intros Hlo Hhi Hall. unfold np_nonzero in *.
  pose proof (proj1 (elem_of_nonzero_from buf 0 lo) Hlo) as (Hlo0 & y & Hy & Hnz).
  pose proof (proj1 (elem_of_nonzero_from buf 0 hi) Hhi) as (Hhi0 & yh & Hyh & Hnzh).
  rewrite Z.sub_0_r in Hy, Hyh.
  pose proof (lookup_lt_Some _ _ _ Hyh) as Hlen.
  assert (Hzero : forall p z, buf !! Z.to_nat p = Some z -> 0 <= p ->
                    p < lo \/ hi < p -> nonzerob z = false).
  { intros p z Hz Hp Hout. destruct (nonzerob z) eqn:Hnzz; [|reflexivity].
    assert (Hin : p ∈ nonzero_from 0 buf).
    { apply elem_of_nonzero_from. split; [lia|]. exists z. rewrite Z.sub_0_r. eauto. }
    apply Hall in Hin. lia. }
  assert (Hat : forall p z, at_position buf 0 p = Some z ->
                  0 <= p /\ buf !! Z.to_nat p = Some z).
  { intros p z. unfold at_position. destruct (Z.ltb_spec p 0); [discriminate|].
    rewrite Z.sub_0_r. intros Hz. split; [lia|exact Hz]. }
  assert (Hle : lo <= hi) by (apply Hall in Hlo; lia).
  replace (Z.to_nat (hi + 1 - lo)) with (S (Z.to_nat (hi - lo))) by lia.
  rewrite (drop_S _ _ _ Hy). cbn [take rle].
  assert (Hne : PrimFloat.eqb y 0%float = false)
    by (unfold nonzerob in Hnz; apply negb_true_iff in Hnz; exact Hnz).
  rewrite Hne. cbn [negb].
  pose proof (rle_runs chrom (fun _ => true) buf 0
                (take (Z.to_nat (hi - lo)) (drop (S (Z.to_nat lo)) buf))
                (lo + 1) y lo) as Hr.
  destruct (rle chrom (fun _ => true) y lo (lo + 1)
                (take (Z.to_nat (hi - lo)) (drop (S (Z.to_nat lo)) buf)))
    as [[lv lx] out].
  destruct Hr as [Hopen Hruns].
  { split; [lia|]. split.
    - unfold at_position. destruct (Z.ltb_spec lo 0); [lia|].
      rewrite Z.sub_0_r. exact Hy.
    - split; [intros q z Hq; lia|].
      intros z Hz. apply Hat in Hz as [Hp Hz].
      apply (zero_differs z y); [|exact Hnz].
      apply (Hzero (lo - 1) z Hz Hp). lia. }
  { intros j z Hj. apply lookup_take_Some in Hj as [Hj Hjn].
    rewrite lookup_drop in Hj. unfold at_position.
    destruct (Z.ltb_spec (lo + 1 + Z.of_nat j) 0); [lia|].
    rewrite Z.sub_0_r.
    replace (Z.to_nat (lo + 1 + Z.of_nat j)) with (S (Z.to_nat lo) + j)%nat by lia.
    exact Hj. }
  assert (Hstop : lo + 1 + len (take (Z.to_nat (hi - lo)) (drop (S (Z.to_nat lo)) buf))
                  = hi + 1).
  { unfold len. rewrite length_take, length_drop. lia. }
  rewrite Hstop in Hopen.
  cbn [app]. constructor.
  - exists 0, lo, 0%float. split; [reflexivity|]. intros Hz. discriminate Hz.
  - apply Forall_app. split.
    + eapply Forall_impl; [exact Hruns|].
      intros l (s & e & v & -> & _ & Hmax). exists s, e, v. split; [reflexivity|].
      intros _. exact Hmax.
    + constructor; [|constructor]. exists lx, (hi + 1), lv. split; [reflexivity|].
      intros Hnzv. apply open_run_closed; [exact Hopen|unfold len; lia|].
      intros z Hz. apply Hat in Hz as [Hp Hz].
      apply (zero_differs z lv); [|exact Hnzv].
      apply (Hzero (hi + 1) z Hz Hp). lia.
Qed.


Lemma buffer_inv ga c s w buf ga' :
  buffer c s ga = Outcome w (inr (buf, ga')) ->
  ga' = ga /\ w = [] /\
  exists d, _chroms ga !! c = Some d /\ d !! s = Some buf.
Proof.
  unfold buffer. destruct (_chroms ga !! c) as [d|]; [|discriminate].
  destruct (d !! s) as [b|] eqn:Hs; [|discriminate].
  intros [= <- <- <-]. eauto 6.
Qed.

Lemma nonzero_spec ga w nz ga' :
  nonzero ga = Outcome w (inr (nz, ga')) ->
  ga' = ga /\
  forall c s v, nz !! c ≫= (.!! s) = Some v -> recorded ga c s v.
Proof.
  unfold nonzero. intros Hrun.
  apply run_bind_inv in Hrun as (w1 & ga0 & s1 & w2 & Hget & Hrun & _).
  rewrite run_get in Hget. injection Hget as _ <- <-.
  refine (fold_each_inv
            (fun d_out s => s = ga /\
               forall c s0 v, d_out !! c ≫= (.!! s0) = Some v -> recorded ga c s0 v)
            _ _ _ _ _ _ _ _ _ Hrun).
  - intros key d_out s w0 d_out' s' _ [-> Hd] Hbody.
    apply run_bind_inv in Hbody as (w3 & d & s3 & w4 & Hinner & Hret & _).
    rewrite run_ret in Hret. injection Hret as _ <- <-.
    assert (Hin : s3 = ga /\ forall s0 v, d !! s0 = Some v -> recorded ga key s0 v).
    { refine (fold_each_inv
                (fun d s => s = ga /\
                   forall s0 v, d !! s0 = Some v -> recorded ga key s0 v)
                _ _ _ _ _ _ _ _ _ Hinner).
      - intros strand d0 s0 w5 d0' s0' _ [-> Hd0] Hb.
        apply run_bind_inv in Hb as (w6 & buf & s6 & w7 & Hbuf & Hret & _).
        apply buffer_inv in Hbuf as (-> & _ & d1 & Hc & Hs).
        rewrite run_ret in Hret. injection Hret as _ <- <-.
        split; [reflexivity|]. intros s0 v Hv.
        destruct (decide (strand = s0)) as [<-|Hne].
        + rewrite lookup_insert_eq in Hv. injection Hv as <-.
          exists d1, buf. eauto.
        + rewrite lookup_insert_ne in Hv by exact Hne. apply Hd0, Hv.
      - split; [reflexivity|]. intros s0 v Hv. rewrite lookup_empty in Hv.
        discriminate Hv. }
    destruct Hin as [-> Hin]. split; [reflexivity|].
    intros c s0 v Hv. destruct (decide (key = c)) as [<-|Hne].
    + rewrite lookup_insert_eq in Hv. cbn in Hv. apply Hin, Hv.
    + rewrite lookup_insert_ne in Hv by exact Hne. apply Hd, Hv.
  - split; [reflexivity|]. intros c s0 v Hv. rewrite lookup_empty in Hv.
    discriminate Hv.
Qed.

Lemma bedgraph_chrom_spec ga nz strand out chrom w out' ga' :
  (forall c s v, nz !! c ≫= (.!! s) = Some v -> recorded ga c s v) ->
  bedgraph_chrom nz strand out chrom ga = Outcome w (inr (out', ga')) ->
  ga' = ga /\
  exists added, out' = out ++ added /\ Forall (dense_line ga strand) added.
Proof.
  intros Hnz. unfold bedgraph_chrom. intros Hrun.
  apply run_bind_inv in Hrun as (w1 & buf & s1 & w2 & Hbuf & Hrun & _).
  apply buffer_inv in Hbuf as (-> & _ & d & Hc & Hs).
  destruct (PrimFloat.ltb 0%float (np_sum buf)).
  - destruct (nz !! chrom ≫= (.!! strand)) as [v|] eqn:Hv; [|discriminate Hrun].
    destruct (Hnz _ _ _ Hv) as (d' & buf' & Hc' & Hs' & ->).
    rewrite Hc in Hc'. injection Hc' as <-.
    rewrite Hs in Hs'. injection Hs' as <-.
    rewrite run_lift_bind in Hrun.
    apply obind_inv in Hrun as (w3 & lo & w4 & Hlo & Hrun & _).
    rewrite run_lift_bind in Hrun.
    apply obind_inv in Hrun as (w5 & hi & w6 & Hhi & Hrun & _).
    apply py_min_spec in Hlo as [Hlo Hmin].
    apply py_max_spec in Hhi as [Hhi Hmax].
    pose proof (proj1 (elem_of_nonzero_from buf 0 lo) Hlo) as (Hlo0 & _).
    pose proof (proj1 (elem_of_nonzero_from buf 0 hi) Hhi) as (_ & yh & Hyh & _).
    rewrite Z.sub_0_r in Hyh. apply lookup_lt_Some in Hyh.
    pose proof (Hmin _ Hhi) as Hle.
    pose proof (dense_lines chrom buf lo hi Hlo Hhi
                  (fun p Hp => conj (Hmin p Hp) (Hmax p Hp))) as Hlines.
    replace (hi + 1 - lo) with (Z.of_nat (Z.to_nat (hi + 1 - lo))) in Hrun by lia.
    rewrite run_bind, dense_rounds, obind_returns in Hrun by (unfold len; lia).
    destruct (rle chrom (fun _ => true) 0%float 0 lo
                (take (Z.to_nat (hi + 1 - lo)) (drop (Z.to_nat lo) buf)))
      as [[lv lx] out1].
    cbv beta iota in Hrun. rewrite run_ret in Hrun. injection Hrun as _ <- <-.
    split; [reflexivity|].
    exists (out1 ++ [Data chrom lx (hi + 1) lv]).
    split; [rewrite app_assoc; reflexivity|].
    eapply Forall_impl; [exact Hlines|].
    intros l Hl. exists chrom, d, buf. eauto.
  - rewrite run_ret in Hrun. injection Hrun as _ <- <-.
    split; [reflexivity|]. exists []. rewrite app_nil_r.
    split; [reflexivity|constructor].
Qed.

Lemma dense_bedgraph_runs ga trackname strand kwargs lines :
  answer (to_bedgraph trackname strand kwargs ga) = inr lines ->
  exists data,
    lines = Track trackname (sorted_items kwargs) :: data /\
    Forall (dense_line ga strand) data.
Proof.
  intros Hans. apply answer_inv in Hans as (w & ga' & Hrun).
  unfold to_bedgraph in Hrun.
  apply run_bind_inv in Hrun as (w1 & ga0 & s1 & w2 & Hget & Hrun & _).
  rewrite run_get in Hget. injection Hget as _ <- <-.
  destruct (negb (bool_decide (strand ∈ strands ga))); [discriminate Hrun|].
  cbv zeta in Hrun.
  apply run_bind_inv in Hrun as (w3 & nz & s3 & w4 & Hnz & Hrun & _).
  apply nonzero_spec in Hnz as [-> Hnz].
  set (I := fun (out : list line) (s : t) =>
              s = ga /\
              exists data, out = Track trackname (sorted_items kwargs) :: data /\
                           Forall (dense_line ga strand) data).
  assert (HI : I lines ga'); [|destruct HI as [_ HI]; exact HI].
  refine (fold_each_inv I _ _ _ _ _ _ _ _ _ Hrun).
  - intros chrom out s w0 out' s' _ [-> (data & -> & Hdata)] Hbody.
    apply (bedgraph_chrom_spec _ _ _ _ _ _ _ _ Hnz) in Hbody
      as (-> & added & -> & Hadded).
    split; [reflexivity|]. exists (data ++ added). split; [reflexivity|].
    apply Forall_app. split; assumption.
  - split; [reflexivity|]. exists []. split; [reflexivity|constructor].
Qed.
End DenseExport.

(** * bedGraph export: the lines are runs *)

Lemma toy_fiveprime_sized : sized toy_bam.
Proof.
  intros reads roi w r c Hroi Hmap. cbn in Hmap. unfold toy_fiveprime in Hmap.
  injection Hmap as _ _ <-. unfold len, seg_len in *.
  rewrite length_fmap, length_seqZ. lia.
Qed.

(** C9, as the code has it. The dense array writes, for each chromosome
    with a positive sum, lines of which every one with a nonzero value
    describes a maximal run of adjacent positions holding that value. The
    BAM-backed array goes window by window: every line describes a run of
    adjacent positions of one window holding one positive value, maximal
    within that window, so a run that crosses a window boundary is written
    as several lines; no line has a value that is not positive. *)
Theorem bedgraph_lines_are_runs :
  (forall `{NumpySum} (ga : GenomeArray.t) trackname strand kwargs lines,
      answer (GenomeArray.to_bedgraph trackname strand kwargs ga) = inr lines ->
      exists data,
        lines = Track trackname (sorted_items kwargs) :: data /\
        Forall (dense_line ga strand) data) /\
  (forall {read} `{AlignedSegment read} `{NumpySum} (a : B.t read)
          trackname strand window_size kwargs lines,
      sized a ->
      answer (B.to_bedgraph trackname strand window_size kwargs a) = inr lines ->
      exists data,
        lines = Track trackname (sorted_items kwargs) :: data /\
        Forall (window_line a strand window_size) data).
Proof.
  split.
  - intros np ga trackname strand kwargs lines. apply dense_bedgraph_runs.
  - intros read rd np a trackname strand window_size kwargs lines.
    apply bam_bedgraph_runs.
Qed.

Lemma bedgraph_lines_are_runs_witness :
  (exists data,
      [Track "t" []; Data "chrI" 0 0 0; Data "chrI" 0 2 2; Data "chrI" 2 3 0;
       Data "chrI" 3 4 3]
      = Track "t" (sorted_items []) :: data /\
      Forall (dense_line (dense [("chrI"%string, [2; 2; 0; 3]%float)]) Plus) data) /\
  (exists data,
      [Track "reads" []; Data "chrI" 0 2 1; Data "chrI" 2 3 1; Data "chrI" 3 4 2]
      = Track "reads" (sorted_items []) :: data /\
      Forall (window_line toy_bam Plus 2) data).
Proof.
  split.
  - apply (proj1 bedgraph_lines_are_runs seq_sum
             (dense [("chrI"%string, [2; 2; 0; 3]%float)]) "t"%string Plus []).
    vm_compute. reflexivity.
  - apply (proj2 bedgraph_lines_are_runs toy_read toy_read_aligned seq_sum
             toy_bam "reads"%string Plus 2 []).
    + exact toy_fiveprime_sized.
    + vm_compute. reflexivity.
Defined.

(** C9, as stated, fails: with windows of two positions the BAM-backed array
    writes the run of 1 over positions 0, 1 and 2 as two lines, and the line
    [0,2) is not a maximal run of the counts. *)
Lemma bam_bedgraph_splits_runs :
  answer (B.__getitem__ (Segment "chrI" 0 4 Plus) false toy_bam)
  = inr [1; 1; 1; 2]%float /\
  answer (B.to_bedgraph "reads" Plus 2 [] toy_bam)
  = inr [Track "reads" []; Data "chrI" 0 2 1; Data "chrI" 2 3 1; Data "chrI" 3 4 2] /\
  ~ maximal_run [1; 1; 1; 2]%float 0 0 2 1%float.
Proof.
  split; [vm_compute; reflexivity|]. split; [vm_compute; reflexivity|].
  intros (_ & _ & _ & _ & _ & Hright).
  specialize (Hright 1%float eq_refl). vm_compute in Hright. discriminate Hright.
Qed.

(** The dense array also writes the stretches of zeros before and between
    its runs, the first of them empty when position 0 is nonzero. *)
Lemma dense_bedgraph_writes_zero_runs :
  answer (GenomeArray.to_bedgraph "t" Plus []
            (dense [("chrI"%string, [2; 2; 0; 3]%float)]))
  = inr [Track "t" []; Data "chrI" 0 0 0; Data "chrI" 0 2 2; Data "chrI" 2 3 0;
         Data "chrI" 3 4 3].
Proof. vm_compute. reflexivity. Qed.

(** * Where the code departs from its documentation *)

Lemma with_normalize_same (ga : GenomeArray.t) :
  with_normalize (_normalize ga) ga = ga.
Proof. destruct ga; reflexivity. Qed.

Lemma truncate_disjoint `{NumpySum} (a b : GenomeArray.t) func w new :
  dom (_chroms a) ∩ dom (_chroms b) = ∅ ->
  like a = Outcome w (inr new) ->
  result (apply_operation a (Array b) func "truncate") = inr (new, a, Array b).
Proof.
  intros Hdisj Hlike. unfold apply_operation.
  change (mbind ?f (like a)) with (obind f (like a)).
  rewrite Hlike. unfold obind at 1. cbn [result warnings].
  assert (Htrunc : combine_truncate func (Frame a b new) = returns (tt, Frame a b new)).
  { unfold combine_truncate.
    rewrite run_bind, run_get, obind_returns; cbv beta iota. cbn [frame_self frame_other].
    unfold chrom_intersection. rewrite Hdisj, elements_empty. reflexivity. }
  destruct (decide ("truncate" = "same")) as [E|_]; [discriminate E|].
  destruct (decide ("truncate" = "all")) as [E|_]; [discriminate E|].
  destruct (decide ("truncate" = "truncate")) as [_|E]; [|congruence].
  rewrite Htrunc.
  pose proof (with_normalize_same a) as Hsame.
  destruct (_normalize a); cbn; rewrite Hsame; reflexivity.
Qed.

(** C4 on the code. When the operands have no chromosome in common, mode
    "truncate" returns [GenomeArray.like(self)] untouched: on [chrI] and
    [chrII] the result has the chromosome of [self], holding zeros, and not
    zero chromosomes. *)
Theorem truncate_keeps_chromosomes_of_self :
  (forall `{NumpySum} (a b : GenomeArray.t) func w new,
      dom (_chroms a) ∩ dom (_chroms b) = ∅ ->
      like a = Outcome w (inr new) ->
      result (apply_operation a (Array b) func "truncate") = inr (new, a, Array b)) /\
  match result (apply_operation (H:=seq_sum) chrI (Array chrII) operator_add "truncate") with
  | inr (new_array, _, _) =>
    keys new_array = ["chrI"%string] /\
    contents new_array "chrI" Plus 3 = Some [0; 0; 0]%float /\
    contents new_array "chrI" Minus 3 = Some [0; 0; 0]%float
  | inl _ => False
  end.
Proof.
  split.
  - intros np a b func w new. apply truncate_disjoint.
  - vm_compute. repeat split; reflexivity.
Qed.

Lemma truncate_keeps_chromosomes_of_self_witness :
  exists new,
    result (apply_operation (H:=seq_sum) chrI (Array chrII) operator_add "truncate")
    = inr (new, chrI, Array chrII) /\
    keys new = ["chrI"%string].
Proof.
  eexists. split.
  - apply (proj1 truncate_keeps_chromosomes_of_self seq_sum chrI chrII operator_add []).
    + vm_compute. reflexivity.
    + vm_compute. reflexivity.
  - vm_compute. reflexivity.
Defined.

(** C5 on the code. In mode "same", [apply_operation] reads each operand
    over a segment that ends at the buffer's length, which [__getitem__]
    takes for a reason to grow: both operands come back with longer buffers
    (3 positions become 20003, one growth for each strand). Normalization
    stays on during the operation: with [self] normalized to a sum of
    2,000,000, the result holds [1e6*[1,0,2]/2e6 + [5,0,2]], and not
    [[6,0,4]]. The warning is given, and the flag is as it was. *)
Theorem apply_operation_same_changes_operands :
  match result (apply_operation (H:=seq_sum) chrI (Array chrI') operator_add "same") with
  | inr (new_array, self, Array other) =>
    buffer_len chrI "chrI" Plus = Some 3 /\
    buffer_len chrI' "chrI" Plus = Some 3 /\
    buffer_len self "chrI" Plus = Some 20003 /\
    buffer_len other "chrI" Plus = Some 20003 /\
    contents new_array "chrI" Plus 3 = Some [6; 0; 4]%float
  | _ => False
  end /\
  match apply_operation (H:=seq_sum)
          (with_normalize true (with_sum (Some 2000000%float) chrI))
          (Array chrI') operator_add "same" with
  | Outcome w (inr (new_array, self, _)) =>
    w = [Warning DataWarning NormalizationOff] /\
    _normalize self = true /\
    contents new_array "chrI" Plus 3 = Some [5.5; 0; 3]%float
  | _ => False
  end.
Proof. split; vm_compute; repeat split; reflexivity. Qed.

(** C8 on the code. [__eq__] compares [self - other <= tol] over the
    segment from the first to the last nonzero index, which leaves the last
    one out: arrays holding [1,0,2] and [5,0,2] compare equal one way round
    and unequal the other, and arrays holding only [1] and only [7] at
    position 0 compare equal. Arrays that differ in buffer length alone do
    compare equal. *)
Theorem eq_misses_differences :
  answer (__eq__ (H:=seq_sum) default_tol (chrI, chrI')) = inr true /\
  answer (__eq__ (H:=seq_sum) default_tol (chrI', chrI)) = inr false /\
  answer (__eq__ (H:=seq_sum) default_tol
            (dense [("chrI"%string, [1; 0]%float)],
             dense [("chrI"%string, [7; 0; 0]%float)])) = inr true /\
  answer (__eq__ (H:=seq_sum) default_tol
            (dense [("chrI"%string, [1; 0; 2]%float)],
             dense [("chrI"%string, [1; 0; 2; 0; 0]%float)])) = inr true.
Proof. vm_compute. repeat split; reflexivity. Qed.

(** C10 on the code. [to_genome_array] copies the segment from 0 to the
    chromosome's length minus one, which leaves the last position out: the
    BAM-backed array reports 2 at position 3 of a chromosome of 4 positions,
    and the array returned holds 0 there. *)
Theorem to_genome_array_misses_last_position :
  B.lengths toy_bam !! "chrI"%string = Some 4 /\
  answer (B.__getitem__ (Segment "chrI" 0 4 Plus) true toy_bam)
  = inr [1; 1; 1; 2]%float /\
  answer (B.__getitem__ (Segment "chrI" 3 4 Plus) true toy_bam) = inr [2%float] /\
  match answer (B.to_genome_array toy_bam) with
  | inr ga =>
    contents ga "chrI" Plus 4 = Some [1; 1; 1; 0]%float /\
    stored ga "chrI" Plus 3 = Some 0%float
  | inl _ => False
  end.
Proof. vm_compute. repeat split; reflexivity. Qed.

(** * The mapping functions from either end *)

Section EndMapping.
Implicit Types (feature : SegmentChain) (value : option float).

(** X1. Mapping from the 3' end at offset [o] is mapping from the 5' end at
    offset [L - 1 - o], where [L] is the alignment's length, whenever both
    offsets pass the length test. *)
Theorem three_prime_map_mirrors_five_prime_map seg offset value nibble :
  -1 <= offset <= seg_len seg ->
  three_prime_map (ungapped seg) (Kwargs (Some (OffsetInt offset)) value nibble) =
  five_prime_map (ungapped seg)
    (Kwargs (Some (OffsetInt (seg_len seg - 1 - offset))) value nibble).
Proof.
  intros Ho. unfold three_prime_map, five_prime_map, offset_or_0; cbn [kw_offset].
  change (mbind ?f (returns ?x)) with (obind f (returns x)).
  rewrite !obind_returns. cbn [ungapped feature_length spanning_segment].
  destruct (Z.ltb_spec (seg_len seg) offset); [lia|].
  destruct (Z.ltb_spec (seg_len seg) (seg_len seg - 1 - offset)); [lia|].
  unfold seg_len. destruct seg as [c s e []]; cbn [strand start end_ chrom];
    repeat f_equal; lia.
Qed.

Lemma three_prime_map_mirrors_five_prime_map_witness :
  three_prime_map (ungapped (Segment "chrI" 50 70 Minus))
                  (Kwargs (Some (OffsetInt 2)) None None) =
  five_prime_map (ungapped (Segment "chrI" 50 70 Minus))
                 (Kwargs (Some (OffsetInt (20 - 1 - 2))) None None).
Proof.
  apply (three_prime_map_mirrors_five_prime_map (Segment "chrI" 50 70 Minus) 2).
  unfold seg_len; cbn. lia.
Defined.

(** X2. An offset up to and including the read length is mapped, not
    discarded, by [five_prime_map] and [three_prime_map]; the position it
    maps to lies within the alignment exactly when [0 <= offset < L]. *)
Theorem end_maps_inside_alignment seg offset value nibble :
  offset <= seg_len seg ->
  let kw := Kwargs (Some (OffsetInt offset)) value nibble in
  exists p5 p3,
    five_prime_map (ungapped seg) kw = returns [(site seg p5, value_or_1 kw)] /\
    three_prime_map (ungapped seg) kw = returns [(site seg p3, value_or_1 kw)] /\
    (start seg <= p5 < end_ seg <-> 0 <= offset < seg_len seg) /\
    (start seg <= p3 < end_ seg <-> 0 <= offset < seg_len seg) /\
    p5 + p3 = start seg + end_ seg - 1.
Proof.
  intros Ho kw. subst kw.
  unfold three_prime_map, five_prime_map, offset_or_0; cbn [kw_offset].
  change (mbind ?f (returns ?x)) with (obind f (returns x)).
  rewrite !obind_returns. cbn [ungapped feature_length spanning_segment].
  destruct (Z.ltb_spec (seg_len seg) offset); [lia|].
  unfold seg_len in *. unfold site.
  destruct seg as [c s e []]; cbn [strand start end_ chrom] in *;
    eexists _, _; (split; [reflexivity|]); (split; [reflexivity|]); lia.
Qed.

Lemma end_maps_inside_alignment_witness :
  exists p5 p3,
    five_prime_map (ungapped (Segment "chrI" 50 70 Plus))
                   (Kwargs (Some (OffsetInt 20)) None None)
    = returns [(Segment "chrI" p5 (p5 + 1) Plus, 1%float)] /\
    three_prime_map (ungapped (Segment "chrI" 50 70 Plus))
                    (Kwargs (Some (OffsetInt 20)) None None)
    = returns [(Segment "chrI" p3 (p3 + 1) Plus, 1%float)] /\
    (50 <= p5 < 70 <-> 0 <= 20 < 20) /\
    (50 <= p3 < 70 <-> 0 <= 20 < 20) /\
    p5 + p3 = 50 + 70 - 1.
Proof.
  apply (end_maps_inside_alignment (Segment "chrI" 50 70 Plus) 20 None None).
  unfold seg_len; cbn. lia.
Defined.

(** X3. With an offset below the read length in its table,
    [variable_five_prime_map] maps a read as [five_prime_map] does with that
    offset, warning included. *)
Theorem variable_five_prime_map_as_fixed feature d offset value nibble :
  lookup_offset d (seg_len (spanning_segment feature)) = Some offset ->
  offset < feature_length feature ->
  variable_five_prime_map feature (Kwargs (Some (OffsetDict d)) value nibble) =
  five_prime_map feature (Kwargs (Some (OffsetInt offset)) value nibble).
Proof.
  intros Hl Ho. unfold variable_five_prime_map, five_prime_map, offset_or_0.
  cbn [kw_offset]. rewrite Hl.
  change (mbind ?f (returns ?x)) with (obind f (returns x)).
  rewrite obind_returns.
  destruct (Z.leb_spec (feature_length feature) offset); [lia|].
  destruct (Z.ltb_spec (feature_length feature) offset); [lia|].
  change (mbind ?f (mret tt)) with (obind f (returns tt)).
  rewrite obind_returns. reflexivity.
Qed.

Lemma variable_five_prime_map_as_fixed_witness :
  variable_five_prime_map (ungapped (Segment "chrI" 50 70 Minus))
    (Kwargs (Some (OffsetDict {[ LengthKey 20 := 12; DefaultKey := 3 ]})) None None) =
  five_prime_map (ungapped (Segment "chrI" 50 70 Minus))
    (Kwargs (Some (OffsetInt 12)) None None).
Proof.
  apply (variable_five_prime_map_as_fixed (ungapped (Segment "chrI" 50 70 Minus))).
  - vm_compute. reflexivity.
  - vm_compute. reflexivity.
Defined.

End EndMapping.

(** * Construction and dimensions *)

Lemma for_each_total {S A} (I : list A -> S -> Prop) (body : A -> State S unit) xs :
  (forall done x s, I done s -> x ∈ xs ->
     exists s', body x s = returns (tt, s') /\ I (done ++ [x]) s') ->
  forall s, I [] s -> exists s', for_each xs body s = returns (tt, s') /\ I xs s'.
Proof.
  intros Hbody.
  assert (Hgen : forall rest done s, done ++ rest = xs -> I done s ->
            exists s', for_each rest body s = returns (tt, s') /\ I xs s').
  { induction rest as [|x rest IH]; intros done s Hxs HI.
    - rewrite app_nil_r in Hxs. subst done. exists s. split; [reflexivity|exact HI].
    - destruct (Hbody done x s HI) as (s1 & Hb & HI1).
      { rewrite <- Hxs. apply elem_of_app. right. left. }
      destruct (IH (done ++ [x]) s1) as (s2 & Hr & HI2).
      { rewrite <- app_assoc. exact Hxs. }
      { exact HI1. }
      exists s2. split; [|exact HI2].
      cbn [for_each]. rewrite run_bind, Hb, obind_returns. exact Hr. }
  intros s HI. apply (Hgen xs [] s); [reflexivity|exact HI].
Qed.

Lemma fold_each_total {S A B} (I : list A -> B -> S -> Prop)
  (body : B -> A -> State S B) xs :
  (forall done x acc s, I done acc s -> x ∈ xs ->
     exists acc' s', body acc x s = returns (acc', s') /\ I (done ++ [x]) acc' s') ->
  forall acc s, I [] acc s ->
    exists acc' s', fold_each xs acc body s = returns (acc', s') /\ I xs acc' s'.
Proof.
  intros Hbody.
  assert (Hgen : forall rest done acc s, done ++ rest = xs -> I done acc s ->
            exists acc' s', fold_each rest acc body s = returns (acc', s') /\ I xs acc' s').
  { induction rest as [|x rest IH]; intros done acc s Hxs HI.
    - rewrite app_nil_r in Hxs. subst done. exists acc, s. split; [reflexivity|exact HI].
    - destruct (Hbody done x acc s HI) as (acc1 & s1 & Hb & HI1).
      { rewrite <- Hxs. apply elem_of_app. right. left. }
      destruct (IH (done ++ [x]) acc1 s1) as (acc2 & s2 & Hr & HI2).
      { rewrite <- app_assoc. exact Hxs. }
      { exact HI1. }
      exists acc2, s2. split; [|exact HI2].
      cbn [fold_each]. rewrite run_bind, Hb, obind_returns. exact Hr. }
  intros acc s HI. apply (Hgen xs [] acc s); [reflexivity|exact HI].
Qed.

Lemma mapM_pure {S A B} (c : A -> State S B) (g : A -> B) xs s :
  (forall x, x ∈ xs -> c x s = returns (g x, s)) ->
  mapM c xs s = returns (g <$> xs, s).
Proof.
  induction xs as [|x xs IH]; intros Hc; [reflexivity|].
  cbn [mapM fmap list_fmap]. rewrite run_bind, (Hc x) by left.
  rewrite obind_returns; cbv beta iota.
  rewrite run_bind, IH by (intros y Hy; apply Hc; right; exact Hy).
  rewrite obind_returns. reflexivity.
Qed.

Lemma foldl_insert_lookup {V W} (g : V -> W) (l : list (string * V)) :
  forall (m0 : gmap string W) c, NoDup l.*1 ->
  foldl (fun m '(k, v) => <[k := g v]> m) m0 l !! c =
  match (list_to_map l : gmap string V) !! c with
  | Some v => Some (g v)
  | None => m0 !! c
  end.
Proof.
  induction l as [|[k v] l IH]; intros m0 c Hnd.
  - cbn. rewrite lookup_empty. reflexivity.
  - cbn in Hnd. apply NoDup_cons in Hnd as [Hk Hnd].
    rewrite list_to_map_cons. cbn [foldl].
    rewrite IH by exact Hnd.
    destruct (decide (k = c)) as [->|Hne].
    + rewrite lookup_insert_eq.
      rewrite (not_elem_of_list_to_map_1 l c Hk). rewrite lookup_insert_eq. reflexivity.
    + rewrite !lookup_insert_ne by exact Hne. reflexivity.
Qed.

Lemma foldl_insert_map_to_list {V W} (g : V -> W) (M : gmap string V) :
  foldl (fun m '(k, v) => <[k := g v]> m) ∅ (map_to_list M) = g <$> M.
Proof.
  apply map_eq. intros c.
  rewrite foldl_insert_lookup by apply NoDup_fst_map_to_list.
  rewrite list_to_map_to_list, lookup_fmap, lookup_empty.
  destruct (M !! c); reflexivity.
Qed.

Lemma foldl_insert_keys {W} (h : string -> W) (l : list string) :
  forall (m0 : gmap string W) c,
  foldl (fun m k => <[k := h k]> m) m0 l !! c =
  if decide (c ∈ l) then Some (h c) else m0 !! c.
Proof.
  induction l as [|k l IH]; intros m0 c; cbn [foldl].
  - destruct (decide (c ∈ [])) as [Hin|_]; [inversion Hin|reflexivity].
  - rewrite IH. destruct (decide (c ∈ l)) as [Hin|Hnin].
    + destruct (decide (c ∈ k :: l)) as [_|Hn]; [reflexivity|].
      exfalso. apply Hn. right. exact Hin.
    + destruct (decide (k = c)) as [->|Hne].
      * rewrite lookup_insert_eq.
        destruct (decide (c ∈ c :: l)) as [_|Hn]; [reflexivity|].
        exfalso. apply Hn. left.
      * rewrite lookup_insert_ne by exact Hne.
        destruct (decide (c ∈ k :: l)) as [Hin|_]; [|reflexivity].
        apply elem_of_cons in Hin as [->|Hin]; [congruence|contradiction].
Qed.

Lemma init_strands c l z S : forall ga d,
  zeros l = returns z -> _chroms ga !! c = Some d ->
  for_each S (fun my_strand => z ← lift (zeros l); store_buffer c my_strand z) ga =
  returns (tt, with_chroms (<[c := fresh_strands S z d]> (_chroms ga)) ga).
Proof.
  induction S as [|x S IH]; intros ga d Hz Hc.
  - cbn [for_each fresh_strands foldl]. rewrite run_ret.
    rewrite insert_id by exact Hc. destruct ga; reflexivity.
  - cbn [for_each]. rewrite run_bind, run_lift_bind.
    rewrite Hz at 1. rewrite obind_returns.
    rewrite (store_buffer_found _ _ _ _ _ Hc), obind_returns; cbv beta iota.
    rewrite (IH _ (<[x := z]> d) Hz)
      by (cbn [with_chroms _chroms]; apply lookup_insert_eq).
    cbn [with_chroms _chroms _strands min_chr_size _sum _normalize].
    rewrite insert_insert_eq. reflexivity.
Qed.

Lemma zeros_returns l :
  (forall n, l = Some n -> 0 <= n) -> zeros l = returns (zeros_of l).
Proof.
  destruct l as [n|]; intros Hn; [|reflexivity].
  apply zeros_nonneg, Hn. reflexivity.
Qed.

Lemma init_spec chr_lengths strands mcs :
  (forall c l, chr_lengths !! c = Some (Some l) -> 0 <= l) ->
  __init__ (Some chr_lengths) strands mcs =
  returns (Make (fresh_chroms (default _DEFAULT_STRANDS strands) chr_lengths)
                (default _DEFAULT_STRANDS strands) mcs None false).
Proof.
  intros Hpos. unfold __init__. cbv zeta.
  set (S := default _DEFAULT_STRANDS strands).
  set (g := fun l => fresh_strands S (zeros_of l) ∅).
  destruct (for_each_total
              (fun done ga =>
                 ga = Make (foldl (fun m '(k, v) => <[k := g v]> m) ∅ done) S mcs None false)
              (fun '(chrom, l) =>
                 _ ← new_chrom chrom;
                 for_each S (fun strand => z ← lift (zeros l); store_buffer chrom strand z))
              (map_to_list chr_lengths)) with (s := Make ∅ S mcs None false)
    as (ga & Hrun & Hga).
  - intros done [c l] ga -> Hin.
    apply elem_of_map_to_list in Hin.
    eexists. split.
    + rewrite run_bind. unfold new_chrom at 1. rewrite obind_returns; cbv beta iota.
      rewrite (init_strands c l (zeros_of l) S _ ∅).
      * reflexivity.
      * apply zeros_returns. intros n ->. apply (Hpos c n Hin).
      * cbn [with_chroms _chroms]. apply lookup_insert_eq.
    + cbn [with_chroms _chroms _strands min_chr_size _sum _normalize].
      rewrite insert_insert_eq, foldl_app. reflexivity.
  - reflexivity.
  - change (mbind ?f ?c) with (obind f c). rewrite Hrun, obind_returns.
    rewrite Hga, foldl_insert_map_to_list. reflexivity.
Qed.

Lemma chrom_len_nonneg S d : 0 <= chrom_len S d.
Proof.
  unfold chrom_len. generalize ((fun s => len (default [] (d !! s))) <$> S).
  intros l. assert (H : forall x, 0 <= x -> 0 <= foldl Z.max x l).
  { induction l as [|y l IH]; intros x Hx; cbn; [exact Hx|apply IH; lia]. }
  apply H. lia.
Qed.

Lemma fold_left_foldl {A B} (f : A -> B -> A) l : forall a,
  fold_left f l a = foldl f a l.
Proof. induction l as [|x l IH]; intros a; cbn; [reflexivity|apply IH]. Qed.

Lemma py_max_lens (ls : list Z) :
  ls <> [] -> (forall x, x ∈ ls -> 0 <= x) -> py_max ls = returns (foldl Z.max 0 ls).
Proof.
  destruct ls as [|x ls]; [congruence|]. intros _ Hpos. cbn.
  rewrite Z.max_r by (apply Hpos; left). rewrite fold_left_foldl. reflexivity.
Qed.

Lemma lengths_spec ga :
  complete ga -> strands ga <> [] ->
  lengths ga = returns (chrom_len (strands ga) <$> _chroms ga, ga).
Proof.
  intros Hc Hs. unfold lengths.
  rewrite run_bind, run_get, obind_returns; cbv beta iota.
  set (h := fun k => chrom_len (strands ga) (default ∅ (_chroms ga !! k))).
  destruct (fold_each_total
              (fun done (d_out : gmap string Z) s =>
                 s = ga /\ d_out = foldl (fun m k => <[k := h k]> m) ∅ done)
              (fun (d_out : gmap string Z) key =>
                 ls ← mapM (fun X => buf ← buffer key X; mret (len buf)) (strands ga);
                 m ← lift (py_max ls);
                 mret (<[key := m]> d_out))
              (keys ga)) with (acc := (∅ : gmap string Z)) (s := ga)
    as (d_out & ga' & Hrun & -> & ->).
  - intros done key d_out s [-> ->] Hin.
    unfold keys in Hin. apply list_elem_of_fmap in Hin as ([k d] & -> & Hin).
    apply elem_of_map_to_list in Hin. cbn [fst].
    eexists _, ga. split; [|split; [reflexivity|]].
    + rewrite run_bind.
      rewrite (mapM_pure _ (fun s => len (default [] (d !! s)))).
      * rewrite obind_returns; cbv beta iota.
        rewrite run_lift_bind, py_max_lens.
        -- rewrite obind_returns. rewrite run_ret. reflexivity.
        -- destruct (strands ga); [congruence|discriminate].
        -- intros x Hx. apply list_elem_of_fmap in Hx as (s & -> & _).
           unfold len. lia.
      * intros s Hs'. destruct (Hc k d s Hin Hs') as [buf Hbuf].
        rewrite run_bind, (buffer_found _ _ _ _ _ Hin Hbuf), obind_returns.
        rewrite Hbuf. reflexivity.
    + rewrite foldl_app. cbn [foldl]. f_equal. unfold h, chrom_len. rewrite Hin.
      reflexivity.
  - split; reflexivity.
  - rewrite Hrun. f_equal. f_equal. apply map_eq. intros c.
    rewrite foldl_insert_keys, lookup_fmap, lookup_empty. unfold keys.
    destruct (_chroms ga !! c) as [d|] eqn:Hd; cbn.
    + destruct (decide (c ∈ (map_to_list (_chroms ga)).*1)) as [_|Hn].
      * unfold h. rewrite Hd. reflexivity.
      * exfalso. apply Hn. apply list_elem_of_fmap. exists (c, d).
        split; [reflexivity|]. apply elem_of_map_to_list. exact Hd.
    + destruct (decide (c ∈ (map_to_list (_chroms ga)).*1)) as [Hin|_]; [|reflexivity].
      apply list_elem_of_fmap in Hin as ([k d] & -> & Hin).
      apply elem_of_map_to_list in Hin. cbn in Hd. congruence.
Qed.

Lemma like_spec other :
  complete other -> strands other <> [] ->
  like other =
  returns (Make (fresh_chroms (strands other)
                   (Some <$> (chrom_len (strands other) <$> _chroms other)))
                (strands other) MIN_CHR_SIZE None false).
Proof.
  intros Hc Hs. unfold like.
  change (mbind ?f ?c) with (obind f c).
  rewrite (lengths_spec other Hc Hs), obind_returns; cbv beta iota.
  apply (init_spec _ (Some (strands other))).
  intros c l. rewrite !lookup_fmap.
  destruct (_chroms other !! c); cbn; [|discriminate].
  intros [= <-]. apply chrom_len_nonneg.
Qed.

Lemma fresh_chroms_lookup S m c :
  fresh_chroms S m !! c = (fun l => fresh_strands S (zeros_of l) ∅) <$> m !! c.
Proof. unfold fresh_chroms. apply lookup_fmap. Qed.

Lemma foldl_max_const (n : Z) (l : list Z) :
  0 <= n -> l <> [] -> (forall x, x ∈ l -> x = n) -> foldl Z.max 0 l = n.
Proof.
  intros Hn Hl Hall. destruct l as [|x l]; [congruence|]. cbn.
  rewrite (Hall x) by left. rewrite Z.max_r by exact Hn.
  assert (H : forall l', (forall y, y ∈ l' -> y = n) -> foldl Z.max n l' = n).
  { induction l' as [|y l' IH]; intros Hy; cbn; [reflexivity|].
    rewrite (Hy y) by left. rewrite Z.max_id. apply IH.
    intros z Hz. apply Hy. right. exact Hz. }
  apply H. intros y Hy. apply Hall. right. exact Hy.
Qed.

Lemma chrom_len_uniform S d n :
  S <> [] -> 0 <= n ->
  (forall s, s ∈ S -> exists buf, d !! s = Some buf /\ len buf = n) ->
  chrom_len S d = n.
Proof.
  intros HS Hn Hall. unfold chrom_len. apply foldl_max_const.
  - exact Hn.
  - destruct S; [congruence|discriminate].
  - intros x Hx. apply list_elem_of_fmap in Hx as (s & -> & Hs).
    destruct (Hall s Hs) as (buf & -> & <-). reflexivity.
Qed.

Lemma fresh_complete S m mcs sm nz :
  complete (Make (fresh_chroms S m) S mcs sm nz).
Proof.
  intros c d s Hc Hs. cbn [_chroms] in Hc. rewrite fresh_chroms_lookup in Hc.
  destruct (m !! c) as [l|]; [|discriminate]. injection Hc as <-.
  exists (zeros_of l). apply fresh_strands_lookup. left. exact Hs.
Qed.

Lemma lengths_fresh S (m : gmap string Z) mcs sm nz :
  S <> [] -> (forall c l, m !! c = Some l -> 0 <= l) ->
  lengths (Make (fresh_chroms S (Some <$> m)) S mcs sm nz) =
  returns (m, Make (fresh_chroms S (Some <$> m)) S mcs sm nz).
Proof.
  intros HS Hpos. rewrite lengths_spec; [|apply fresh_complete|exact HS].
  f_equal. f_equal. cbn [_chroms strands _strands]. apply map_eq. intros c.
  rewrite lookup_fmap, fresh_chroms_lookup, lookup_fmap.
  destruct (m !! c) as [l|] eqn:Hl; cbn; [|reflexivity]. f_equal.
  apply chrom_len_uniform; [exact HS|apply (Hpos c l Hl)|].
  intros s Hs. exists (replicate (Z.to_nat l) 0%float). split.
  - apply fresh_strands_lookup. left. exact Hs.
  - unfold len. rewrite length_replicate. pose proof (Hpos c l Hl). lia.
Qed.

Lemma stored_fresh S (m : gmap string Z) mcs sm nz c l s p :
  m !! c = Some l -> s ∈ S -> 0 <= p < l ->
  stored (Make (fresh_chroms S (Some <$> m)) S mcs sm nz) c s p = Some 0%float.
Proof.
  intros Hl Hs Hp.
  rewrite (stored_found _ _ _ (fresh_strands S (replicate (Z.to_nat l) 0%float) ∅)
             (replicate (Z.to_nat l) 0%float)).
  - apply lookup_replicate_2. lia.
  - cbn [_chroms]. rewrite fresh_chroms_lookup, lookup_fmap, Hl. reflexivity.
  - apply fresh_strands_lookup. left. exact Hs.
  - lia.
Qed.

Lemma len_spec ga ls :
  lengths ga = returns (ls, ga) ->
  __len__ ga = returns (len (strands ga) * foldl Z.add 0 (map_to_list ls).*2, ga).
Proof.
  intros Hl. unfold __len__.
  rewrite run_bind, run_get, obind_returns; cbv beta iota.
  rewrite run_bind, Hl, obind_returns; cbv beta iota.
  reflexivity.
Qed.

(** X4. A new array reports the lengths it was given: for nonnegative
    [chr_lengths] and at least one strand, [GenomeArray(chr_lengths,strands)]
    returns an array whose [lengths()] is [chr_lengths], whose [len] is the
    number of strands times the total length, which contains exactly the
    chromosomes of [chr_lengths], and which holds 0 at every position of
    every strand, with normalization off and no sum cached. *)
Theorem init_lengths_roundtrip (chr_lengths : gmap string Z) strands min_size :
  default _DEFAULT_STRANDS strands <> [] ->
  (forall c l, chr_lengths !! c = Some l -> 0 <= l) ->
  exists ga,
    __init__ (Some (Some <$> chr_lengths)) strands min_size = returns ga /\
    lengths ga = returns (chr_lengths, ga) /\
    __len__ ga =
      returns (len (default _DEFAULT_STRANDS strands)
               * foldl Z.add 0 (map_to_list chr_lengths).*2, ga) /\
    (forall c, __contains__ c ga = bool_decide (is_Some (chr_lengths !! c))) /\
    (forall c l s p,
        chr_lengths !! c = Some l -> s ∈ default _DEFAULT_STRANDS strands ->
        0 <= p < l -> stored ga c s p = Some 0%float) /\
    GenomeArray.strands ga = default _DEFAULT_STRANDS strands /\
    _normalize ga = false /\ _sum ga = None /\ min_chr_size ga = min_size.
Proof.
  intros HS Hpos. eexists. split.
  - apply init_spec. intros c l. rewrite lookup_fmap.
    destruct (chr_lengths !! c) as [l'|] eqn:Hl; cbn; [|discriminate].
    intros [= <-]. apply (Hpos c l' Hl).
  - pose proof (lengths_fresh (default _DEFAULT_STRANDS strands) chr_lengths
                  min_size None false HS Hpos) as Hlen.
    split; [exact Hlen|]. split; [apply (len_spec _ _ Hlen)|].
    split; [|split; [|repeat split]].
    + intros c. unfold __contains__. cbn [_chroms].
      apply bool_decide_ext. rewrite fresh_chroms_lookup, lookup_fmap.
      destruct (chr_lengths !! c); cbn; split; intros [x Hx];
        try discriminate; eauto.
    + intros c l s p. apply stored_fresh.
Qed.

Lemma init_lengths_roundtrip_witness :
  exists ga,
    __init__ (Some (Some <$> ({[ "chrI"%string := 3 ]} : gmap string Z))) None 10
    = returns ga /\
    lengths ga = returns ({[ "chrI"%string := 3 ]}, ga) /\
    __len__ ga = returns (6, ga) /\
    stored ga "chrI" Minus 2 = Some 0%float.
Proof.
  destruct (init_lengths_roundtrip {[ "chrI"%string := 3 ]} None 10)
    as (ga & Hi & Hl & Hn & _ & Hz & _).
  - discriminate.
  - intros c l Hc. apply lookup_singleton_Some in Hc as [_ <-]. lia.
  - exists ga. split; [exact Hi|]. split; [exact Hl|]. split; [exact Hn|].
    apply (Hz "chrI"%string 3).
    + reflexivity.
    + right. left.
    + lia.
Defined.

Lemma dense_buffers l c d :
  _chroms (dense l) !! c = Some d ->
  exists buf, d = {[ Plus := buf; Minus := buf ]}.
Proof.
  unfold dense. cbn [_chroms]. intros Hc.
  apply elem_of_list_to_map_2 in Hc.
  apply list_elem_of_fmap in Hc as ([c' buf] & Heq & _).
  injection Heq as _ ->. eauto.
Qed.

Lemma dense_complete l : complete (dense l).
Proof.
  intros c d s Hc Hs. apply dense_buffers in Hc as [buf ->].
  change (s ∈ [Plus; Minus]) in Hs.
  apply elem_of_cons in Hs as [->|Hs]; [eexists; reflexivity|].
  apply elem_of_cons in Hs as [->|Hs]; [eexists; reflexivity|].
  inversion Hs.
Qed.

(** X5. [GenomeArray.like(other)] has the dimensions of [other] and none of
    its contents or settings: the same strands, the same [lengths()], zeros
    everywhere, normalization off, no sum, and the default minimum
    chromosome size [MIN_CHR_SIZE] whatever that of [other]. *)
Theorem like_same_dimensions other :
  complete other -> strands other <> [] ->
  exists new ls,
    like other = returns new /\
    lengths other = returns (ls, other) /\
    lengths new = returns (ls, new) /\
    strands new = strands other /\
    (forall c l s p,
        ls !! c = Some l -> s ∈ strands other -> 0 <= p < l ->
        stored new c s p = Some 0%float) /\
    _normalize new = false /\ _sum new = None /\ min_chr_size new = MIN_CHR_SIZE.
Proof.
  intros Hc HS. eexists _, _. split; [apply (like_spec other Hc HS)|].
  split; [apply (lengths_spec other Hc HS)|].
  assert (Hpos : forall c l,
             (chrom_len (strands other) <$> _chroms other) !! c = Some l -> 0 <= l).
  { intros c l. rewrite lookup_fmap. destruct (_chroms other !! c); cbn; [|discriminate].
    intros [= <-]. apply chrom_len_nonneg. }
  split; [apply (lengths_fresh _ _ _ _ _ HS Hpos)|].
  split; [reflexivity|]. split; [|repeat split].
  intros c l s p. apply stored_fresh.
Qed.

Lemma like_same_dimensions_witness :
  exists new,
    like (with_normalize true chrI) = returns new /\
    lengths new = returns ({[ "chrI"%string := 3 ]}, new) /\
    _normalize new = false.
Proof.
  destruct (like_same_dimensions (with_normalize true chrI))
    as (new & ls & Hlike & Hl & Hn & _ & _ & Hnorm & _).
  - apply (dense_complete [("chrI"%string, [1; 0; 2]%float)]).
  - discriminate.
  - exists new. split; [exact Hlike|]. split; [|exact Hnorm].
    assert (ls = {[ "chrI"%string := 3 ]}) as <-; [|exact Hn].
    assert (Hl' : lengths (with_normalize true chrI)
                  = returns ({[ "chrI"%string := 3 ]}, with_normalize true chrI))
      by (vm_compute; reflexivity).
    rewrite Hl' in Hl. injection Hl as <-. reflexivity.
Defined.

(** * Growth of a chromosome *)

Section Growth.
Context `{NumpySum}.

Lemma length_resize buf n : 0 <= n -> length (resize buf n) = Z.to_nat n.
Proof.
  intros Hn. unfold resize. rewrite length_app, length_take, length_replicate. lia.
Qed.

Lemma resize_resize buf n : 0 <= n -> resize (resize buf n) n = resize buf n.
Proof.
  intros Hn. unfold resize at 1. rewrite length_resize by exact Hn.
  rewrite Nat.sub_diag. cbn [replicate]. rewrite app_nil_r.
  apply take_ge. rewrite length_resize by exact Hn. lia.
Qed.

Lemma resize_longer buf n :
  len buf <= n -> resize buf n = buf ++ replicate (Z.to_nat (n - len buf)) 0%float.
Proof.
  intros Hn. unfold resize, len in *. rewrite take_ge by lia.
  f_equal. f_equal. lia.
Qed.

Lemma resized_lookup l n : forall d s,
  0 <= n ->
  resized l n d !! s =
  if decide (s ∈ l) then (fun b => resize b n) <$> d !! s else d !! s.
Proof.
  induction l as [|x l IH]; intros d s Hn; cbn [resized foldl].
  - destruct (decide (s ∈ [])) as [Hin|_]; [inversion Hin|reflexivity].
  - change (foldl _ ?d0 l) with (resized l n d0). rewrite IH by exact Hn.
    destruct (d !! x) as [b|] eqn:Hx.
    + destruct (decide (x = s)) as [->|Hne].
      * rewrite lookup_insert_eq, Hx. cbn.
        destruct (decide (s ∈ s :: l)) as [_|Hn']; [|exfalso; apply Hn'; left].
        destruct (decide (s ∈ l)); cbn; [rewrite resize_resize by exact Hn|];
          reflexivity.
      * rewrite lookup_insert_ne by exact Hne.
        destruct (decide (s ∈ l)) as [Hin|Hnin].
        -- destruct (decide (s ∈ x :: l)) as [_|Hn']; [reflexivity|].
           exfalso. apply Hn'. right. exact Hin.
        -- destruct (decide (s ∈ x :: l)) as [Hin|_]; [|reflexivity].
           apply elem_of_cons in Hin as [->|Hin]; [congruence|contradiction].
    + destruct (decide (s ∈ l)) as [Hin|Hnin].
      * destruct (decide (s ∈ x :: l)) as [_|Hn']; [reflexivity|].
        exfalso. apply Hn'. right. exact Hin.
      * destruct (decide (s ∈ x :: l)) as [Hin|_]; [|reflexivity].
        apply elem_of_cons in Hin as [->|Hin]; [|contradiction].
        rewrite Hx. reflexivity.
Qed.

Lemma grow_strands c n l : forall ga d,
  _chroms ga !! c = Some d -> (forall s, s ∈ l -> is_Some (d !! s)) ->
  for_each l (fun my_strand =>
                new_strand ← buffer c my_strand;
                store_buffer c my_strand (resize new_strand n)) ga =
  returns (tt, with_chroms (<[c := resized l n d]> (_chroms ga)) ga).
Proof.
  induction l as [|x l IH]; intros ga d Hc Hall.
  - cbn [for_each resized foldl]. rewrite run_ret.
    rewrite insert_id by exact Hc. destruct ga; reflexivity.
  - destruct (Hall x) as [b Hb]; [left|].
    cbn [for_each]. rewrite run_bind, run_bind.
    rewrite (buffer_found _ _ _ _ _ Hc Hb), obind_returns; cbv beta iota.
    rewrite (store_buffer_found _ _ _ _ _ Hc), obind_returns; cbv beta iota.
    rewrite (IH _ (<[x := resize b n]> d)).
    + cbn [with_chroms _chroms _strands min_chr_size _sum _normalize].
      rewrite insert_insert_eq. cbn [resized foldl]. rewrite Hb. reflexivity.
    + cbn [with_chroms _chroms]. apply lookup_insert_eq.
    + intros s Hs. destruct (decide (x = s)) as [->|Hne].
      * rewrite lookup_insert_eq. eauto.
      * rewrite lookup_insert_ne by exact Hne. apply Hall. right. exact Hs.
Qed.

Lemma grow_spec ga c s e d buf :
  _chroms ga !! c = Some d -> d !! s = Some buf ->
  (forall s', s' ∈ strands ga -> is_Some (d !! s')) ->
  grow c s e ga = returns (tt, grown ga c (Z.max (len buf + 10000) (e + 10000))).
Proof.
  intros Hc Hs Hall. unfold grow.
  rewrite run_bind, (buffer_found _ _ _ _ _ Hc Hs), obind_returns; cbv beta iota zeta.
  rewrite run_bind, run_get, obind_returns; cbv beta iota.
  rewrite (grow_strands _ _ _ _ d Hc Hall). unfold grown. rewrite Hc. reflexivity.
Qed.

Lemma make_room_grows ga c s e d buf :
  _chroms ga !! c = Some d -> d !! s = Some buf ->
  (forall s', s' ∈ strands ga -> is_Some (d !! s')) ->
  len buf <= e ->
  make_room c s e ga = returns (tt, grown ga c (Z.max (len buf + 10000) (e + 10000))).
Proof.
  intros Hc Hs Hall He. unfold make_room, try_except.
  rewrite run_bind, (buffer_found _ _ _ _ _ Hc Hs), obind_returns; cbv beta iota.
  destruct (Z.ltb_spec e (len buf)); [lia|].
  unfold throw. rewrite run_lift, obind_raise. cbn [result raise warnings app].
  rewrite (grow_spec _ _ _ _ _ _ Hc Hs Hall). reflexivity.
Qed.

Lemma grown_lookup ga c n d s buf :
  _chroms ga !! c = Some d -> d !! s = Some buf -> s ∈ strands ga -> 0 <= n ->
  exists d', _chroms (grown ga c n) !! c = Some d' /\ d' !! s = Some (resize buf n).
Proof.
  intros Hc Hs Hin Hn. eexists. split.
  - unfold grown. cbn [with_chroms _chroms]. apply lookup_insert_eq.
  - rewrite Hc. cbn [from_option id]. rewrite resized_lookup by exact Hn.
    destruct (decide (s ∈ strands ga)); [|contradiction]. rewrite Hs. reflexivity.
Qed.

End Growth.

Section BeyondTheEnd.
Context `{NumpySum}.

Lemma buffer_len_found ga c s d buf :
  _chroms ga !! c = Some d -> d !! s = Some buf -> buffer_len ga c s = Some (len buf).
Proof. intros Hc Hs. unfold buffer_len. rewrite Hc; cbn. rewrite Hs. reflexivity. Qed.

Lemma len_resize buf n : 0 <= n -> len (resize buf n) = n.
Proof. intros Hn. unfold len. rewrite length_resize by exact Hn. lia. Qed.

Lemma lookup_padded (buf : list float) k i :
  (i < length buf + k)%nat ->
  (buf ++ replicate k 0%float) !! i = Some (default 0%float (buf !! i)).
Proof.
  intros Hi. destruct (decide (i < length buf)%nat) as [Hlt|Hge].
  - rewrite lookup_app_l by exact Hlt.
    destruct (lookup_lt_is_Some_2 buf i Hlt) as [y Hy]. rewrite Hy. reflexivity.
  - rewrite lookup_app_r by lia. rewrite lookup_replicate_2 by lia.
    rewrite (lookup_ge_None_2 buf i) by lia. reflexivity.
Qed.

(** X6. Reading a segment that ends at or beyond the end of its buffer grows
    every strand of the chromosome to [max(len + 10000, end + 10000)]
    positions, and returns the stored values followed by zeros. *)
Theorem getitem_beyond_the_end ga roi order d buf :
  _normalize ga = false ->
  _chroms ga !! chrom roi = Some d -> d !! strand roi = Some buf ->
  (forall s, s ∈ strands ga -> is_Some (d !! s)) ->
  strand roi ∈ strands ga ->
  0 <= start roi <= end_ roi -> len buf <= end_ roi ->
  let n := Z.max (len buf + 10000) (end_ roi + 10000) in
  let padded := buf ++ replicate (Z.to_nat (n - len buf)) 0%float in
  __getitem__ roi order ga =
    returns (if order && bool_decide (strand roi = Minus)
             then reverse (slice padded (start roi) (end_ roi))
             else slice padded (start roi) (end_ roi),
             grown ga (chrom roi) n) /\
  len (slice padded (start roi) (end_ roi)) = seg_len roi /\
  (forall i, 0 <= i < seg_len roi ->
     slice padded (start roi) (end_ roi) !! Z.to_nat i =
     Some (default 0%float (buf !! Z.to_nat (start roi + i)))) /\
  (forall s, s ∈ strands ga ->
     buffer_len (grown ga (chrom roi) n) (chrom roi) s = Some n).
Proof.
  intros Hn Hc Hs Hall Hin Hse He n padded.
  assert (Hn0 : 0 <= n) by (unfold len in *; lia).
  assert (Hpad : resize buf n = padded) by (apply resize_longer; lia).
  assert (Hlen : len padded = n) by (rewrite <- Hpad; apply len_resize, Hn0).
  split; [|split; [|split]].
  - unfold __getitem__; cbv zeta.
    rewrite run_bind, (make_room_grows _ _ _ _ _ _ Hc Hs Hall He), obind_returns.
    cbv beta iota. fold n.
    destruct (grown_lookup ga (chrom roi) n d (strand roi) buf Hc Hs Hin Hn0)
      as (d' & Hc' & Hs').
    rewrite run_bind, (buffer_found _ _ _ _ _ Hc' Hs'), obind_returns.
    cbv beta iota.
    rewrite run_bind, run_get, obind_returns. cbv beta iota.
    cbn [grown with_chroms _normalize]. rewrite Hn, Hpad. reflexivity.
  - apply slice_length; [exact Hse|lia].
  - intros i Hi. unfold seg_len in Hi. rewrite slice_lookup by lia.
    apply lookup_padded. unfold len in *. subst padded. lia.
  - intros s Hs0. destruct (Hall s Hs0) as [b Hb].
    destruct (grown_lookup ga (chrom roi) n d s b Hc Hb Hs0 Hn0) as (d' & Hc' & Hs').
    rewrite (buffer_len_found _ _ _ _ _ Hc' Hs'). f_equal. apply len_resize, Hn0.
Qed.

(** X7. Writing then reading a segment gives back what was written also
    when the segment ends beyond its buffer, which the write then grows. *)
Theorem roundtrip_with_growth ga iv val new d buf :
  _normalize ga = false ->
  _chroms ga !! chrom iv = Some d -> d !! strand iv = Some buf ->
  (forall s, s ∈ strands ga -> is_Some (d !! s)) ->
  strand iv ∈ strands ga ->
  0 <= start iv <= end_ iv -> len buf <= end_ iv ->
  broadcast (Z.to_nat (seg_len iv)) val = Some new ->
  answer ((__setitem__ iv val true ≫= fun _ => __getitem__ iv true) ga) = inr new.
Proof.
  intros Hn Hc Hs Hall Hin Hse He Hb.
  set (n := Z.max (len buf + 10000) (end_ iv + 10000)).
  assert (Hn0 : 0 <= n) by (unfold len in *; lia).
  set (ga2 := with_normalize false (with_sum None ga)).
  destruct (grown_lookup ga2 (chrom iv) n d (strand iv) buf Hc Hs Hin Hn0)
    as (d' & Hc' & Hs').
  apply (set_then_get_with_room ga iv val (grown ga2 (chrom iv) n) d' (resize buf n) new Hn);
    try assumption.
  - apply (make_room_grows ga2 _ _ _ d buf); assumption.
  - rewrite len_resize by exact Hn0. lia.
Qed.

End BeyondTheEnd.

Lemma getitem_beyond_the_end_witness :
  answer (__getitem__ (Segment "chrI" 1 5 Plus) true chrI) = inr [0; 2; 0; 0]%float.
Proof.
  pose proof (getitem_beyond_the_end chrI (Segment "chrI" 1 5 Plus) true
                {[ Plus := [1; 0; 2]%float; Minus := [1; 0; 2]%float ]}
                [1; 0; 2]%float) as Hg.
  cbv zeta in Hg. destruct Hg as (Hg & _).
  - reflexivity.
  - vm_compute. reflexivity.
  - vm_compute. reflexivity.
  - intros s Hs0.
    apply (dense_complete [("chrI"%string, [1; 0; 2]%float)] "chrI"%string _ s);
      [vm_compute; reflexivity|exact Hs0].
  - left.
  - cbn. lia.
  - vm_compute. discriminate.
  - rewrite Hg. vm_compute. reflexivity.
Defined.

Lemma roundtrip_with_growth_witness :
  answer ((__setitem__ (Segment "chrI" 100 105 Minus) (Vector [1; 2; 3; 4; 5]%float) true
           ≫= fun _ => __getitem__ (Segment "chrI" 100 105 Minus) true) chrI)
  = inr [1; 2; 3; 4; 5]%float.
Proof.
  apply (roundtrip_with_growth chrI (Segment "chrI" 100 105 Minus)
           (Vector [1; 2; 3; 4; 5]%float) [1; 2; 3; 4; 5]%float
           {[ Plus := [1; 0; 2]%float; Minus := [1; 0; 2]%float ]} [1; 0; 2]%float).
  - reflexivity.
  - vm_compute. reflexivity.
  - vm_compute. reflexivity.
  - intros s Hs0.
    apply (dense_complete [("chrI"%string, [1; 0; 2]%float)] "chrI"%string _ s);
      [vm_compute; reflexivity|exact Hs0].
  - right. left.
  - cbn. lia.
  - vm_compute. discriminate.
  - vm_compute. reflexivity.
Defined.

(** * What reads and writes preserve *)

Section Invariants.
Context `{NumpySum}.

Lemma stored_Some ga c s p v :
  stored ga c s p = Some v <->
  exists d buf, _chroms ga !! c = Some d /\ d !! s = Some buf /\ 0 <= p /\
                buf !! Z.to_nat p = Some v.
Proof.
  unfold stored. split.
  - destruct (_chroms ga !! c) as [d|]; cbn; [|discriminate].
    destruct (d !! s) as [buf|] eqn:Hs; cbn; [|discriminate].
    destruct (Z.ltb_spec p 0); [discriminate|]. intros Hv.
    exists d, buf. repeat split; assumption.
  - intros (d & buf & -> & Hs & Hp & Hv). cbn. rewrite Hs. cbn.
    destruct (Z.ltb_spec p 0); [lia|exact Hv].
Qed.

Lemma fresh_strands_lookup_inv l z : forall d s b,
  fresh_strands l z d !! s = Some b -> (s ∈ l /\ b = z) \/ d !! s = Some b.
Proof.
  induction l as [|x l IH]; intros d s b Hb; cbn [fresh_strands foldl] in Hb.
  - right. exact Hb.
  - apply IH in Hb as [[Hin ->]|Hb].
    + left. split; [right; exact Hin|reflexivity].
    + destruct (decide (x = s)) as [->|Hne].
      * rewrite lookup_insert_eq in Hb. injection Hb as <-. left. split; [left|reflexivity].
      * rewrite lookup_insert_ne in Hb by exact Hne. right. exact Hb.
Qed.

Lemma rectangular_ext ga ga' :
  _chroms ga' = _chroms ga -> strands ga' = strands ga ->
  rectangular ga -> rectangular ga'.
Proof. intros Hc Hs Hr c d. rewrite Hc, Hs. apply Hr. Qed.

Lemma extends_refl ga : extends ga ga.
Proof. intros c s p v Hv. exact Hv. Qed.

Lemma extends_ext ga ga' ga'' :
  _chroms ga'' = _chroms ga' -> extends ga ga' -> extends ga ga''.
Proof.
  intros Hc He c s p v Hv. apply He in Hv. unfold stored in *. rewrite Hc. exact Hv.
Qed.

Lemma extends_trans ga ga' ga'' : extends ga ga' -> extends ga' ga'' -> extends ga ga''.
Proof. intros H1 H2 c s p v Hv. apply H2, H1, Hv. Qed.

Lemma allocated_rectangular ga c :
  rectangular ga -> rectangular (allocated ga c).
Proof.
  intros Hr c' d'. unfold allocated. cbn [with_chroms _chroms strands _strands].
  destruct (decide (c = c')) as [<-|Hne].
  - rewrite lookup_insert_eq. intros [= <-]. split.
    + intros s. split.
      * intros [b Hb]. apply fresh_strands_lookup_inv in Hb as [[Hin _]|Hb]; [exact Hin|].
        rewrite lookup_empty in Hb. discriminate.
      * intros Hin. eexists. apply fresh_strands_lookup. left. exact Hin.
    + exists (len (replicate (Z.to_nat (min_chr_size ga)) 0%float)).
      intros s b Hb. apply fresh_strands_lookup_inv in Hb as [[_ ->]|Hb]; [reflexivity|].
      rewrite lookup_empty in Hb. discriminate.
  - rewrite lookup_insert_ne by exact Hne. apply Hr.
Qed.

Lemma allocated_extends ga c :
  _chroms ga !! c = None -> extends ga (allocated ga c).
Proof.
  intros Hc c' s p v Hv. apply stored_Some in Hv as (d & buf & Hc' & Hs & Hp & Hv).
  apply stored_Some. exists d, buf. split; [|eauto].
  unfold allocated. cbn [with_chroms _chroms].
  rewrite lookup_insert_ne by congruence. exact Hc'.
Qed.

Lemma grown_rectangular ga c n d :
  rectangular ga -> _chroms ga !! c = Some d -> 0 <= n -> rectangular (grown ga c n).
Proof.
  intros Hr Hc Hn c' d'. unfold grown. cbn [with_chroms _chroms strands _strands].
  rewrite Hc. cbn [from_option id].
  destruct (decide (c = c')) as [<-|Hne].
  - rewrite lookup_insert_eq. intros [= <-].
    destruct (Hr c d Hc) as [Hkeys _]. split.
    + intros s. rewrite resized_lookup by exact Hn.
      destruct (decide (s ∈ strands ga)); [|apply Hkeys].
      rewrite fmap_is_Some. apply Hkeys.
    + exists n. intros s b. rewrite resized_lookup by exact Hn.
      destruct (decide (s ∈ strands ga)) as [Hin|Hnin].
      * destruct (d !! s) as [b0|]; cbn; [|discriminate]. intros [= <-].
        apply len_resize, Hn.
      * intros Hb. exfalso. apply Hnin, Hkeys. eauto.
  - rewrite lookup_insert_ne by exact Hne. apply Hr.
Qed.

Lemma grown_extends ga c n d m :
  rectangular ga -> _chroms ga !! c = Some d ->
  (forall s buf, d !! s = Some buf -> len buf = m) -> m <= n ->
  extends ga (grown ga c n).
Proof.
  intros Hr Hc Hm Hn c' s p v Hv.
  apply stored_Some in Hv as (d0 & buf & Hc' & Hs & Hp & Hv).
  apply stored_Some. unfold grown. cbn [with_chroms _chroms]. rewrite Hc.
  cbn [from_option id].
  destruct (decide (c = c')) as [<-|Hne].
  - rewrite Hc in Hc'. injection Hc' as <-.
    exists (resized (strands ga) n d), (resize buf n).
    split; [apply lookup_insert_eq|]. split; [|split; [exact Hp|]].
    + assert (H0 : 0 <= n) by (rewrite <- (Hm s buf Hs) in Hn; unfold len in Hn; lia).
      rewrite resized_lookup by exact H0.
      destruct (Hr c d Hc) as [Hkeys _].
      destruct (decide (s ∈ strands ga)) as [_|Hnin]; [rewrite Hs; reflexivity|].
      exfalso. apply Hnin, Hkeys. eauto.
    + rewrite resize_longer by (rewrite (Hm s buf Hs); exact Hn).
      rewrite lookup_app_l by (apply lookup_lt_Some in Hv; exact Hv). exact Hv.
  - exists d0, buf. split; [|eauto]. rewrite lookup_insert_ne by exact Hne. exact Hc'.
Qed.

Lemma allocate_negative ga c s :
  _chroms ga !! c = None -> s ∈ strands ga -> min_chr_size ga < 0 ->
  result (allocate c s ga) = inl ValueError.
Proof.
  intros Hc Hs Hn. unfold allocate.
  rewrite run_bind, run_get, obind_returns; cbv beta iota.
  destruct (decide (s ∈ strands ga)) as [_|Hne]; [|contradiction].
  rewrite Hc. rewrite run_bind. unfold new_chrom at 1.
  rewrite obind_returns; cbv beta iota.
  destruct (strands ga) as [|x l]; [inversion Hs|].
  cbn [for_each]. rewrite run_bind, run_lift_bind.
  unfold zeros. destruct (Z.ltb_spec (min_chr_size ga) 0); [|lia].
  reflexivity.
Qed.

(** What [make_room] leaves when it returns. *)
Lemma make_room_inv ga c s e w ga' :
  rectangular ga ->
  make_room c s e ga = Outcome w (inr (tt, ga')) ->
  rectangular ga' /\ extends ga ga' /\
  strands ga' = strands ga /\ _normalize ga' = _normalize ga /\
  _sum ga' = _sum ga /\
  exists d buf, _chroms ga' !! c = Some d /\ d !! s = Some buf.
Proof.
  intros Hr Hrun.
  destruct (_chroms ga !! c) as [d|] eqn:Hc.
  - destruct (Hr c d Hc) as [Hkeys [m Hm]].
    destruct (d !! s) as [buf|] eqn:Hs.
    + assert (Hall : forall s', s' ∈ strands ga -> is_Some (d !! s'))
        by (intros s'; apply Hkeys).
      assert (Hin : s ∈ strands ga) by (apply Hkeys; eauto).
      destruct (Z.lt_ge_cases e (len buf)) as [Hlt|Hge].
      * rewrite (make_room_fits _ _ _ _ _ _ Hc Hs Hlt) in Hrun.
        injection Hrun as _ <-.
        split; [exact Hr|]. split; [apply extends_refl|]. eauto 10.
      * rewrite (make_room_grows _ _ _ _ _ _ Hc Hs Hall Hge) in Hrun.
        injection Hrun as _ <-.
        set (n := Z.max (len buf + 10000) (e + 10000)).
        assert (Hn0 : 0 <= n) by (unfold len in *; lia).
        split; [apply (grown_rectangular _ _ _ d Hr Hc Hn0)|].
        split; [apply (grown_extends _ _ _ d m Hr Hc Hm);
                rewrite <- (Hm s buf Hs); lia|].
        split; [reflexivity|]. split; [reflexivity|]. split; [reflexivity|].
        destruct (grown_lookup ga c n d s buf Hc Hs Hin Hn0) as (d' & Hc' & Hs').
        eauto.
    + exfalso. revert Hrun. unfold make_room, try_except.
      rewrite run_bind. unfold buffer at 1 2. rewrite Hc, Hs.
      rewrite obind_raise. cbn [result raise warnings app].
      unfold allocate. rewrite run_bind, run_get, obind_returns; cbv beta iota.
      destruct (decide (s ∈ strands ga)) as [Hin|_]; [|discriminate].
      apply Hkeys in Hin as [b Hb]. congruence.
  - revert Hrun. unfold make_room, try_except.
    rewrite run_bind. unfold buffer at 1 2. rewrite Hc.
    rewrite obind_raise. cbn [result raise warnings app].
    destruct (decide (s ∈ strands ga)) as [Hin|Hnin].
    + destruct (Z.lt_ge_cases (min_chr_size ga) 0) as [Hneg|Hpos].
      * pose proof (allocate_negative ga c s Hc Hin Hneg) as Hv.
        destruct (allocate c s ga) as [w0 r0]. cbn in Hv. subst r0. discriminate.
      * rewrite (allocate_new _ _ _ Hc Hin Hpos). cbn [result warnings returns].
        intros [= _ <-].
        split; [apply allocated_rectangular, Hr|].
        split; [apply allocated_extends, Hc|].
        split; [reflexivity|]. split; [reflexivity|]. split; [reflexivity|].
        eexists _, _. split.
        -- unfold allocated. cbn [with_chroms _chroms]. apply lookup_insert_eq.
        -- apply fresh_strands_lookup. left. exact Hin.
    + unfold allocate. rewrite run_bind, run_get, obind_returns; cbv beta iota.
      destruct (decide (s ∈ strands ga)) as [Hin|_]; [contradiction|discriminate].
Qed.

Lemma sum_inv ga w s ga' :
  sum ga = Outcome w (inr (s, ga')) ->
  _chroms ga' = _chroms ga /\ strands ga' = strands ga.
Proof.
  rewrite sum_spec. destruct (_sum ga).
  - intros [= _ _ <-]. split; reflexivity.
  - destruct (yielded ga); [|discriminate]. intros [= _ _ <-]. split; reflexivity.
Qed.

Lemma getitem_inv ga roi order w vals ga' :
  rectangular ga ->
  __getitem__ roi order ga = Outcome w (inr (vals, ga')) ->
  rectangular ga' /\ extends ga ga'.
Proof.
  intros Hr. unfold __getitem__; cbv zeta. intros Hrun.
  apply run_bind_inv in Hrun as (w1 & [] & ga1 & w2 & Hroom & Hrun & _).
  apply (make_room_inv _ _ _ _ _ _ Hr) in Hroom as (Hr1 & He1 & _).
  apply run_bind_inv in Hrun as (w3 & buf & ga2 & w4 & Hbuf & Hrun & _).
  apply buffer_inv in Hbuf as (-> & _ & _).
  apply run_bind_inv in Hrun as (w5 & ga3 & ga4 & w6 & Hget & Hrun & _).
  rewrite run_get in Hget. injection Hget as _ <- <-.
  apply run_bind_inv in Hrun as (w7 & vals' & ga5 & w8 & Hnorm & Hret & _).
  rewrite run_ret in Hret. injection Hret as _ _ <-.
  destruct (_normalize ga1).
  - apply run_bind_inv in Hnorm as (w9 & s & ga6 & w10 & Hsum & Hret & _).
    rewrite run_ret in Hret. injection Hret as _ _ <-.
    apply sum_inv in Hsum as [Hc Hs].
    split; [apply (rectangular_ext ga1); assumption|].
    apply (extends_ext ga ga1); assumption.
  - rewrite run_ret in Hnorm. injection Hnorm as _ _ <-. split; assumption.
Qed.

Lemma set_slice_inv buf lo hi val w new :
  set_slice buf lo hi val = Outcome w (inr new) ->
  length new = length buf /\
  (0 <= lo <= hi ->
   forall p, p < lo \/ hi <= p -> 0 <= p -> new !! Z.to_nat p = buf !! Z.to_nat p).
Proof.
  unfold set_slice. cbv zeta.
  set (lo' := Z.to_nat (slice_bound (len buf) lo)).
  set (hi' := Z.to_nat (slice_bound (len buf) hi)).
  destruct (broadcast (hi' - lo') val) as [bc|] eqn:Hb; [|discriminate].
  intros [= _ <-]. apply broadcast_length in Hb.
  assert (Hlo : (lo' <= length buf)%nat).
  { subst lo'. unfold slice_bound, len. destruct (Z.ltb_spec lo 0); lia. }
  assert (Hhi : (hi' <= length buf)%nat).
  { subst hi'. unfold slice_bound, len. destruct (Z.ltb_spec hi 0); lia. }
  split.
  - rewrite !length_app, length_take, length_drop, Hb. lia.
  - intros Hlh p Hp Hp0.
    assert (Hlo' : lo' = Z.to_nat (Z.min lo (len buf))).
    { subst lo'. unfold slice_bound. destruct (Z.ltb_spec lo 0); [lia|reflexivity]. }
    assert (Hhi' : hi' = Z.to_nat (Z.min hi (len buf))).
    { subst hi'. unfold slice_bound. destruct (Z.ltb_spec hi 0); [lia|reflexivity]. }
    unfold len in *.
    destruct (decide (Z.to_nat p < length buf)%nat) as [Hin|Hout].
    + destruct Hp as [Hp|Hp].
      * rewrite lookup_app_l by (rewrite length_take; lia).
        apply lookup_take_lt. lia.
      * rewrite lookup_app_r by (rewrite length_take; lia).
        rewrite lookup_app_r by (rewrite length_take, Hb; lia).
        rewrite lookup_drop. f_equal. rewrite length_take, Hb. lia.
    + rewrite (lookup_ge_None_2 buf) by lia.
      apply lookup_ge_None_2.
      rewrite !length_app, length_take, length_drop, Hb. lia.
Qed.

Lemma store_buffer_inv ga c s new w ga' :
  store_buffer c s new ga = Outcome w (inr (tt, ga')) ->
  exists d, _chroms ga !! c = Some d /\
            ga' = with_chroms (<[c := <[s := new]> d]> (_chroms ga)) ga.
Proof.
  unfold store_buffer. destruct (_chroms ga !! c) as [d|]; [|discriminate].
  intros [= _ <-]. eauto.
Qed.

Lemma setitem_inv ga seg val order w ga' :
  rectangular ga ->
  __setitem__ seg val order ga = Outcome w (inr (tt, ga')) ->
  rectangular ga' /\
  (0 <= start seg <= end_ seg ->
   forall c s p v,
     stored ga c s p = Some v ->
     c <> chrom seg \/ s <> strand seg \/ p < start seg \/ end_ seg <= p ->
     stored ga' c s p = Some v) /\
  _normalize ga' = _normalize ga /\ _sum ga' = None.
Proof.
  intros Hr. unfold __setitem__; cbv zeta. intros Hrun.
  apply run_bind_inv in Hrun as (w1 & ga0 & ga1 & w2 & Hget & Hrun & _).
  rewrite run_get in Hget. injection Hget as _ <- <-.
  apply run_bind_inv in Hrun as (w3 & [] & ga2 & w4 & Hput & Hrun & _).
  rewrite run_put in Hput. injection Hput as _ <-.
  apply run_bind_inv in Hrun as (w5 & [] & ga3 & w6 & Hwarn & Hrun & _).
  assert (ga3 = with_sum None ga) as ->.
  { destruct (_normalize ga).
    - unfold swarn in Hwarn. rewrite run_lift in Hwarn. cbn in Hwarn.
      injection Hwarn as _ <-. reflexivity.
    - rewrite run_ret in Hwarn. injection Hwarn as _ <-. reflexivity. }
  clear Hwarn.
  apply run_bind_inv in Hrun as (w7 & [] & ga4 & w8 & Hnorm & Hrun & _).
  rewrite run_set_normalize in Hnorm. injection Hnorm as _ <-.
  apply run_bind_inv in Hrun as (w9 & [] & ga5 & w10 & Hroom & Hrun & _).
  set (ga2 := with_normalize false (with_sum None ga)) in *.
  assert (Hr2 : rectangular ga2) by (apply (rectangular_ext ga); [reflexivity..|exact Hr]).
  apply (make_room_inv _ _ _ _ _ _ Hr2) in Hroom
    as (Hr5 & He5 & Hs5 & Hn5 & Hsum5 & _).
  apply run_bind_inv in Hrun as (w11 & buf & ga6 & w12 & Hbuf & Hrun & _).
  apply buffer_inv in Hbuf as (-> & _ & d & Hc & Hs).
  apply run_bind_inv in Hrun as (w13 & new & ga7 & w14 & Hset & Hrun & _).
  rewrite run_lift in Hset.
  apply obind_inv in Hset as (w15 & new' & w16 & Hset & Hret & _).
  injection Hret as _ -> <-.
  apply set_slice_inv in Hset as [Hlen Hout].
  apply run_bind_inv in Hrun as (w17 & [] & ga8 & w18 & Hstore & Hrun & _).
  apply store_buffer_inv in Hstore as (d' & Hc' & ->).
  rewrite Hc in Hc'. injection Hc' as <-.
  rewrite run_set_normalize in Hrun. injection Hrun as _ <-.
  destruct (Hr5 (chrom seg) d Hc) as [Hkeys [m Hm]].
  split; [|split; [|split]].
  - intros c0 d0. cbn [with_normalize with_chroms _chroms strands _strands].
    destruct (decide (chrom seg = c0)) as [<-|Hne].
    + rewrite lookup_insert_eq. intros [= <-]. split.
      * intros s0. rewrite <- Hkeys. destruct (decide (strand seg = s0)) as [<-|Hns].
        -- rewrite lookup_insert_eq, Hs. split; eauto.
        -- rewrite lookup_insert_ne by exact Hns. reflexivity.
      * exists m. intros s0 b. destruct (decide (strand seg = s0)) as [<-|Hns].
        -- rewrite lookup_insert_eq. intros [= <-]. unfold len. rewrite Hlen.
           apply (Hm _ _ Hs).
        -- rewrite lookup_insert_ne by exact Hns. apply Hm.
    + rewrite lookup_insert_ne by exact Hne. apply Hr5.
  - intros Hse c s p v Hv Hwhere.
    assert (Hv2 : stored ga2 c s p = Some v) by exact Hv.
    apply He5 in Hv2. apply stored_Some in Hv2 as (d0 & b0 & Hc0 & Hs0 & Hp & Hb0).
    apply stored_Some. cbn [with_normalize with_chroms _chroms].
    destruct (decide (chrom seg = c)) as [<-|Hne].
    + rewrite Hc in Hc0. injection Hc0 as <-.
      destruct (decide (strand seg = s)) as [<-|Hns].
      * rewrite Hs in Hs0. injection Hs0 as <-.
        exists (<[strand seg := new]> d), new.
        split; [apply lookup_insert_eq|]. split; [apply lookup_insert_eq|].
        split; [exact Hp|]. rewrite Hout; [exact Hb0|exact Hse| |exact Hp].
        destruct Hwhere as [Hw|[Hw|Hw]]; [congruence|congruence|exact Hw].
      * exists (<[strand seg := new]> d), b0.
        split; [apply lookup_insert_eq|]. rewrite lookup_insert_ne by exact Hns. eauto.
    + exists d0, b0. rewrite lookup_insert_ne by exact Hne. eauto.
  - cbn [with_normalize _normalize]. reflexivity.
  - cbn [with_normalize with_chroms _sum]. rewrite Hsum5. reflexivity.
Qed.

End Invariants.

Lemma for_each_inv {S A} (I : S -> Prop) (body : A -> State S unit) xs :
  (forall x s w s', x ∈ xs -> I s -> body x s = Outcome w (inr (tt, s')) -> I s') ->
  forall s w s', I s -> for_each xs body s = Outcome w (inr (tt, s')) -> I s'.
Proof.
  induction xs as [|x xs IH]; intros Hbody s w s' HI Hrun.
  - cbn in Hrun. injection Hrun as _ <-. exact HI.
  - cbn [for_each] in Hrun.
    apply run_bind_inv in Hrun as (w1 & [] & s1 & w2 & Hb & Hrun & _).
    apply (IH (fun y t w0 t' Hy => Hbody y t w0 t' (list_elem_of_further _ _ _ Hy))
              s1 w2 s'); [|exact Hrun].
    apply (Hbody x s w1 s1); [left|exact HI|exact Hb].
Qed.

Lemma dense_rectangular l : rectangular (dense l).
Proof.
  intros c d Hc. apply dense_buffers in Hc as [buf ->]. split.
  - intros s. change (strands (dense l)) with [Plus; Minus]. destruct s.
    + split; intros _; [left|exists buf; reflexivity].
    + split; intros _; [right; left|exists buf; reflexivity].
    + split.
      * intros [x Hx]. vm_compute in Hx. discriminate Hx.
      * intros Hs. apply elem_of_cons in Hs as [Hs|Hs]; [discriminate Hs|].
        apply elem_of_cons in Hs as [Hs|Hs]; [discriminate Hs|inversion Hs].
  - exists (len buf). intros s b Hb.
    destruct s; vm_compute in Hb; [congruence|congruence|discriminate Hb].
Qed.

Lemma fresh_rectangular S m mcs sm nz :
  rectangular (Make (fresh_chroms S m) S mcs sm nz).
Proof.
  intros c d Hc. cbn [_chroms] in Hc. rewrite fresh_chroms_lookup in Hc.
  destruct (m !! c) as [l|]; [|discriminate]. injection Hc as <-.
  cbn [strands _strands]. split.
  - intros s. split.
    + intros [b Hb]. apply fresh_strands_lookup_inv in Hb as [[Hin _]|Hb]; [exact Hin|].
      rewrite lookup_empty in Hb. discriminate.
    + intros Hin. eexists. apply fresh_strands_lookup. left. exact Hin.
  - exists (len (zeros_of l)). intros s b Hb.
    apply fresh_strands_lookup_inv in Hb as [[_ ->]|Hb]; [reflexivity|].
    rewrite lookup_empty in Hb. discriminate.
Qed.

Lemma zeros_cases l : zeros l = returns (zeros_of l) \/ zeros l = raise ValueError.
Proof.
  destruct l as [n|]; [|left; reflexivity]. unfold zeros.
  destruct (n <? 0); [right|left]; reflexivity.
Qed.

(** The strands that the constructor loops over are those of the array. *)
Lemma init_rectangular chr_lengths strands0 mcs w ga :
  __init__ chr_lengths strands0 mcs = Outcome w (inr ga) -> rectangular ga.
Proof.
  unfold __init__. cbv zeta. set (S := default _DEFAULT_STRANDS strands0).
  destruct chr_lengths as [m|].
  - change (mbind ?f ?c) with (obind f c). intros Hrun.
    apply obind_inv in Hrun as (w1 & [[] ga1] & w2 & Hloop & Hret & _).
    injection Hret as _ <-.
    refine (proj1 (for_each_inv (fun s => rectangular s /\ GenomeArray.strands s = S)
                     _ _ _ _ _ _ _ Hloop)).
    + intros [c l] s w0 s' _ [Hr HS] Hbody.
      apply run_bind_inv in Hbody as (w3 & [] & s1 & w4 & Hnew & Hbody & _).
      unfold new_chrom in Hnew. injection Hnew as _ <-.
      destruct (zeros_cases l) as [Hz|Hz].
      * rewrite (init_strands c l (zeros_of l) _ _ ∅ Hz) in Hbody
          by (cbn [with_chroms _chroms]; apply lookup_insert_eq).
        injection Hbody as _ <-.
        cbn [with_chroms _chroms]. rewrite insert_insert_eq.
        split; [|exact HS].
        intros c' d'. cbn [with_chroms _chroms strands _strands].
        destruct (decide (c = c')) as [<-|Hne].
        -- rewrite lookup_insert_eq. intros [= <-]. unfold strands in HS.
           rewrite HS. split.
           ++ intros s0. split.
              ** intros [b Hb].
                 apply fresh_strands_lookup_inv in Hb as [[Hin _]|Hb]; [exact Hin|].
                 rewrite lookup_empty in Hb. discriminate.
              ** intros Hin. eexists. apply fresh_strands_lookup. left. exact Hin.
           ++ exists (len (zeros_of l)). intros s0 b Hb.
              apply fresh_strands_lookup_inv in Hb as [[_ ->]|Hb]; [reflexivity|].
              rewrite lookup_empty in Hb. discriminate.
        -- rewrite lookup_insert_ne by exact Hne. apply Hr.
      * destruct S as [|x S'] eqn:HS'.
        -- cbn in Hbody. injection Hbody as _ <-. split; [|exact HS].
           intros c' d'. cbn [with_chroms _chroms strands _strands].
           destruct (decide (c = c')) as [<-|Hne].
           ++ rewrite lookup_insert_eq. intros [= <-]. unfold strands in HS.
              rewrite HS. split.
              ** intros s0. rewrite lookup_empty, elem_of_nil. split; [|tauto].
                 intros [b Hb]. discriminate Hb.
              ** exists 0. intros s0 b Hb. rewrite lookup_empty in Hb. discriminate Hb.
           ++ rewrite lookup_insert_ne by exact Hne. apply Hr.
        -- exfalso. cbn [for_each] in Hbody.
           rewrite run_bind, run_lift_bind, Hz in Hbody. discriminate Hbody.
    + split; [|reflexivity]. intros c d Hc. cbn in Hc.
      rewrite lookup_empty in Hc. discriminate Hc.
  - intros [= _ <-]. intros c d Hc. cbn in Hc. rewrite lookup_empty in Hc.
    discriminate Hc.
Qed.

Section Preservation.
Context `{NumpySum}.

(** X8. A dense array is rectangular, and stays so: every chromosome has one
    buffer for each strand of the array and for no other, and the buffers of
    a chromosome have one length. The constructor returns such an array,
    and [__getitem__] and [__setitem__], which may allocate a chromosome or
    grow one, leave it such. *)
Theorem rectangular_is_invariant :
  (forall chr_lengths strands min_size w ga,
      __init__ chr_lengths strands min_size = Outcome w (inr ga) -> rectangular ga) /\
  (forall ga roi order w vals ga',
      rectangular ga ->
      __getitem__ roi order ga = Outcome w (inr (vals, ga')) -> rectangular ga') /\
  (forall ga seg val order w ga',
      rectangular ga ->
      __setitem__ seg val order ga = Outcome w (inr (tt, ga')) -> rectangular ga').
Proof.
  split; [|split].
  - intros chr_lengths strands min_size w ga. apply init_rectangular.
  - intros ga roi order w vals ga' Hr Hrun.
    apply (getitem_inv _ _ _ _ _ _ Hr Hrun).
  - intros ga seg val order w ga' Hr Hrun.
    apply (setitem_inv _ _ _ _ _ _ Hr Hrun).
Qed.

(** X9. Reading never loses data: whatever a rectangular array stores at a
    position before [__getitem__] returns, it stores there afterwards, also
    when the read allocated a chromosome or grew one. *)
Theorem getitem_keeps_contents ga roi order w vals ga' :
  rectangular ga ->
  __getitem__ roi order ga = Outcome w (inr (vals, ga')) ->
  forall c s p v, stored ga c s p = Some v -> stored ga' c s p = Some v.
Proof.
  intros Hr Hrun. apply (getitem_inv _ _ _ _ _ _ Hr Hrun).
Qed.

(** X10. An assignment changes its segment only: every value stored on
    another chromosome, on another strand, or at a position outside
    [start,end) is stored there afterwards. The assignment leaves the
    normalization flag as it was and no sum cached. *)
Theorem setitem_touches_only_its_segment ga seg val order w ga' :
  rectangular ga -> 0 <= start seg <= end_ seg ->
  __setitem__ seg val order ga = Outcome w (inr (tt, ga')) ->
  (forall c s p v,
      stored ga c s p = Some v ->
      c <> chrom seg \/ s <> strand seg \/ p < start seg \/ end_ seg <= p ->
      stored ga' c s p = Some v) /\
  _normalize ga' = _normalize ga /\ _sum ga' = None.
Proof.
  intros Hr Hse Hrun.
  destruct (setitem_inv _ _ _ _ _ _ Hr Hrun) as (_ & Hframe & Hn & Hs).
  split; [apply Hframe, Hse|]. split; assumption.
Qed.

(** X11. A strand that the array does not have is refused: on a rectangular
    array, reading or writing a segment on such a strand raises
    [AssertionError], whether or not the array has the chromosome. *)
Theorem unknown_strand_is_refused ga seg :
  rectangular ga -> strand seg ∉ strands ga ->
  forall order,
    answer (__getitem__ seg order ga) = inl AssertionError /\
    forall val, answer (__setitem__ seg val order ga) = inl AssertionError.
Proof.
  intros Hr Hs order.
  assert (Hroom : forall ga0, _chroms ga0 = _chroms ga -> strands ga0 = strands ga ->
                    make_room (chrom seg) (strand seg) (end_ seg) ga0 = raise AssertionError).
  { intros ga0 Hc0 Hs0. unfold make_room, try_except. rewrite run_bind.
    assert (Hb : buffer (chrom seg) (strand seg) ga0 = raise KeyError).
    { rewrite buffer_spec, Hc0. destruct (_chroms ga !! chrom seg) as [d|] eqn:Hc;
        cbn; [|reflexivity].
      destruct (d !! strand seg) as [b|] eqn:Hb; [|reflexivity].
      exfalso. apply Hs. apply (Hr _ _ Hc). eauto. }
    rewrite Hb, obind_raise. cbn [result raise warnings app].
    unfold allocate. rewrite run_bind, run_get, obind_returns; cbv beta iota.
    rewrite Hs0. destruct (decide (strand seg ∈ strands ga)); [contradiction|].
    reflexivity. }
  split.
  - unfold __getitem__; cbv zeta. rewrite run_bind, Hroom by reflexivity.
    reflexivity.
  - intros val. unfold __setitem__; cbv zeta.
    rewrite run_bind, run_get, obind_returns; cbv beta iota.
    rewrite run_bind, run_put, obind_returns; cbv beta iota.
    rewrite run_bind.
    assert (Hw : exists w0,
               (if _normalize ga then swarn DataWarning NormalizationOff else mret tt)
                 (with_sum None ga) = Outcome w0 (inr (tt, with_sum None ga))).
    { destruct (_normalize ga); eexists; reflexivity. }
    destruct Hw as [w0 ->]. unfold obind at 1. cbn [result warnings].
    rewrite run_bind, run_set_normalize, obind_returns; cbv beta iota.
    rewrite run_bind, Hroom by reflexivity. reflexivity.
Qed.

(** X12. How an assignment takes its value: a vector of one entry is spread
    over the segment as a scalar is, and a vector of any other length than
    the segment's is refused with [ValueError]. *)
Theorem assignment_broadcasts ga seg order d buf :
  _chroms ga !! chrom seg = Some d -> d !! strand seg = Some buf ->
  0 <= start seg <= end_ seg -> end_ seg < len buf ->
  (forall x, __setitem__ seg (Vector [x]) order ga = __setitem__ seg (Scalar x) order ga) /\
  (forall v, len v <> 1 -> len v <> seg_len seg ->
     answer (__setitem__ seg (Vector v) order ga) = inl ValueError).
Proof.
  intros Hc Hs Hse He. split.
  - intros x. unfold __setitem__; cbv zeta.
    assert (Hv : (if bool_decide (strand seg = Minus) && order
                  then reverse_values (Vector [x]) else Vector [x]) = Vector [x]).
    { destruct (bool_decide (strand seg = Minus) && order); reflexivity. }
    assert (Hx : (if bool_decide (strand seg = Minus) && order
                  then reverse_values (Scalar x) else Scalar x) = Scalar x).
    { destruct (bool_decide (strand seg = Minus) && order); reflexivity. }
    rewrite Hv, Hx. reflexivity.
  - intros v Hv1 Hvn. unfold __setitem__; cbv zeta.
    rewrite run_bind, run_get, obind_returns; cbv beta iota.
    rewrite run_bind, run_put, obind_returns; cbv beta iota.
    rewrite run_bind.
    assert (Hw : exists w0,
               (if _normalize ga then swarn DataWarning NormalizationOff else mret tt)
                 (with_sum None ga) = Outcome w0 (inr (tt, with_sum None ga))).
    { destruct (_normalize ga); eexists; reflexivity. }
    destruct Hw as [w0 ->]. unfold obind at 1. cbn [result warnings].
    rewrite run_bind, run_set_normalize, obind_returns; cbv beta iota.
    rewrite run_bind.
    rewrite (make_room_fits _ _ _ _ d buf) by assumption.
    rewrite obind_returns; cbv beta iota.
    rewrite run_bind, (buffer_found _ _ _ d buf) by assumption.
    rewrite obind_returns; cbv beta iota.
    rewrite run_bind, run_lift.
    assert (Hset : forall v', length v' = length v ->
              set_slice buf (start seg) (end_ seg) (Vector v') = raise ValueError).
    { intros v' Hl. unfold set_slice. cbv zeta.
      rewrite !slice_bound_id by lia.
      replace (Z.to_nat (end_ seg) - Z.to_nat (start seg))%nat
        with (Z.to_nat (end_ seg - start seg)) by lia.
      unfold len, seg_len in *. unfold broadcast.
      destruct v' as [|a [|b v']]; cbn in Hl.
      - destruct (decide (length (@nil float) = Z.to_nat (end_ seg - start seg)))
          as [E|_]; [cbn in E; lia|reflexivity].
      - lia.
      - destruct (decide (length (a :: b :: v') = Z.to_nat (end_ seg - start seg)))
          as [E|_]; [cbn in E; lia|reflexivity]. }
    destruct (bool_decide (strand seg = Minus) && order).
    + cbn [reverse_values]. rewrite Hset by apply length_reverse. reflexivity.
    + rewrite Hset by reflexivity. reflexivity.
Qed.

End Preservation.

Lemma rectangular_is_invariant_witness :
  exists w vals ga',
    __getitem__ (Segment "chrI" 1 5 Plus) true chrI = Outcome w (inr (vals, ga')) /\
    rectangular ga'.
Proof.
  destruct (__getitem__ (Segment "chrI" 1 5 Plus) true chrI) as [w [e|[vals ga']]] eqn:Hrun;
    [vm_compute in Hrun; discriminate Hrun|].
  exists w, vals, ga'. split; [reflexivity|].
  apply (proj1 (proj2 rectangular_is_invariant) chrI (Segment "chrI" 1 5 Plus) true
               w vals ga' (dense_rectangular [("chrI"%string, [1; 0; 2]%float)]) Hrun).
Defined.

Lemma getitem_keeps_contents_witness :
  exists w vals ga',
    __getitem__ (Segment "chrI" 1 5 Plus) true chrI = Outcome w (inr (vals, ga')) /\
    forall c s p v, stored chrI c s p = Some v -> stored ga' c s p = Some v.
Proof.
  destruct (__getitem__ (Segment "chrI" 1 5 Plus) true chrI) as [w [e|[vals ga']]] eqn:Hrun;
    [vm_compute in Hrun; discriminate Hrun|].
  exists w, vals, ga'. split; [reflexivity|].
  apply (getitem_keeps_contents chrI (Segment "chrI" 1 5 Plus) true w vals ga'
           (dense_rectangular [("chrI"%string, [1; 0; 2]%float)]) Hrun).
Defined.

Lemma setitem_touches_only_its_segment_witness :
  exists w ga',
    __setitem__ (Segment "chrI" 1 2 Plus) (Scalar 7%float) true chrI
    = Outcome w (inr (tt, ga')) /\
    (forall c s p v,
        stored chrI c s p = Some v ->
        c <> "chrI"%string \/ s <> Plus \/ p < 1 \/ 2 <= p ->
        stored ga' c s p = Some v) /\
    _normalize ga' = _normalize chrI /\ _sum ga' = None.
Proof.
  destruct (__setitem__ (Segment "chrI" 1 2 Plus) (Scalar 7%float) true chrI)
    as [w [e|[[] ga']]] eqn:Hrun; [vm_compute in Hrun; discriminate Hrun|].
  exists w, ga'. split; [reflexivity|].
  apply (setitem_touches_only_its_segment chrI (Segment "chrI" 1 2 Plus) (Scalar 7%float)
           true w ga' (dense_rectangular [("chrI"%string, [1; 0; 2]%float)]));
    [cbn; lia|exact Hrun].
Defined.

Lemma unknown_strand_is_refused_witness :
  answer (__getitem__ (Segment "chrI" 0 2 Unstranded) true chrI) = inl AssertionError /\
  answer (__setitem__ (Segment "chrIII" 0 2 Unstranded) (Scalar 1%float) true chrI)
  = inl AssertionError.
Proof.
  assert (Hs : Unstranded ∉ strands chrI).
  { intros Hin. change (Unstranded ∈ [Plus; Minus]) in Hin.
    apply elem_of_cons in Hin as [Hin|Hin]; [discriminate Hin|].
    apply elem_of_cons in Hin as [Hin|Hin]; [discriminate Hin|]. inversion Hin. }
  split.
  - apply (proj1 (unknown_strand_is_refused chrI (Segment "chrI" 0 2 Unstranded)
                    (dense_rectangular [("chrI"%string, [1; 0; 2]%float)]) Hs true)).
  - apply (proj2 (unknown_strand_is_refused chrI (Segment "chrIII" 0 2 Unstranded)
                    (dense_rectangular [("chrI"%string, [1; 0; 2]%float)]) Hs true)).
Defined.

Lemma assignment_broadcasts_witness :
  __setitem__ (Segment "chrI" 0 2 Plus) (Vector [7%float]) true chrI
  = __setitem__ (Segment "chrI" 0 2 Plus) (Scalar 7%float) true chrI /\
  answer (__setitem__ (Segment "chrI" 0 2 Plus) (Vector [1; 2; 3]%float) true chrI)
  = inl ValueError.
Proof.
  destruct (assignment_broadcasts chrI (Segment "chrI" 0 2 Plus) true
              {[ Plus := [1; 0; 2]%float; Minus := [1; 0; 2]%float ]} [1; 0; 2]%float)
    as [Hone Hbad]; [reflexivity|reflexivity|cbn; lia|unfold len; cbn; lia|].
  split; [apply Hone|]. apply Hbad; unfold len, seg_len; cbn; lia.
Defined.

(** * Positions of nonzero values *)

Lemma foldl_insert_keys' {K} `{Countable K} {W} (h : K -> W) (l : list K) :
  forall (m0 : gmap K W) c,
  foldl (fun m k => <[k := h k]> m) m0 l !! c =
  if decide (c ∈ l) then Some (h c) else m0 !! c.
Proof.
  induction l as [|k l IH]; intros m0 c; cbn [foldl].
  - destruct (decide (c ∈ [])) as [Hin|_]; [inversion Hin|reflexivity].
  - rewrite IH. destruct (decide (c ∈ l)) as [Hin|Hnin].
    + destruct (decide (c ∈ k :: l)) as [_|Hn]; [reflexivity|].
      exfalso. apply Hn. right. exact Hin.
    + destruct (decide (k = c)) as [->|Hne].
      * rewrite lookup_insert_eq.
        destruct (decide (c ∈ c :: l)) as [_|Hn]; [reflexivity|].
        exfalso. apply Hn. left.
      * rewrite lookup_insert_ne by exact Hne.
        destruct (decide (c ∈ k :: l)) as [Hin|_]; [|reflexivity].
        apply elem_of_cons in Hin as [->|Hin]; [congruence|contradiction].
Qed.

Lemma nonzero_from_sorted buf : forall i,
  StronglySorted Z.lt (nonzero_from i buf).
Proof.
  induction buf as [|x buf IH]; intros i; cbn [nonzero_from]; [constructor|].
  destruct (nonzerob x); [|apply IH].
  constructor; [apply IH|].
  apply Forall_forall. intros p Hp. apply elem_of_nonzero_from in Hp. lia.
Qed.

Lemma elem_of_np_nonzero buf p :
  p ∈ np_nonzero buf <->
  0 <= p /\ exists v, buf !! Z.to_nat p = Some v /\ nonzerob v = true.
Proof.
  unfold np_nonzero. rewrite elem_of_nonzero_from, Z.sub_0_r. reflexivity.
Qed.

Lemma nonzero_returns ga :
  complete ga ->
  nonzero ga = returns (nonzero_strands (strands ga) <$> _chroms ga, ga).
Proof.
  intros Hc. unfold nonzero.
  rewrite run_bind, run_get, obind_returns; cbv beta iota.
  set (h := fun k => nonzero_strands (strands ga) (default ∅ (_chroms ga !! k))).
  destruct (fold_each_total
              (fun done (d_out : gmap string (gmap Strand (list Z))) s =>
                 s = ga /\ d_out = foldl (fun m k => <[k := h k]> m) ∅ done)
              (fun (d_out : gmap string (gmap Strand (list Z))) key =>
                 d ← fold_each (strands ga) ∅ (fun d strand =>
                       buf ← buffer key strand;
                       mret (<[strand := np_nonzero buf]> d));
                 mret (<[key := d]> d_out))
              (keys ga)) with (acc := (∅ : gmap string (gmap Strand (list Z)))) (s := ga)
    as (d_out & ga' & Hrun & -> & ->).
  - intros done key d_out s [-> ->] Hin.
    unfold keys in Hin. apply list_elem_of_fmap in Hin as ([k d] & -> & Hin).
    apply elem_of_map_to_list in Hin. cbn [fst].
    destruct (fold_each_total
                (fun done (m : gmap Strand (list Z)) s =>
                   s = ga /\
                   m = foldl (fun m s => <[s := np_nonzero (default [] (d !! s))]> m) ∅ done)
                (fun (m : gmap Strand (list Z)) strand =>
                   buf ← buffer k strand;
                   mret (<[strand := np_nonzero buf]> m))
                (strands ga)) with (acc := (∅ : gmap Strand (list Z))) (s := ga)
      as (m & ga' & Hinner & -> & ->).
    + intros done' strand m s [-> ->] Hs.
      destruct (Hc k d strand Hin Hs) as [buf Hbuf].
      eexists _, ga. split; [|split; [reflexivity|]].
      * rewrite run_bind, (buffer_found _ _ _ _ _ Hin Hbuf), obind_returns.
        cbv beta iota. rewrite run_ret. reflexivity.
      * rewrite foldl_app. cbn [foldl]. rewrite Hbuf. reflexivity.
    + split; reflexivity.
    + eexists _, ga. split; [|split; [reflexivity|]].
      * rewrite run_bind, Hinner, obind_returns; cbv beta iota. rewrite run_ret.
        reflexivity.
      * rewrite foldl_app. cbn [foldl]. f_equal. unfold h, nonzero_strands.
        rewrite Hin. reflexivity.
  - split; reflexivity.
  - rewrite Hrun. f_equal. f_equal. apply map_eq. intros c.
    rewrite foldl_insert_keys', lookup_fmap, lookup_empty. unfold keys.
    destruct (_chroms ga !! c) as [d|] eqn:Hd; cbn.
    + destruct (decide (c ∈ (map_to_list (_chroms ga)).*1)) as [_|Hn].
      * unfold h. rewrite Hd. reflexivity.
      * exfalso. apply Hn. apply list_elem_of_fmap. exists (c, d).
        split; [reflexivity|]. apply elem_of_map_to_list. exact Hd.
    + destruct (decide (c ∈ (map_to_list (_chroms ga)).*1)) as [Hin|_]; [|reflexivity].
      apply list_elem_of_fmap in Hin as ([k d] & -> & Hin).
      apply elem_of_map_to_list in Hin. cbn in Hd. congruence.
Qed.

Lemma nonzero_strands_lookup S d s :
  nonzero_strands S d !! s =
  if decide (s ∈ S) then Some (np_nonzero (default [] (d !! s))) else None.
Proof.
  unfold nonzero_strands.
  rewrite (foldl_insert_keys' (fun s => np_nonzero (default [] (d !! s)))).
  rewrite lookup_empty. reflexivity.
Qed.

(** The positions recorded for [(c,s)], none if the array lacks them. *)
Lemma recorded_positions ga c s p :
  complete ga ->
  p ∈ default [] ((nonzero_strands (strands ga) <$> _chroms ga) !! c ≫= (.!! s)) <->
  holds_nonzero ga c s p.
Proof.
  intros Hc. rewrite lookup_fmap. unfold holds_nonzero.
  destruct (_chroms ga !! c) as [d|] eqn:Hd; cbn.
  - rewrite nonzero_strands_lookup.
    destruct (decide (s ∈ strands ga)) as [Hin|Hnin]; cbn.
    + destruct (Hc c d s Hd Hin) as [buf Hbuf]. rewrite Hbuf. cbn.
      rewrite elem_of_np_nonzero. split.
      * intros (Hp & v & Hv & Hnz). split; [exact Hin|]. exists v. split; [|exact Hnz].
        apply stored_Some. eauto 6.
      * intros (_ & v & Hv & Hnz). apply stored_Some in Hv as (d' & b' & Hd' & Hb' & Hp & Hv).
        rewrite Hd in Hd'. injection Hd' as <-. rewrite Hbuf in Hb'. injection Hb' as <-.
        eauto.
    + rewrite elem_of_nil. tauto.
  - rewrite elem_of_nil. split; [tauto|].
    intros (_ & v & Hv & _). apply stored_Some in Hv as (d' & b' & Hd' & _). congruence.
Qed.

(** X13. [nonzero()] leaves the array as it is and returns, for every
    chromosome and every strand of the array, the positions that hold a
    nonzero value: all of them, no other, in ascending order. *)
Theorem nonzero_lists_the_nonzero_positions ga :
  complete ga ->
  exists nz,
    nonzero ga = returns (nz, ga) /\
    dom nz = dom (_chroms ga) /\
    forall c s,
      is_Some (_chroms ga !! c) -> s ∈ strands ga ->
      exists l,
        nz !! c ≫= (.!! s) = Some l /\
        StronglySorted Z.lt l /\
        forall p, p ∈ l <->
                  exists v, stored ga c s p = Some v /\ nonzerob v = true.
Proof.
  intros Hc. eexists. split; [apply (nonzero_returns ga Hc)|]. split.
  - apply dom_fmap_L.
  - intros c s [d Hd] Hs. rewrite lookup_fmap, Hd. cbn.
    rewrite nonzero_strands_lookup.
    destruct (decide (s ∈ strands ga)) as [_|Hn]; [|contradiction].
    eexists. split; [reflexivity|]. split; [apply nonzero_from_sorted|].
    intros p. pose proof (recorded_positions ga c s p Hc) as Hp.
    rewrite lookup_fmap, Hd in Hp. cbn in Hp. rewrite nonzero_strands_lookup in Hp.
    destruct (decide (s ∈ strands ga)) as [Hin|Hn]; [|contradiction].
    cbn in Hp. rewrite Hp. unfold holds_nonzero. tauto.
Qed.

Lemma nonzero_lists_the_nonzero_positions_witness :
  exists nz,
    nonzero chrI = returns (nz, chrI) /\
    dom nz = dom (_chroms chrI) /\
    forall c s,
      is_Some (_chroms chrI !! c) -> s ∈ strands chrI ->
      exists l,
        nz !! c ≫= (.!! s) = Some l /\
        StronglySorted Z.lt l /\
        forall p, p ∈ l <->
                  exists v, stored chrI c s p = Some v /\ nonzerob v = true.
Proof.
  apply (nonzero_lists_the_nonzero_positions chrI).
  apply dense_complete.
Defined.

(** * Equality and nonzero positions *)

Lemma all_rounds_true {S A} (round : A -> State S bool) xs : forall s w s',
  all_rounds xs round s = Outcome w (inr (true, s')) ->
  forall x, x ∈ xs -> exists s1 w1 s2, round x s1 = Outcome w1 (inr (true, s2)).
Proof.
  induction xs as [|y xs IH]; intros s w s' Hrun x Hx; [inversion Hx|].
  cbn [all_rounds] in Hrun.
  apply run_bind_inv in Hrun as (w1 & ok & s1 & w2 & Hy & Hrun & _).
  destruct ok.
  - apply elem_of_cons in Hx as [->|Hx]; [eauto|].
    apply (IH _ _ _ Hrun x Hx).
  - rewrite run_ret in Hrun. discriminate Hrun.
Qed.

Section Equality.
Context `{NumpySum}.

Lemma run_on_self {A} (c : Method A) a b :
  on_self c (a, b) = obind (fun '(x, a') => returns (x, (a', b))) (c a).
Proof. reflexivity. Qed.

Lemma run_on_other {A} (c : Method A) a b :
  on_other c (a, b) = obind (fun '(x, b') => returns (x, (a, b'))) (c b).
Proof. reflexivity. Qed.

Lemma eq_true_same_positions a b tol :
  complete a -> complete b ->
  answer (__eq__ tol (a, b)) = inr true ->
  forall c s,
    c ∈ chrom_union a b -> s ∈ strand_union a b ->
    default [] ((nonzero_strands (strands a) <$> _chroms a) !! c ≫= (.!! s)) =
    default [] ((nonzero_strands (strands b) <$> _chroms b) !! c ≫= (.!! s)).
Proof.
  intros Ha Hb Hans c s Hc Hs. apply answer_inv in Hans as (w & st & Hrun).
  unfold __eq__ in Hrun.
  rewrite run_bind, run_on_self in Hrun.
  rewrite (nonzero_returns a Ha), !obind_returns in Hrun. cbv beta iota in Hrun.
  rewrite run_bind, run_on_other in Hrun.
  rewrite (nonzero_returns b Hb), !obind_returns in Hrun. cbv beta iota in Hrun.
  rewrite run_bind, run_get, obind_returns in Hrun. cbv beta iota in Hrun.
  destruct (all_rounds_true _ _ _ _ _ Hrun (c, s)) as (s1 & w1 & s2 & Hround).
  { apply list_elem_of_bind. exists c. split; [|exact Hc].
    apply list_elem_of_bind. exists s. split; [left|exact Hs]. }
  cbv beta iota zeta in Hround.
  set (sv := default [] ((nonzero_strands (strands a) <$> _chroms a) !! c ≫= (.!! s))) in *.
  set (ov := default [] ((nonzero_strands (strands b) <$> _chroms b) !! c ≫= (.!! s))) in *.
  destruct (bool_decide (length sv = length ov)); cbn [negb] in Hround;
    [|rewrite run_ret in Hround; discriminate Hround].
  destruct (bool_decide_reflect (sv = ov)) as [Heq|_]; [exact Heq|].
  cbn [negb] in Hround. rewrite run_ret in Hround. discriminate Hround.
Qed.

(** X14. Arrays that compare equal are nonzero at the same places: when
    [self == other] returns [True], each position of each chromosome and
    strand that holds a nonzero value in one array holds one in the other. *)
Theorem eq_implies_same_nonzero_positions a b tol :
  complete a -> complete b ->
  answer (__eq__ tol (a, b)) = inr true ->
  forall c s p, holds_nonzero a c s p <-> holds_nonzero b c s p.
Proof.
  intros Ha Hb Hans c s p.
  destruct (decide (c ∈ chrom_union a b)) as [Hc|Hc].
  - destruct (decide (s ∈ strand_union a b)) as [Hs|Hs].
    + rewrite <- (recorded_positions a c s p Ha), <- (recorded_positions b c s p Hb).
      rewrite (eq_true_same_positions a b tol Ha Hb Hans c s Hc Hs). reflexivity.
    + unfold strand_union in Hs. rewrite elem_of_elements, elem_of_union in Hs.
      rewrite !elem_of_list_to_set in Hs.
      unfold holds_nonzero. split; intros [Hin _]; exfalso; apply Hs; eauto.
  - unfold chrom_union in Hc. rewrite elem_of_elements, elem_of_union in Hc.
    rewrite !elem_of_dom in Hc.
    unfold holds_nonzero. split; intros (_ & v & Hv & _);
      apply stored_Some in Hv as (d & buf & Hd & _); exfalso; apply Hc; eauto.
Qed.

End Equality.

Lemma eq_implies_same_nonzero_positions_witness :
  holds_nonzero (dense [("chrI"%string, [1; 0; 2]%float)]) "chrI" Plus 2 <->
  holds_nonzero (dense [("chrI"%string, [1; 0; 2; 0; 0]%float)]) "chrI" Plus 2.
Proof.
  apply (eq_implies_same_nonzero_positions _ _ default_tol).
  - apply dense_complete.
  - apply dense_complete.
  - vm_compute. reflexivity.
Defined.

(** * Arithmetic on arrays *)

Section ScalarOperand.
Context `{NumpySum}.

Lemma run_in_self {A} (c : Method A) self other new :
  in_self c (Frame self other new) =
  obind (fun '(a, x) => returns (a, Frame x other new)) (c self).
Proof. reflexivity. Qed.

Lemma run_in_other {A} (c : Method A) self other new :
  in_other c (Frame self other new) =
  obind (fun '(a, x) => returns (a, Frame self x new)) (c other).
Proof. reflexivity. Qed.

Lemma run_in_new {A} (c : Method A) self other new :
  in_new c (Frame self other new) =
  obind (fun '(a, x) => returns (a, Frame self other x)) (c new).
Proof. reflexivity. Qed.

(** A loop that stores [val c s] in the new array for each [(c,s)] of
    [pairs]. *)
Lemma store_loop (pairs : list (string * Strand)) (body : string * Strand -> State frame unit)
  (val : string -> Strand -> list float) self other new :
  (forall c s n d, (c, s) ∈ pairs -> _chroms n !! c = Some d ->
     body (c, s) (Frame self other n) =
     returns (tt, Frame self other
                    (with_chroms (<[c := <[s := val c s]> d]> (_chroms n)) n))) ->
  (forall c s, (c, s) ∈ pairs -> is_Some (_chroms new !! c)) ->
  exists new',
    for_each pairs body (Frame self other new) = returns (tt, Frame self other new') /\
    dom (_chroms new') = dom (_chroms new) /\
    strands new' = strands new /\ _normalize new' = _normalize new /\
    _sum new' = _sum new /\ min_chr_size new' = min_chr_size new /\
    (forall c s, (c, s) ∈ pairs ->
       exists d', _chroms new' !! c = Some d' /\ d' !! s = Some (val c s)) /\
    (forall c s, (c, s) ∉ pairs ->
       _chroms new' !! c ≫= (.!! s) = _chroms new !! c ≫= (.!! s)).
Proof.
  intros Hbody Hdom.
  destruct (for_each_total
              (fun done f =>
                 exists n, f = Frame self other n /\
                   dom (_chroms n) = dom (_chroms new) /\
                   strands n = strands new /\ _normalize n = _normalize new /\
                   _sum n = _sum new /\ min_chr_size n = min_chr_size new /\
                   (forall (c : string) (s : Strand), (c, s) ∈ done ->
                      exists d', _chroms n !! c = Some d' /\ d' !! s = Some (val c s)) /\
                   (forall (c : string) (s : Strand), (c, s) ∉ done ->
                      _chroms n !! c ≫= (.!! s) = _chroms new !! c ≫= (.!! s)))
              body pairs) with (s := Frame self other new) as (f & Hrun & n & -> & Hn).
  - intros done [c s] f (n & -> & Hd & Hs & Hno & Hsu & Hm & Hin & Hout) Hcs.
    assert (Hc : is_Some (_chroms n !! c)).
    { apply elem_of_dom. rewrite Hd. apply elem_of_dom. apply (Hdom c s Hcs). }
    destruct Hc as [d Hc].
    eexists. split; [apply (Hbody c s n d Hcs Hc)|].
    eexists. split; [reflexivity|].
    cbn [with_chroms _chroms strands _strands _normalize _sum min_chr_size].
    split; [|split; [exact Hs|split; [exact Hno|split; [exact Hsu|split; [exact Hm|split]]]]].
    + rewrite dom_insert_lookup_L by eauto. exact Hd.
    + intros c0 s0 Hin0. destruct (decide ((c0, s0) = (c, s))) as [[= -> ->]|Hne].
      * eexists. split; [apply lookup_insert_eq|apply lookup_insert_eq].
      * apply elem_of_app in Hin0 as [Hin0|Hin0].
        2:{ apply list_elem_of_singleton in Hin0. congruence. }
        destruct (Hin c0 s0 Hin0) as (d' & Hd' & Hv).
        destruct (decide (c = c0)) as [<-|Hnc].
        -- rewrite Hc in Hd'. injection Hd' as <-.
           eexists. split; [apply lookup_insert_eq|].
           rewrite lookup_insert_ne by congruence. exact Hv.
        -- exists d'. rewrite lookup_insert_ne by exact Hnc. eauto.
    + intros c0 s0 Hnin. rewrite <- Hout.
      2:{ intros Hin0. apply Hnin, elem_of_app. left. exact Hin0. }
      destruct (decide (c = c0)) as [<-|Hnc].
      * rewrite lookup_insert_eq, Hc. cbn. apply lookup_insert_ne.
        intros ->. apply Hnin, elem_of_app. right. left.
      * rewrite lookup_insert_ne by exact Hnc. reflexivity.
  - exists new. split; [reflexivity|]. repeat split; try reflexivity.
    intros c s Hin. inversion Hin.
  - exists n. split; [exact Hrun|exact Hn].
Qed.

Lemma elem_of_pairs {A B} (l1 : list A) (l2 : list B) a b :
  (a, b) ∈ (x ← l1; y ← l2; [(x, y)]) <-> a ∈ l1 /\ b ∈ l2.
Proof.
  rewrite list_elem_of_bind. split.
  - intros (x & Hx & Hin). apply list_elem_of_bind in Hx as (y & Hy & Hin2).
    apply list_elem_of_singleton in Hy. injection Hy as -> ->. split; assumption.
  - intros [Ha Hb]. exists a. split; [|exact Ha].
    apply list_elem_of_bind. exists b. split; [left|exact Hb].
Qed.

Lemma elem_of_keys ga c : c ∈ keys ga <-> is_Some (_chroms ga !! c).
Proof.
  unfold keys. rewrite list_elem_of_fmap. split.
  - intros ([k d] & -> & Hin). apply elem_of_map_to_list in Hin. eauto.
  - intros [d Hd]. exists (c, d). split; [reflexivity|].
    apply elem_of_map_to_list. exact Hd.
Qed.

Lemma fresh_dom S (m : gmap string (option Z)) : dom (fresh_chroms S m) = dom m.
Proof. unfold fresh_chroms. apply dom_fmap_L. Qed.

Lemma combine_number_spec self other new func x g :
  complete self ->
  (forall buf, on_number func buf x = returns (g buf)) ->
  dom (_chroms new) = dom (_chroms self) ->
  exists new',
    combine_number func x (Frame self other new) = returns (tt, Frame self other new') /\
    dom (_chroms new') = dom (_chroms new) /\
    strands new' = strands new /\ _normalize new' = _normalize new /\
    forall c d s buf,
      _chroms self !! c = Some d -> s ∈ strands self -> d !! s = Some buf ->
      exists d', _chroms new' !! c = Some d' /\ d' !! s = Some (g buf).
Proof.
  intros Hc Hg Hdom. unfold combine_number.
  rewrite run_bind, run_get, obind_returns; cbv beta iota. cbn [frame_self].
  destruct (store_loop
              (chrom ← keys self; strand ← strands self; [(chrom, strand)])
              (fun '(chrom, strand) =>
                 buf ← in_self (buffer chrom strand);
                 v ← lift (on_number func buf x);
                 in_new (store_buffer chrom strand v))
              (fun c s => g (default [] (_chroms self !! c ≫= (.!! s))))
              self other new)
    as (new' & Hrun & Hd & Hs & Hn & _ & _ & Hin & _).
  - intros c s n d Hcs Hcn. apply elem_of_pairs in Hcs as [Hk Hs].
    apply elem_of_keys in Hk as [ds Hds].
    destruct (Hc c ds s Hds Hs) as [buf Hbuf].
    rewrite run_bind, run_in_self, (buffer_found _ _ _ _ _ Hds Hbuf), !obind_returns.
    cbv beta iota. rewrite run_lift_bind, Hg, obind_returns.
    rewrite run_in_new, (store_buffer_found _ _ _ _ _ Hcn), obind_returns.
    rewrite Hds. cbn. rewrite Hbuf. reflexivity.
  - intros c s Hcs. apply elem_of_pairs in Hcs as [Hk _].
    apply elem_of_keys in Hk. apply elem_of_dom. rewrite Hdom. apply elem_of_dom, Hk.
  - exists new'. split; [exact Hrun|]. split; [exact Hd|]. split; [exact Hs|].
    split; [exact Hn|].
    intros c d s buf Hcd Hs' Hb.
    destruct (Hin c s) as (d' & Hd' & Hv).
    { apply elem_of_pairs. split; [apply elem_of_keys; eauto|exact Hs']. }
    exists d'. split; [exact Hd'|]. rewrite Hv, Hcd. cbn. rewrite Hb. reflexivity.
Qed.

Lemma like_dom other :
  complete other -> strands other <> [] ->
  exists new, like other = returns new /\
    dom (_chroms new) = dom (_chroms other) /\ strands new = strands other /\
    _normalize new = false /\
    forall c d, _chroms new !! c = Some d ->
      exists l, d = fresh_strands (strands other) (replicate (Z.to_nat l) 0%float) ∅ /\
                chrom_len (strands other) <$> _chroms other !! c = Some l.
Proof.
  intros Hc Hs. eexists. split; [apply (like_spec other Hc Hs)|].
  cbn [_chroms strands _strands _normalize]. split; [|split; [reflexivity|split; [reflexivity|]]].
  - rewrite fresh_dom, !dom_fmap_L. reflexivity.
  - intros c d. rewrite fresh_chroms_lookup, !lookup_fmap.
    destruct (_chroms other !! c); cbn; [|discriminate]. intros [= <-]. eauto.
Qed.

Lemma scalar_operation self func x g mode :
  complete self -> strands self <> [] ->
  (forall buf, on_number func buf x = returns (g buf)) ->
  exists new,
    apply_operation self (Number x) func mode =
      Outcome (if _normalize self then [Warning DataWarning NormalizationOff] else [])
              (inr (new, self, Number x)) /\
    dom (_chroms new) = dom (_chroms self) /\
    strands new = strands self /\ _normalize new = false /\
    forall c d s buf,
      _chroms self !! c = Some d -> s ∈ strands self -> d !! s = Some buf ->
      exists d', _chroms new !! c = Some d' /\ d' !! s = Some (g buf).
Proof.
  intros Hc Hs Hg.
  destruct (like_dom self Hc Hs) as (new0 & Hlike & Hd0 & Hs0 & Hn0 & _).
  destruct (combine_number_spec self self new0 func x g Hc Hg Hd0)
    as (new & Hrun & Hd & Hs1 & Hn1 & Hval).
  exists new. split; [|split; [congruence|split; [congruence|split; [congruence|exact Hval]]]].
  unfold apply_operation. unfold mbind, outcome_bind, mret, outcome_ret.
  rewrite Hlike, obind_returns. cbv zeta.
  assert (Hw : (if _normalize self then warn DataWarning NormalizationOff else returns tt)
               = Outcome (if _normalize self then [Warning DataWarning NormalizationOff]
                          else []) (inr tt)).
  { destruct (_normalize self); reflexivity. }
  rewrite Hw. unfold obind at 1. cbn [result warnings].
  rewrite Hrun, !obind_returns. cbv beta iota. cbn [frame_new frame_self].
  rewrite run_set_normalize, obind_returns. cbv beta iota.
  rewrite with_normalize_same. cbn [returns warnings result]. rewrite app_nil_r.
  reflexivity.
Qed.

(** X15. With a scalar as second operand, [apply_operation] returns a new
    array with the chromosomes and strands of [self] that holds
    [func(buffer,other)] for each buffer of [self], whatever [mode] is; it
    leaves [self] as it was, and warns when [self] is normalized. The
    buffers are the raw ones: normalization has no part in the result. *)
Theorem apply_operation_scalar self func x g mode :
  complete self -> strands self <> [] ->
  (forall buf, on_number func buf x = returns (g buf)) ->
  exists new,
    apply_operation self (Number x) func mode =
      Outcome (if _normalize self then [Warning DataWarning NormalizationOff] else [])
              (inr (new, self, Number x)) /\
    dom (_chroms new) = dom (_chroms self) /\
    strands new = strands self /\ _normalize new = false /\
    forall c d s buf,
      _chroms self !! c = Some d -> s ∈ strands self -> d !! s = Some buf ->
      exists d', _chroms new !! c = Some d' /\ d' !! s = Some (g buf).
Proof. exact (scalar_operation self func x g mode). Qed.

End ScalarOperand.

Lemma apply_operation_scalar_witness :
  exists new,
    apply_operation chrI (Number 2%float) operator_add "same" =
      returns (new, chrI, Number 2%float) /\
    exists d', _chroms new !! "chrI"%string = Some d' /\
               d' !! Plus = Some [3; 2; 4]%float.
Proof.
  destruct (apply_operation_scalar chrI operator_add 2%float
              (fun buf => (fun a => PrimFloat.add a 2%float) <$> buf) "same")
    as (new & Hrun & _ & _ & _ & Hval).
  - apply dense_complete.
  - discriminate.
  - intros buf. reflexivity.
  - exists new. split; [exact Hrun|].
    apply (Hval "chrI"%string
                {[ Plus := [1; 0; 2]%float; Minus := [1; 0; 2]%float ]} Plus
                [1; 0; 2]%float); [reflexivity|left|reflexivity].
Defined.

Section TruncateMode.
Context `{NumpySum}.

Lemma resize_shorter buf n : 0 <= n <= len buf -> resize buf n = take (Z.to_nat n) buf.
Proof.
  intros Hn. unfold resize, len in *.
  replace (Z.to_nat n - length buf)%nat with 0%nat by lia.
  cbn. apply app_nil_r.
Qed.

Lemma shrink_longer_spec sc oc :
  shrink_longer sc oc =
  (take (length sc `min` length oc) sc, take (length sc `min` length oc) oc).
Proof.
  unfold shrink_longer, len.
  destruct (Z.ltb_spec (Z.of_nat (length oc)) (Z.of_nat (length sc))).
  - rewrite resize_shorter by (unfold len; lia).
    rewrite Nat2Z.id. rewrite Nat.min_r by lia.
    rewrite (take_ge oc) by lia. reflexivity.
  - destruct (Z.ltb_spec (Z.of_nat (length sc)) (Z.of_nat (length oc))).
    + rewrite resize_shorter by (unfold len; lia).
      rewrite Nat2Z.id. rewrite Nat.min_l by lia.
      rewrite (take_ge sc) by lia. reflexivity.
    + rewrite Nat.min_l by lia. rewrite !take_ge by lia. reflexivity.
Qed.

Lemma elem_of_chrom_intersection a b c :
  c ∈ chrom_intersection a b <-> is_Some (_chroms a !! c) /\ is_Some (_chroms b !! c).
Proof.
  unfold chrom_intersection. rewrite elem_of_elements, elem_of_intersection.
  rewrite !elem_of_dom. reflexivity.
Qed.

Lemma elem_of_strand_intersection a b s :
  s ∈ strand_intersection a b <-> s ∈ strands a /\ s ∈ strands b.
Proof.
  unfold strand_intersection. rewrite elem_of_elements, elem_of_intersection.
  rewrite !elem_of_list_to_set. reflexivity.
Qed.

Lemma combine_truncate_spec self other new func g :
  complete self -> complete other ->
  (forall x y, length x = length y -> on_arrays func x y = returns (g x y)) ->
  dom (_chroms new) = dom (_chroms self) ->
  exists new',
    combine_truncate func (Frame self other new) = returns (tt, Frame self other new') /\
    dom (_chroms new') = dom (_chroms new) /\
    strands new' = strands new /\ _normalize new' = _normalize new /\
    (forall c ds do s sc oc,
      _chroms self !! c = Some ds -> _chroms other !! c = Some do ->
      s ∈ strands self -> s ∈ strands other ->
      ds !! s = Some sc -> do !! s = Some oc ->
      exists d', _chroms new' !! c = Some d' /\
                 d' !! s = Some (g (take (length sc `min` length oc) sc)
                                   (take (length sc `min` length oc) oc))) /\
    (forall c s,
      ~ (is_Some (_chroms other !! c) /\ s ∈ strands other) ->
      _chroms new' !! c ≫= (.!! s) = _chroms new !! c ≫= (.!! s)).
Proof.
  intros Hcs Hco Hg Hdom. unfold combine_truncate.
  rewrite run_bind, run_get, obind_returns; cbv beta iota zeta.
  cbn [frame_self frame_other].
  set (buf_of := fun (ga : t) c s => default [] (_chroms ga !! c ≫= (.!! s))).
  destruct (store_loop
              (chrom ← chrom_intersection self other;
               strand ← strand_intersection self other; [(chrom, strand)])
              (fun '(chrom, strand) =>
                 sc ← in_self (buffer chrom strand);
                 oc ← in_other (buffer chrom strand);
                 let '(sc, oc) := shrink_longer sc oc in
                 v ← lift (on_arrays func sc oc);
                 in_new (store_buffer chrom strand v))
              (fun c s =>
                 g (take (length (buf_of self c s) `min` length (buf_of other c s))
                         (buf_of self c s))
                   (take (length (buf_of self c s) `min` length (buf_of other c s))
                         (buf_of other c s)))
              self other new)
    as (new' & Hrun & Hd & Hs & Hn & _ & _ & Hin & Hout).
  - intros c s n d Hpair Hcn. apply elem_of_pairs in Hpair as [Hc Hs].
    apply elem_of_chrom_intersection in Hc as [[ds Hds] [do Hdo]].
    apply elem_of_strand_intersection in Hs as [Hss Hso].
    destruct (Hcs c ds s Hds Hss) as [sc Hsc].
    destruct (Hco c do s Hdo Hso) as [oc Hoc].
    rewrite run_bind, run_in_self, (buffer_found _ _ _ _ _ Hds Hsc), !obind_returns.
    cbv beta iota.
    rewrite run_bind, run_in_other, (buffer_found _ _ _ _ _ Hdo Hoc), !obind_returns.
    cbv beta iota. rewrite shrink_longer_spec.
    rewrite run_lift_bind, Hg, obind_returns
      by (rewrite !length_take; lia).
    rewrite run_in_new, (store_buffer_found _ _ _ _ _ Hcn), obind_returns.
    unfold buf_of. rewrite Hds, Hdo. cbn. rewrite Hsc, Hoc. reflexivity.
  - intros c s Hpair. apply elem_of_pairs in Hpair as [Hc _].
    apply elem_of_chrom_intersection in Hc as [Hc _].
    apply elem_of_dom. rewrite Hdom. apply elem_of_dom, Hc.
  - exists new'. split; [exact Hrun|]. split; [exact Hd|]. split; [exact Hs|].
    split; [exact Hn|]. split.
    + intros c ds do s sc oc Hds Hdo Hss Hso Hsc Hoc.
      destruct (Hin c s) as (d' & Hd' & Hv).
      { apply elem_of_pairs. split.
        - apply elem_of_chrom_intersection. eauto.
        - apply elem_of_strand_intersection. eauto. }
      exists d'. split; [exact Hd'|]. rewrite Hv. unfold buf_of.
      rewrite Hds, Hdo. cbn. rewrite Hsc, Hoc. reflexivity.
    + intros c s Hno. apply Hout. intros Hpair. apply Hno.
      apply elem_of_pairs in Hpair as [Hc Hs'].
      apply elem_of_chrom_intersection in Hc as [_ Hc].
      apply elem_of_strand_intersection in Hs' as [_ Hs']. eauto.
Qed.

(** X16. In mode ["truncate"], [apply_operation] on two arrays returns a new
    array that holds, for each chromosome and strand that both have,
    [func] of the two buffers cut to the length of the shorter; it has the
    chromosomes of [self], holding zeros where [other] has no counterpart,
    and leaves both operands as they were. *)
Theorem apply_operation_truncate self other func g :
  complete self -> complete other -> strands self <> [] ->
  (forall x y, length x = length y -> on_arrays func x y = returns (g x y)) ->
  exists new,
    apply_operation self (Array other) func "truncate" =
      Outcome (if _normalize self then [Warning DataWarning NormalizationOff] else [])
              (inr (new, self, Array other)) /\
    dom (_chroms new) = dom (_chroms self) /\
    strands new = strands self /\
    (forall c ds do s sc oc,
      _chroms self !! c = Some ds -> _chroms other !! c = Some do ->
      s ∈ strands self -> s ∈ strands other ->
      ds !! s = Some sc -> do !! s = Some oc ->
      exists d', _chroms new !! c = Some d' /\
                 d' !! s = Some (g (take (length sc `min` length oc) sc)
                                   (take (length sc `min` length oc) oc))) /\
    (forall c ds s p,
      _chroms self !! c = Some ds -> s ∈ strands self ->
      ~ (is_Some (_chroms other !! c) /\ s ∈ strands other) ->
      0 <= p < chrom_len (strands self) ds ->
      stored new c s p = Some 0%float).
Proof.
  intros Hcs Hco Hs Hg.
  destruct (like_dom self Hcs Hs) as (new0 & Hlike & Hd0 & Hs0 & Hn0 & Hz0).
  destruct (combine_truncate_spec self other new0 func g Hcs Hco Hg Hd0)
    as (new & Hrun & Hd & Hs1 & Hn1 & Hval & Hout).
  exists new.
  split; [|split; [congruence|split; [congruence|split; [exact Hval|]]]].
  - unfold apply_operation. unfold mbind, outcome_bind, mret, outcome_ret.
    rewrite Hlike, obind_returns. cbv zeta.
    assert (Hw : (if _normalize self then warn DataWarning NormalizationOff else returns tt)
                 = Outcome (if _normalize self then [Warning DataWarning NormalizationOff]
                            else []) (inr tt)).
    { destruct (_normalize self); reflexivity. }
    rewrite Hw. unfold obind at 1. cbn [result warnings].
    destruct (decide ("truncate" = "same")) as [E|_]; [discriminate E|].
    destruct (decide ("truncate" = "all")) as [E|_]; [discriminate E|].
    destruct (decide ("truncate" = "truncate")) as [_|E]; [|congruence].
    rewrite Hrun, !obind_returns. cbv beta iota. cbn [frame_new frame_self frame_other].
    rewrite run_set_normalize, obind_returns. cbv beta iota.
    rewrite with_normalize_same. cbn [returns warnings result]. rewrite app_nil_r.
    reflexivity.
  - intros c ds s p Hds Hss Hno Hp.
    pose proof (Hout c s Hno) as Heq.
    assert (Hc0 : is_Some (_chroms new0 !! c)).
    { apply elem_of_dom. rewrite Hd0. apply elem_of_dom. eauto. }
    destruct Hc0 as [d0 Hc0]. destruct (Hz0 c d0 Hc0) as (l & -> & Hl).
    rewrite Hds in Hl. cbn in Hl. injection Hl as <-.
    rewrite Hc0 in Heq. cbn in Heq.
    rewrite (fresh_strands_lookup (strands self)) in Heq by (left; exact Hss).
    unfold stored.
    destruct (_chroms new !! c) as [d'|]; cbn in Heq |- *; [|discriminate Heq].
    rewrite Heq. cbn. destruct (Z.ltb_spec p 0); [lia|].
    apply lookup_replicate_2. lia.
Qed.

End TruncateMode.

Lemma apply_operation_truncate_witness :
  exists new,
    apply_operation chrI (Array (dense [("chrI"%string, [5; 0; 2; 9]%float)]))
                    operator_add "truncate"
    = returns (new, chrI, Array (dense [("chrI"%string, [5; 0; 2; 9]%float)])) /\
    exists d', _chroms new !! "chrI"%string = Some d' /\
               d' !! Minus = Some [6; 0; 4]%float.
Proof.
  destruct (apply_operation_truncate chrI (dense [("chrI"%string, [5; 0; 2; 9]%float)])
              operator_add (zip_with PrimFloat.add))
    as (new & Hrun & _ & _ & Hval & _).
  - apply dense_complete.
  - apply dense_complete.
  - discriminate.
  - intros x y Hl. cbn. unfold elementwise.
    destruct x as [|a [|b x]], y as [|c [|e y]]; try discriminate Hl; try reflexivity.
    destruct (decide (length (a :: b :: x) = length (c :: e :: y))); [reflexivity|].
    contradiction.
  - exists new. split; [exact Hrun|].
    apply (Hval "chrI"%string
                {[ Plus := [1; 0; 2]%float; Minus := [1; 0; 2]%float ]}
                {[ Plus := [5; 0; 2; 9]%float; Minus := [5; 0; 2; 9]%float ]}
                Minus [1; 0; 2]%float [5; 0; 2; 9]%float);
      first [reflexivity | right; left].
Defined.

Lemma for_each_raises {S A} (I : S -> Prop) (body : A -> State S unit) xs e :
  (forall x s, x ∈ xs -> I s ->
     (exists s', body x s = returns (tt, s') /\ I s') \/ body x s = raise e) ->
  (exists x, x ∈ xs /\ forall s, I s -> body x s = raise e) ->
  forall s, I s -> for_each xs body s = raise e.
Proof.
  induction xs as [|x xs IH]; intros Hbody (x0 & Hx0 & Hraise) s HI;
    [inversion Hx0|].
  cbn [for_each]. rewrite run_bind.
  destruct (Hbody x s) as [(s' & Hb & HI')|Hb]; [left|exact HI| |].
  - rewrite Hb, obind_returns. apply IH; [| |exact HI'].
    + intros y t Hy. apply Hbody. right. exact Hy.
    + apply elem_of_cons in Hx0 as [->|Hx0]; [|eauto].
      rewrite (Hraise s HI) in Hb. discriminate Hb.
  - rewrite Hb. reflexivity.
Qed.

Section AllModeRaises.
Context `{NumpySum}.

Lemma grow_shorter_length sc oc :
  length (grow_shorter sc oc).1 = length (grow_shorter sc oc).2.
Proof.
  unfold grow_shorter, len.
  destruct (Z.ltb_spec (Z.of_nat (length oc)) (Z.of_nat (length sc))); cbn [fst snd].
  - rewrite length_resize by lia. lia.
  - destruct (Z.ltb_spec (Z.of_nat (length sc)) (Z.of_nat (length oc))); cbn [fst snd].
    + rewrite length_resize by lia. lia.
    + lia.
Qed.

Lemma elem_of_chrom_union a b c :
  c ∈ chrom_union a b <-> is_Some (_chroms a !! c) \/ is_Some (_chroms b !! c).
Proof.
  unfold chrom_union. rewrite elem_of_elements, elem_of_union, !elem_of_dom.
  reflexivity.
Qed.

Lemma elem_of_strand_union a b s :
  s ∈ strand_union a b <-> s ∈ strands a \/ s ∈ strands b.
Proof.
  unfold strand_union. rewrite elem_of_elements, elem_of_union, !elem_of_list_to_set.
  reflexivity.
Qed.

Lemma combine_all_raises self other new func :
  complete self -> complete other -> strands self <> [] ->
  (forall x y, length x = length y -> exists v, on_arrays func x y = returns v) ->
  (forall x, exists v, on_number func x 0%float = returns v) ->
  dom (_chroms self) <> dom (_chroms other) ->
  combine_all func (Frame self other new) = raise AttributeError.
Proof.
  intros Hcs Hco Hs Harr Hnum Hdiff. unfold combine_all.
  rewrite run_bind, run_get, obind_returns; cbv beta iota zeta.
  cbn [frame_self frame_other].
  set (chroms := chrom_union self other).
  set (strands' := strand_union self other).
  rewrite run_lift_bind.
  rewrite (init_spec _ (Some strands')) by (intros c l Hl;
    apply lookup_gset_to_gmap_Some in Hl as [_ Hl]; discriminate Hl).
  rewrite obind_returns. cbn [from_option id].
  rewrite run_bind, run_put, obind_returns; cbv beta iota.
  set (fresh := Make (fresh_chroms strands' (gset_to_gmap None (list_to_set chroms)))
                     strands' MIN_CHR_SIZE None false).
  assert (Hfresh : forall c, c ∈ chroms -> is_Some (_chroms fresh !! c)).
  { intros c Hc. apply elem_of_dom. unfold fresh. cbn [_chroms].
    rewrite fresh_dom, dom_gset_to_gmap. apply elem_of_list_to_set. exact Hc. }
  assert (Hne : strands' <> []).
  { destruct (strands self) as [|x l] eqn:Hx; [congruence|].
    assert (Hin : x ∈ strands') by (apply elem_of_strand_union; left; rewrite Hx; left).
    intros Hnil. rewrite Hnil in Hin. inversion Hin. }
  apply (for_each_raises
           (fun f => exists n, f = Frame self other n /\
                               dom (_chroms n) = dom (_chroms fresh))).
  - intros c f Hc (n & -> & Hdom).
    destruct (bool_decide_reflect (c ∈ keys self)) as [Hks|Hks];
      [destruct (bool_decide_reflect (c ∈ keys other)) as [Hko|Hko]|]; cbn [andb].
    + left. apply elem_of_keys in Hks as [ds Hds]. apply elem_of_keys in Hko as [do Hdo].
      destruct (for_each_total
                  (fun (_ : list Strand) f =>
                     exists n, f = Frame self other n /\
                               dom (_chroms n) = dom (_chroms fresh))
                  (fun strand =>
                     if bool_decide (strand ∈ strands self)
                        && bool_decide (strand ∈ strands other)
                     then
                       sc ← in_self (buffer c strand);
                       oc ← in_other (buffer c strand);
                       let '(sc, oc) := grow_shorter sc oc in
                       v ← lift (on_arrays func sc oc);
                       in_new (store_buffer c strand v)
                     else if bool_decide (strand ∈ strands self) then
                       sc ← in_self (buffer c strand);
                       v ← lift (on_number func sc 0%float);
                       in_new (store_buffer c strand v)
                     else
                       oc ← in_other (buffer c strand);
                       v ← lift (on_number func oc 0%float);
                       in_new (store_buffer c strand v))
                  strands') with (s := Frame self other n) as (f' & Hrun & HI').
      * intros done s f0 (n0 & -> & Hdom0) Hs'.
        assert (Hcn : is_Some (_chroms n0 !! c)).
        { apply elem_of_dom. rewrite Hdom0. apply elem_of_dom, Hfresh, Hc. }
        destruct Hcn as [dn Hcn].
        assert (Hstore : forall v,
                  in_new (store_buffer c s v) (Frame self other n0) =
                  returns (tt, Frame self other
                                 (with_chroms (<[c := <[s := v]> dn]> (_chroms n0)) n0))).
        { intros v. rewrite run_in_new, (store_buffer_found _ _ _ _ _ Hcn), obind_returns.
          reflexivity. }
        assert (Hkeep : forall v,
                  exists n1, Frame self other
                               (with_chroms (<[c := <[s := v]> dn]> (_chroms n0)) n0)
                             = Frame self other n1 /\
                             dom (_chroms n1) = dom (_chroms fresh)).
        { intros v. eexists. split; [reflexivity|]. cbn [with_chroms _chroms].
          rewrite dom_insert_lookup_L by eauto. exact Hdom0. }
        destruct (bool_decide_reflect (s ∈ strands self)) as [Hss|Hss];
          [destruct (bool_decide_reflect (s ∈ strands other)) as [Hso|Hso]|]; cbn [andb].
        -- destruct (Hcs c ds s Hds Hss) as [sc Hsc].
           destruct (Hco c do s Hdo Hso) as [oc Hoc].
           destruct (Harr _ _ (grow_shorter_length sc oc)) as [v Hv].
           eexists. split; [|apply (Hkeep v)].
           rewrite run_bind, run_in_self, (buffer_found _ _ _ _ _ Hds Hsc), !obind_returns.
           cbv beta iota.
           rewrite run_bind, run_in_other, (buffer_found _ _ _ _ _ Hdo Hoc), !obind_returns.
           cbv beta iota.
           destruct (grow_shorter sc oc) as [sc' oc']. cbn [fst snd] in Hv.
           rewrite run_lift_bind, Hv, obind_returns. apply Hstore.
        -- destruct (Hcs c ds s Hds Hss) as [sc Hsc].
           destruct (Hnum sc) as [v Hv].
           eexists. split; [|apply (Hkeep v)].
           rewrite run_bind, run_in_self, (buffer_found _ _ _ _ _ Hds Hsc), !obind_returns.
           cbv beta iota. rewrite run_lift_bind, Hv, obind_returns. apply Hstore.
        -- assert (Hso : s ∈ strands other).
           { apply elem_of_strand_union in Hs' as [Hs'|Hs']; [contradiction|exact Hs']. }
           destruct (Hco c do s Hdo Hso) as [oc Hoc].
           destruct (Hnum oc) as [v Hv].
           eexists. split; [|apply (Hkeep v)].
           rewrite run_bind, run_in_other, (buffer_found _ _ _ _ _ Hdo Hoc), !obind_returns.
           cbv beta iota. rewrite run_lift_bind, Hv, obind_returns. apply Hstore.
      * eauto.
      * exists f'. split; [exact Hrun|exact HI'].
    + right. destruct strands' as [|x l]; [congruence|]. reflexivity.
    + right. destruct (bool_decide (c ∈ keys other)); cbn [andb];
        destruct strands' as [|x l]; try congruence; reflexivity.
  - assert (Hex : Exists (fun c => ~ (c ∈ keys self /\ c ∈ keys other)) chroms).
    { apply not_Forall_Exists; [intros c; apply _|]. intros Hall.
      apply Hdiff. apply set_eq. intros c. rewrite !elem_of_dom.
      rewrite Forall_forall in Hall. split; intros Hc.
      - apply elem_of_keys. apply Hall. apply elem_of_chrom_union. left. exact Hc.
      - apply elem_of_keys. apply Hall. apply elem_of_chrom_union. right. exact Hc. }
    apply Exists_exists in Hex as (c & Hc & Hno). exists c. split; [exact Hc|].
    intros f _.
    destruct (bool_decide_reflect (c ∈ keys self)) as [Hks|Hks]; cbn [andb].
    + destruct (bool_decide_reflect (c ∈ keys other)) as [Hko|Hko]; cbn [andb].
      * exfalso. apply Hno. split; assumption.
      * destruct strands' as [|x l]; [congruence|]. reflexivity.
    + destruct strands' as [|x l]; [congruence|]. reflexivity.
  - exists fresh. split; reflexivity.
Qed.

Lemma all_operation_raises self other func :
  complete self -> complete other -> strands self <> [] ->
  (forall x y, length x = length y -> exists v, on_arrays func x y = returns v) ->
  (forall x, exists v, on_number func x 0%float = returns v) ->
  dom (_chroms self) <> dom (_chroms other) ->
  result (apply_operation self (Array other) func "all") = inl AttributeError.
Proof.
  intros Hcs Hco Hs Harr Hnum Hdiff.
  destruct (like_dom self Hcs Hs) as (new0 & Hlike & _).
  unfold apply_operation. unfold mbind, outcome_bind, mret, outcome_ret.
  rewrite Hlike, obind_returns. cbv zeta.
  assert (Hw : exists w0,
             (if _normalize self then warn DataWarning NormalizationOff else returns tt)
             = Outcome w0 (inr tt)).
  { destruct (_normalize self); eexists; reflexivity. }
  destruct Hw as [w0 ->]. unfold obind at 1. cbn [result warnings].
  destruct (decide ("all" = "same")) as [E|_]; [discriminate E|].
  destruct (decide ("all" = "all")) as [_|E]; [|congruence].
  rewrite (combine_all_raises self other new0 func Hcs Hco Hs Harr Hnum Hdiff).
  reflexivity.
Qed.

(** X17. In mode ["all"], the default of [+], [*] and [-], two arrays can
    only be combined when they have the same chromosomes: whenever a
    chromosome belongs to one operand only, [apply_operation] raises
    [AttributeError]. *)
Theorem all_mode_needs_same_chromosomes self other func :
  complete self -> complete other -> strands self <> [] ->
  (forall x y, length x = length y -> exists v, on_arrays func x y = returns v) ->
  (forall x, exists v, on_number func x 0%float = returns v) ->
  dom (_chroms self) <> dom (_chroms other) ->
  result (apply_operation self (Array other) func "all") = inl AttributeError.
Proof. exact (all_operation_raises self other func). Qed.

End AllModeRaises.

Lemma operator_add_arrays x y :
  length x = length y -> exists v, on_arrays operator_add x y = returns v.
Proof.
  intros Hl. cbn. unfold elementwise.
  destruct x as [|a [|b x]], y as [|c [|e y]]; try discriminate Hl; eauto.
  destruct (decide (length (a :: b :: x) = length (c :: e :: y))); [eauto|contradiction].
Qed.

Lemma all_mode_needs_same_chromosomes_witness :
  result (apply_operation chrI (Array chrII) operator_add "all") = inl AttributeError.
Proof.
  apply all_mode_needs_same_chromosomes.
  - apply dense_complete.
  - apply dense_complete.
  - discriminate.
  - apply operator_add_arrays.
  - intros x. eexists. reflexivity.
  - intros Heq. assert (Hin : "chrI"%string ∈ dom (_chroms chrII)).
    { rewrite <- Heq. apply elem_of_dom. vm_compute. eauto. }
    apply elem_of_dom in Hin as [d Hd]. vm_compute in Hd. discriminate Hd.
Defined.

Lemma for_each_ext {S A} (f g : A -> State S unit) xs :
  (forall x s, x ∈ xs -> f x s = g x s) ->
  forall s, for_each xs f s = for_each xs g s.
Proof.
  induction xs as [|x xs IH]; intros Hfg s; [reflexivity|].
  cbn [for_each]. rewrite !run_bind, (Hfg x s) by left.
  apply obind_ext. intros [[] s']. apply IH.
  intros y t Hy. apply Hfg. right. exact Hy.
Qed.

Lemma for_each_app {S A} (f : A -> State S unit) xs ys s :
  for_each (xs ++ ys) f s = (for_each xs f ≫= fun _ => for_each ys f) s.
Proof.
  revert s. induction xs as [|x xs IH]; intros s.
  - cbn [app for_each]. rewrite run_bind, run_ret, obind_returns. reflexivity.
  - cbn [app for_each]. rewrite !run_bind, obind_assoc. apply obind_ext.
    intros [[] s']. rewrite IH, run_bind. reflexivity.
Qed.

Lemma for_each_nested {S A B} (f : A * B -> State S unit) (l1 : list A) (l2 : list B) s :
  for_each l1 (fun a => for_each l2 (fun b => f (a, b))) s =
  for_each (a ← l1; b ← l2; [(a, b)]) f s.
Proof.
  revert s. induction l1 as [|a l1 IH]; intros s; [reflexivity|].
  cbn [for_each]. change ((a :: l1) ≫= ?k) with (k a ++ (l1 ≫= k)).
  rewrite for_each_app, !run_bind.
  assert (Hin : forall t, for_each l2 (fun b => f (a, b)) t =
                          for_each (l2 ≫= fun b => [(a, b)]) f t).
  { clear. induction l2 as [|b l2 IH2]; intros t; [reflexivity|].
    cbn [for_each]. change ((b :: l2) ≫= ?k) with (k b ++ (l2 ≫= k)).
    cbn [app for_each]. rewrite !run_bind. apply obind_ext. intros [[] t'].
    apply IH2. }
  rewrite Hin. apply obind_ext. intros [[] s']. apply IH.
Qed.

Section AllMode.
Context `{NumpySum}.

Lemma resize_same buf : resize buf (len buf) = buf.
Proof.
  unfold resize, len. rewrite Nat2Z.id, Nat.sub_diag, take_ge by lia.
  apply app_nil_r.
Qed.

Lemma grow_shorter_spec sc oc :
  grow_shorter sc oc =
  (resize sc (Z.max (len sc) (len oc)), resize oc (Z.max (len sc) (len oc))).
Proof.
  unfold grow_shorter.
  destruct (Z.ltb_spec (len oc) (len sc)).
  - rewrite Z.max_l by lia. rewrite resize_same. reflexivity.
  - destruct (Z.ltb_spec (len sc) (len oc)).
    + rewrite Z.max_r by lia. rewrite resize_same. reflexivity.
    + rewrite Z.max_l by lia. rewrite resize_same.
      replace (len sc) with (len oc) by lia. rewrite resize_same. reflexivity.
Qed.

Lemma combine_all_spec self other new func g gn :
  complete self -> complete other -> strands self <> [] ->
  dom (_chroms self) = dom (_chroms other) ->
  (forall x y, length x = length y -> on_arrays func x y = returns (g x y)) ->
  (forall x, on_number func x 0%float = returns (gn x)) ->
  exists new',
    combine_all func (Frame self other new) = returns (tt, Frame self other new') /\
    dom (_chroms new') = dom (_chroms self) /\
    strands new' = strand_union self other /\ _normalize new' = false /\
    forall c s, is_Some (_chroms self !! c) -> s ∈ strand_union self other ->
      exists d', _chroms new' !! c = Some d' /\
                 d' !! s = Some (combined g gn self other c s).
Proof.
  intros Hcs Hco Hs Hdom Harr Hnum. unfold combine_all.
  rewrite run_bind, run_get, obind_returns; cbv beta iota zeta.
  cbn [frame_self frame_other].
  set (chroms := chrom_union self other).
  set (strands' := strand_union self other).
  rewrite run_lift_bind.
  rewrite (init_spec _ (Some strands')) by (intros c l Hl;
    apply lookup_gset_to_gmap_Some in Hl as [_ Hl]; discriminate Hl).
  rewrite obind_returns. cbn [from_option id].
  rewrite run_bind, run_put, obind_returns; cbv beta iota.
  set (fresh := Make (fresh_chroms strands' (gset_to_gmap None (list_to_set chroms)))
                     strands' MIN_CHR_SIZE None false).
  assert (Hboth : forall c, c ∈ chroms -> c ∈ keys self /\ c ∈ keys other).
  { intros c Hc. apply elem_of_chrom_union in Hc. rewrite !elem_of_keys.
    rewrite <- !elem_of_dom in *. rewrite <- Hdom in *. tauto. }
  set (inner := fun '(c, strand) =>
                  if bool_decide (strand ∈ strands self)
                     && bool_decide (strand ∈ strands other)
                  then
                    sc ← in_self (buffer c strand);
                    oc ← in_other (buffer c strand);
                    let '(sc, oc) := grow_shorter sc oc in
                    v ← lift (on_arrays func sc oc);
                    in_new (store_buffer c strand v)
                  else if bool_decide (strand ∈ strands self) then
                    sc ← in_self (buffer c strand);
                    v ← lift (on_number func sc 0%float);
                    in_new (store_buffer c strand v)
                  else
                    oc ← in_other (buffer c strand);
                    v ← lift (on_number func oc 0%float);
                    in_new (store_buffer c strand v)).
  rewrite (for_each_ext _ (fun c => for_each strands' (fun s => inner (c, s)))).
  2:{ intros c f Hc. destruct (Hboth c Hc) as [Hks Hko].
      rewrite (bool_decide_eq_true_2 _ Hks), (bool_decide_eq_true_2 _ Hko).
      reflexivity. }
  rewrite for_each_nested.
  destruct (store_loop (c ← chroms; s ← strands'; [(c, s)]) inner
              (combined g gn self other) self other fresh)
    as (new' & Hrun & Hd & Hs' & Hn & _ & _ & Hin & _).
  - intros c s n d Hpair Hcn. apply elem_of_pairs in Hpair as [Hc Hs0].
    destruct (Hboth c Hc) as [Hks Hko].
    apply elem_of_keys in Hks as [ds Hds]. apply elem_of_keys in Hko as [do Hdo].
    assert (Hstore : forall v,
              in_new (store_buffer c s v) (Frame self other n) =
              returns (tt, Frame self other
                             (with_chroms (<[c := <[s := v]> d]> (_chroms n)) n))).
    { intros v. rewrite run_in_new, (store_buffer_found _ _ _ _ _ Hcn), obind_returns.
      reflexivity. }
    unfold inner, combined. rewrite Hds, Hdo. cbn [mbind option_bind from_option id].
    destruct (bool_decide_reflect (s ∈ strands self)) as [Hss|Hss];
      [destruct (bool_decide_reflect (s ∈ strands other)) as [Hso|Hso]|]; cbn [andb].
    + destruct (Hcs c ds s Hds Hss) as [sc Hsc].
      destruct (Hco c do s Hdo Hso) as [oc Hoc].
      rewrite run_bind, run_in_self, (buffer_found _ _ _ _ _ Hds Hsc), !obind_returns.
      cbv beta iota.
      rewrite run_bind, run_in_other, (buffer_found _ _ _ _ _ Hdo Hoc), !obind_returns.
      cbv beta iota. rewrite grow_shorter_spec.
      rewrite run_lift_bind, Harr, obind_returns.
      * rewrite Hstore, Hsc, Hoc. reflexivity.
      * rewrite !length_resize by (unfold len; lia). reflexivity.
    + destruct (Hcs c ds s Hds Hss) as [sc Hsc].
      rewrite run_bind, run_in_self, (buffer_found _ _ _ _ _ Hds Hsc), !obind_returns.
      cbv beta iota. rewrite run_lift_bind, Hnum, obind_returns.
      rewrite Hstore, Hsc. reflexivity.
    + assert (Hso : s ∈ strands other).
      { apply elem_of_strand_union in Hs0 as [Hs0|Hs0]; [contradiction|exact Hs0]. }
      destruct (Hco c do s Hdo Hso) as [oc Hoc].
      rewrite run_bind, run_in_other, (buffer_found _ _ _ _ _ Hdo Hoc), !obind_returns.
      cbv beta iota. rewrite run_lift_bind, Hnum, obind_returns.
      rewrite Hstore, Hoc. reflexivity.
  - intros c s Hpair. apply elem_of_pairs in Hpair as [Hc _].
    apply elem_of_dom. unfold fresh. cbn [_chroms].
    rewrite fresh_dom, dom_gset_to_gmap. apply elem_of_list_to_set. exact Hc.
  - exists new'. split; [exact Hrun|].
    assert (Hdf : dom (_chroms fresh) = dom (_chroms self)).
    { unfold fresh. cbn [_chroms]. rewrite fresh_dom, dom_gset_to_gmap.
      apply set_eq. intros c. rewrite elem_of_list_to_set.
      unfold chroms. rewrite elem_of_chrom_union, <- !elem_of_dom, <- Hdom. tauto. }
    split; [congruence|]. split; [exact Hs'|]. split; [exact Hn|].
    intros c s Hc Hs0. apply Hin. apply elem_of_pairs. split; [|exact Hs0].
    apply elem_of_chrom_union. left. exact Hc.
Qed.

Lemma all_operation self other func g gn :
  complete self -> complete other -> strands self <> [] ->
  dom (_chroms self) = dom (_chroms other) ->
  (forall x y, length x = length y -> on_arrays func x y = returns (g x y)) ->
  (forall x, on_number func x 0%float = returns (gn x)) ->
  exists new,
    apply_operation self (Array other) func "all" =
      Outcome (if _normalize self then [Warning DataWarning NormalizationOff] else [])
              (inr (new, self, Array other)) /\
    dom (_chroms new) = dom (_chroms self) /\
    (forall s, s ∈ strands new <-> s ∈ strands self \/ s ∈ strands other) /\
    (forall c ds do s sc oc,
        _chroms self !! c = Some ds -> _chroms other !! c = Some do ->
        s ∈ strands self -> s ∈ strands other ->
        ds !! s = Some sc -> do !! s = Some oc ->
        exists d', _chroms new !! c = Some d' /\
                   d' !! s = Some (g (resize sc (Z.max (len sc) (len oc)))
                                     (resize oc (Z.max (len sc) (len oc))))) /\
    (forall c ds s sc,
        _chroms self !! c = Some ds -> s ∈ strands self -> s ∉ strands other ->
        ds !! s = Some sc ->
        exists d', _chroms new !! c = Some d' /\ d' !! s = Some (gn sc)) /\
    (forall c do s oc,
        _chroms other !! c = Some do -> s ∉ strands self -> s ∈ strands other ->
        do !! s = Some oc ->
        exists d', _chroms new !! c = Some d' /\ d' !! s = Some (gn oc)).
Proof.
  intros Hcs Hco Hs Hdom Harr Hnum.
  destruct (like_dom self Hcs Hs) as (new0 & Hlike & _).
  destruct (combine_all_spec self other new0 func g gn Hcs Hco Hs Hdom Harr Hnum)
    as (new & Hrun & Hd & Hs1 & Hn1 & Hval).
  exists new. split; [|split; [exact Hd|split; [|split; [|split]]]].
  - unfold apply_operation. unfold mbind, outcome_bind, mret, outcome_ret.
    rewrite Hlike, obind_returns. cbv zeta.
    assert (Hw : (if _normalize self then warn DataWarning NormalizationOff else returns tt)
                 = Outcome (if _normalize self then [Warning DataWarning NormalizationOff]
                            else []) (inr tt)).
    { destruct (_normalize self); reflexivity. }
    rewrite Hw. unfold obind at 1. cbn [result warnings].
    destruct (decide ("all" = "same")) as [E|_]; [discriminate E|].
    destruct (decide ("all" = "all")) as [_|E]; [|congruence].
    rewrite Hrun, !obind_returns. cbv beta iota. cbn [frame_new frame_self frame_other].
    rewrite run_set_normalize, obind_returns. cbv beta iota.
    rewrite with_normalize_same. cbn [returns warnings result]. rewrite app_nil_r.
    reflexivity.
  - intros s. rewrite Hs1. apply elem_of_strand_union.
  - intros c ds do s sc oc Hds Hdo Hss Hso Hsc Hoc.
    destruct (Hval c s) as (d' & Hd' & Hv);
      [eauto|apply elem_of_strand_union; left; exact Hss|].
    exists d'. split; [exact Hd'|]. rewrite Hv. unfold combined.
    rewrite Hds, Hdo. cbn [mbind option_bind from_option id]. rewrite Hsc, Hoc.
    rewrite (bool_decide_eq_true_2 _ Hss), (bool_decide_eq_true_2 _ Hso). reflexivity.
  - intros c ds s sc Hds Hss Hso Hsc.
    destruct (Hval c s) as (d' & Hd' & Hv);
      [eauto|apply elem_of_strand_union; left; exact Hss|].
    exists d'. split; [exact Hd'|]. rewrite Hv. unfold combined.
    rewrite Hds. cbn [mbind option_bind from_option id]. rewrite Hsc.
    rewrite (bool_decide_eq_true_2 _ Hss), (bool_decide_eq_false_2 _ Hso). reflexivity.
  - intros c do s oc Hdo Hss Hso Hoc.
    assert (Hc : is_Some (_chroms self !! c)).
    { apply elem_of_dom. rewrite Hdom. apply elem_of_dom. eauto. }
    destruct (Hval c s) as (d' & Hd' & Hv);
      [exact Hc|apply elem_of_strand_union; right; exact Hso|].
    exists d'. split; [exact Hd'|]. rewrite Hv. unfold combined.
    rewrite Hdo. cbn [mbind option_bind from_option id]. rewrite Hoc.
    rewrite (bool_decide_eq_false_2 _ Hss). reflexivity.
Qed.

(** X18. In mode ["all"], [apply_operation] on two arrays with the same
    chromosomes returns a new array over the strands of either: where both
    have the strand it holds [func] of the two buffers, the shorter
    extended with zeros to the length of the longer; where one has it,
    [func] of that buffer and 0. Both operands are left as they were. *)
Theorem apply_operation_all self other func g gn :
  complete self -> complete other -> strands self <> [] ->
  dom (_chroms self) = dom (_chroms other) ->
  (forall x y, length x = length y -> on_arrays func x y = returns (g x y)) ->
  (forall x, on_number func x 0%float = returns (gn x)) ->
  exists new,
    apply_operation self (Array other) func "all" =
      Outcome (if _normalize self then [Warning DataWarning NormalizationOff] else [])
              (inr (new, self, Array other)) /\
    dom (_chroms new) = dom (_chroms self) /\
    (forall s, s ∈ strands new <-> s ∈ strands self \/ s ∈ strands other) /\
    (forall c ds do s sc oc,
        _chroms self !! c = Some ds -> _chroms other !! c = Some do ->
        s ∈ strands self -> s ∈ strands other ->
        ds !! s = Some sc -> do !! s = Some oc ->
        exists d', _chroms new !! c = Some d' /\
                   d' !! s = Some (g (resize sc (Z.max (len sc) (len oc)))
                                     (resize oc (Z.max (len sc) (len oc))))) /\
    (forall c ds s sc,
        _chroms self !! c = Some ds -> s ∈ strands self -> s ∉ strands other ->
        ds !! s = Some sc ->
        exists d', _chroms new !! c = Some d' /\ d' !! s = Some (gn sc)) /\
    (forall c do s oc,
        _chroms other !! c = Some do -> s ∉ strands self -> s ∈ strands other ->
        do !! s = Some oc ->
        exists d', _chroms new !! c = Some d' /\ d' !! s = Some (gn oc)).
Proof. exact (all_operation self other func g gn). Qed.

End AllMode.

Section Subtraction.
Context `{NumpySum}.

Lemma operator_add_on_arrays x y :
  length x = length y -> on_arrays operator_add x y = returns (zip_with PrimFloat.add x y).
Proof.
  intros Hl. cbn. unfold elementwise.
  destruct x as [|a [|b x]], y as [|c [|e y]]; try discriminate Hl; try reflexivity.
  destruct (decide (length (a :: b :: x) = length (c :: e :: y))); [reflexivity|].
  contradiction.
Qed.

Lemma result_obind_returns {A B} (f : A -> outcome B) w a :
  result (obind f (Outcome w (inr a))) = result (f a).
Proof. reflexivity. Qed.

Lemma result_obind_raises {A B} (f : A -> outcome B) (c : outcome A) e :
  result c = inl e -> result (obind f c) = inl e.
Proof. intros Hc. unfold obind. rewrite Hc. reflexivity. Qed.

(** The product of an array by [-1], as [__sub__] computes it. *)
Lemma negation_spec other :
  complete other -> strands other <> [] ->
  exists w n,
    __mul__ other (Number (-1)%float) "all" = Outcome w (inr (n, other, Number (-1)%float)) /\
    complete n /\ dom (_chroms n) = dom (_chroms other) /\ strands n = strands other /\
    forall c d s buf,
      _chroms other !! c = Some d -> s ∈ strands other -> d !! s = Some buf ->
      exists d', _chroms n !! c = Some d' /\
                 d' !! s = Some ((fun a => PrimFloat.mul a (-1)%float) <$> buf).
Proof.
  intros Hc Hs.
  destruct (scalar_operation other operator_mul (-1)%float
              (fun buf => (fun a => PrimFloat.mul a (-1)%float) <$> buf) "all" Hc Hs)
    as (n & Hrun & Hd & Hst & _ & Hval); [reflexivity|].
  eexists _, n. split; [exact Hrun|]. split; [|split; [exact Hd|split; [exact Hst|exact Hval]]].
  intros c d' s Hd' Hs'. rewrite Hst in Hs'.
  assert (Hco : is_Some (_chroms other !! c)).
  { apply elem_of_dom. rewrite <- Hd. apply elem_of_dom. eauto. }
  destruct Hco as [d Hdo]. destruct (Hc c d s Hdo Hs') as [buf Hbuf].
  destruct (Hval c d s buf Hdo Hs' Hbuf) as (d'' & Hd'' & Hv).
  rewrite Hd' in Hd''. injection Hd'' as <-. eauto.
Qed.

(** X19. Subtraction is addition of the product by [-1], in mode ["all"]
    whatever [mode] is passed: [self - x] holds [v + x*(-1)] wherever [self]
    holds [v]; [self - other] raises [AttributeError] when the two arrays
    differ in their chromosomes, although [mode] may say ["truncate"], and
    otherwise holds the sums of the entries of [self] and of the negated
    entries of [other], the shorter buffer extended with zeros. *)
Theorem sub_is_add_of_negation self mode :
  complete self -> strands self <> [] ->
  (forall x, exists new,
      result (__sub__ self (Number x) mode) = inr (new, self, Number x) /\
      forall c d s buf,
        _chroms self !! c = Some d -> s ∈ strands self -> d !! s = Some buf ->
        exists d', _chroms new !! c = Some d' /\
                   d' !! s = Some ((fun a => PrimFloat.add a (PrimFloat.mul x (-1)%float))
                                     <$> buf)) /\
  (forall other,
      complete other -> strands other <> [] ->
      dom (_chroms self) <> dom (_chroms other) ->
      result (__sub__ self (Array other) mode) = inl AttributeError) /\
  (forall other,
      complete other -> strands other <> [] ->
      dom (_chroms self) = dom (_chroms other) ->
      exists new,
        result (__sub__ self (Array other) mode) = inr (new, self, Array other) /\
        forall c ds do s sc oc,
          _chroms self !! c = Some ds -> _chroms other !! c = Some do ->
          s ∈ strands self -> s ∈ strands other ->
          ds !! s = Some sc -> do !! s = Some oc ->
          exists d', _chroms new !! c = Some d' /\
                     d' !! s =
                     Some (zip_with PrimFloat.add
                             (resize sc (Z.max (len sc) (len oc)))
                             (resize ((fun a => PrimFloat.mul a (-1)%float) <$> oc)
                                     (Z.max (len sc) (len oc))))).
Proof.
  intros Hcs Hs. split; [|split].
  - intros x.
    destruct (scalar_operation self operator_add (PrimFloat.mul x (-1)%float)
                (fun buf => (fun a => PrimFloat.add a (PrimFloat.mul x (-1)%float)) <$> buf)
                "all" Hcs Hs) as (new & Hrun & _ & _ & _ & Hval); [reflexivity|].
    exists new. split; [|exact Hval].
    unfold __sub__, __add__. unfold mbind, outcome_bind.
    rewrite obind_returns. cbv beta iota. rewrite Hrun. reflexivity.
  - intros other Hco Hso Hdiff.
    destruct (negation_spec other Hco Hso) as (w & n & Hneg & Hcn & Hdn & Hsn & _).
    unfold __sub__, __add__. unfold mbind, outcome_bind.
    rewrite Hneg. rewrite obind_assoc, result_obind_returns. cbv beta iota.
    rewrite obind_returns. cbv beta iota.
    apply result_obind_raises.
    apply all_operation_raises; try assumption.
    + intros x y Hl. eexists. apply (operator_add_on_arrays x y Hl).
    + intros x. eexists. reflexivity.
    + rewrite Hdn. exact Hdiff.
  - intros other Hco Hso Hdom.
    destruct (negation_spec other Hco Hso) as (w & n & Hneg & Hcn & Hdn & Hsn & Hnv).
    destruct (all_operation self n operator_add (zip_with PrimFloat.add)
                (fun x => (fun a => PrimFloat.add a 0%float) <$> x) Hcs Hcn Hs)
      as (new & Hrun & _ & _ & Hval & _).
    { rewrite Hdn. exact Hdom. }
    { apply operator_add_on_arrays. }
    { reflexivity. }
    exists new. split.
    + unfold __sub__, __add__. unfold mbind, outcome_bind.
      rewrite Hneg. rewrite obind_assoc, result_obind_returns. cbv beta iota.
      rewrite obind_returns. cbv beta iota. rewrite Hrun. reflexivity.
    + intros c ds do s sc oc Hds Hdo Hss Hso' Hsc Hoc.
      destruct (Hnv c do s oc Hdo Hso' Hoc) as (dn & Hdn' & Hnoc).
      destruct (Hval c ds dn s sc _ Hds Hdn' Hss ltac:(rewrite Hsn; exact Hso') Hsc Hnoc)
        as (d' & Hd' & Hv).
      exists d'. split; [exact Hd'|]. rewrite Hv. unfold len.
      rewrite length_fmap. reflexivity.
Qed.

End Subtraction.

Lemma sub_is_add_of_negation_witness :
  exists new,
    result (__sub__ chrI (Array chrI') "truncate") = inr (new, chrI, Array chrI') /\
    exists d', _chroms new !! "chrI"%string = Some d' /\
               d' !! Plus = Some [-4; 0; 0]%float.
Proof.
  destruct (proj2 (proj2 (sub_is_add_of_negation chrI "truncate"
                            (dense_complete [("chrI"%string, [1; 0; 2]%float)])
                            ltac:(discriminate))) chrI')
    as (new & Hrun & Hval).
  - apply dense_complete.
  - discriminate.
  - reflexivity.
  - exists new. split; [exact Hrun|].
    apply (Hval "chrI"%string
                {[ Plus := [1; 0; 2]%float; Minus := [1; 0; 2]%float ]}
                {[ Plus := [5; 0; 2]%float; Minus := [5; 0; 2]%float ]}
                Plus [1; 0; 2]%float [5; 0; 2]%float);
      first [reflexivity | left].
Defined.

Lemma apply_operation_all_witness :
  exists new,
    apply_operation chrI (Array (dense [("chrI"%string, [5; 0; 2; 9]%float)]))
                    operator_add "all"
    = returns (new, chrI, Array (dense [("chrI"%string, [5; 0; 2; 9]%float)])) /\
    exists d', _chroms new !! "chrI"%string = Some d' /\
               d' !! Plus = Some [6; 0; 4; 9]%float.
Proof.
  destruct (apply_operation_all chrI (dense [("chrI"%string, [5; 0; 2; 9]%float)])
              operator_add (zip_with PrimFloat.add)
              (fun x => (fun a => PrimFloat.add a 0%float) <$> x))
    as (new & Hrun & _ & _ & Hval & _).
  - apply dense_complete.
  - apply dense_complete.
  - discriminate.
  - reflexivity.
  - apply operator_add_on_arrays.
  - reflexivity.
  - exists new. split; [exact Hrun|].
    apply (Hval "chrI"%string
                {[ Plus := [1; 0; 2]%float; Minus := [1; 0; 2]%float ]}
                {[ Plus := [5; 0; 2; 9]%float; Minus := [5; 0; 2; 9]%float ]}
                Plus [1; 0; 2]%float [5; 0; 2; 9]%float);
      first [reflexivity | left].
Defined.

(** * variableStep export of the dense array *)

Section VariableStepLoop.
Context `{NumpySum}.

Lemma variable_step_positions ga chrom strand d buf idxs :
  _chroms ga !! chrom = Some d -> d !! strand = Some buf ->
  (forall idx, idx ∈ idxs -> idx ∈ np_nonzero buf) ->
  forall out,
  fold_each idxs out (fun out idx =>
    buf ← buffer chrom strand;
    val ← lift (item buf idx);
    mret (out ++ [Position (idx + 1) val])) ga =
  returns (out ++ ((fun idx => Position (idx + 1) (default 0%float (buf !! Z.to_nat idx)))
                     <$> idxs), ga).
Proof.
  intros Hc Hs. induction idxs as [|i idxs IH]; intros Hin out.
  - cbn. rewrite app_nil_r. reflexivity.
  - cbn [fold_each]. rewrite run_bind, run_bind.
    rewrite (buffer_found _ _ _ _ _ Hc Hs), obind_returns; cbv beta iota.
    destruct (proj1 (elem_of_np_nonzero buf i) (Hin i ltac:(left))) as (Hi & v & Hv & _).
    rewrite run_lift_bind, (item_inside _ _ _ Hi Hv), obind_returns, run_ret.
    rewrite obind_returns. rewrite IH by (intros j Hj; apply Hin; right; exact Hj).
    rewrite fmap_cons, Hv. cbn [from_option id]. rewrite <- app_assoc. reflexivity.
Qed.

Lemma to_variable_step_spec ga trackname strand kwargs :
  complete ga -> strand ∈ strands ga ->
  to_variable_step trackname strand kwargs ga =
  returns (WiggleTrack trackname (sorted_items kwargs) ::
           concat ((fun c => variable_step_block (buffer_of ga c strand) c)
                     <$> sorted (elements (dom (_chroms ga)))), ga).
Proof.
  intros Hc Hs. unfold to_variable_step.
  rewrite run_bind, run_get, obind_returns; cbv beta iota.
  rewrite (bool_decide_eq_true_2 _ Hs). cbn [negb]. cbv zeta.
  rewrite run_bind, (nonzero_returns ga Hc), obind_returns; cbv beta iota.
  rewrite dom_fmap_L.
  set (header := WiggleTrack trackname (sorted_items kwargs)).
  destruct (fold_each_total
              (fun done (out : list wiggle_line) s =>
                 s = ga /\
                 out = header ::
                       concat ((fun c => variable_step_block (buffer_of ga c strand) c)
                                 <$> done))
              (fun out chrom =>
                 let out := out ++ [VariableStep chrom] in
                 match (nonzero_strands (strands ga) <$> _chroms ga) !! chrom
                       ≫= (.!! strand) with
                 | None => throw KeyError
                 | Some indices =>
                   fold_each indices out (fun out idx =>
                     buf ← buffer chrom strand;
                     val ← lift (item buf idx);
                     mret (out ++ [Position (idx + 1) val]))
                 end)
              (sorted (elements (dom (_chroms ga)))))
    with (acc := [header]) (s := ga) as (out & ga' & Hrun & -> & ->).
  - intros done c out s [-> ->] Hin.
    assert (Hcd : is_Some (_chroms ga !! c)).
    { apply elem_of_dom. apply elem_of_elements.
      unfold sorted in Hin. rewrite merge_sort_Permutation in Hin. exact Hin. }
    destruct Hcd as [d Hd]. destruct (Hc c d strand Hd Hs) as [buf Hbuf].
    eexists _, ga. split; [|split; [reflexivity|]].
    + cbv zeta. rewrite lookup_fmap, Hd. cbn [fmap option_fmap option_map mbind option_bind].
      rewrite nonzero_strands_lookup.
      destruct (decide (strand ∈ strands ga)) as [_|Hn]; [|contradiction].
      rewrite Hbuf. cbn [from_option id].
      apply (variable_step_positions ga c strand d buf _ Hd Hbuf). tauto.
    + rewrite fmap_app, concat_app. cbn [fmap list_fmap concat].
      rewrite app_nil_r. unfold variable_step_block, buffer_of.
      rewrite Hd. cbn [mbind option_bind]. rewrite Hbuf. cbn [from_option id].
      rewrite app_comm_cons. rewrite <- app_assoc. reflexivity.
  - split; reflexivity.
  - exact Hrun.
Qed.

End VariableStepLoop.

Lemma stored_buffer_of ga c s p :
  stored ga c s p = if p <? 0 then None else buffer_of ga c s !! Z.to_nat p.
Proof.
  unfold stored, buffer_of. destruct (_chroms ga !! c) as [d|]; cbn.
  - destruct (d !! s); cbn; [reflexivity|]. destruct (p <? 0); reflexivity.
  - destruct (p <? 0); reflexivity.
Qed.

Section VariableStep.
Context `{NumpySum}.

(** X20. The variableStep export of a dense array never fails on an array
    that has the strand, and leaves the array as it is. After the track line
    it writes, for each chromosome by ascending name, the chromosome's
    declaration and one line for each position of the strand that holds a
    nonzero value, by ascending position: the position counted from 1, and
    the value. *)
Theorem to_variable_step_lists_nonzero_positions ga trackname strand kwargs :
  complete ga -> strand ∈ strands ga ->
  to_variable_step trackname strand kwargs ga =
    returns (WiggleTrack trackname (sorted_items kwargs) ::
             concat ((fun c => variable_step_block (buffer_of ga c strand) c)
                       <$> sorted (elements (dom (_chroms ga)))), ga) /\
  forall c x v,
    Position x v ∈ variable_step_block (buffer_of ga c strand) c <->
    stored ga c strand (x - 1) = Some v /\ nonzerob v = true.
Proof.
  intros Hc Hs. split; [apply (to_variable_step_spec _ _ _ _ Hc Hs)|].
  intros c x v. unfold variable_step_block. rewrite stored_buffer_of.
  set (buf := buffer_of ga c strand).
  rewrite elem_of_cons, list_elem_of_fmap. split.
  - intros [Hx|(idx & Hx & Hin)]; [discriminate Hx|].
    injection Hx as -> ->.
    apply elem_of_np_nonzero in Hin as (Hi & y & Hy & Hnz).
    destruct (Z.ltb_spec (idx + 1 - 1) 0); [lia|].
    replace (idx + 1 - 1) with idx by lia. rewrite Hy. cbn. split; [reflexivity|exact Hnz].
  - intros [Hv Hnz]. right. destruct (Z.ltb_spec (x - 1) 0); [discriminate Hv|].
    exists (x - 1). split.
    + rewrite Hv. cbn. f_equal. lia.
    + apply elem_of_np_nonzero. split; [lia|]. eauto.
Qed.

End VariableStep.

Lemma to_variable_step_lists_nonzero_positions_witness :
  to_variable_step "t" Minus [] chrI =
  returns ([WiggleTrack "t" []; VariableStep "chrI"; Position 1 1; Position 3 2], chrI).
Proof.
  apply (proj1 (to_variable_step_lists_nonzero_positions chrI "t" Minus []
                  (dense_complete [("chrI"%string, [1; 0; 2]%float)])
                  ltac:(right; left))).
Defined.

(** * Import of counts *)

Lemma for_each_fmap {S A B} (f : A -> B) (body : B -> State S unit) xs s :
  for_each (f <$> xs) body s = for_each xs (fun x => body (f x)) s.
Proof.
  revert s. induction xs as [|x xs IH]; intros s; [reflexivity|].
  cbn [fmap list_fmap for_each]. rewrite !run_bind. apply obind_ext.
  intros [[] s']. apply IH.
Qed.

Lemma lookup_add_over (buf : list float) lo hi (f : float -> float) (p : nat) :
  0 <= lo <= hi -> hi <= len buf ->
  (take (Z.to_nat lo) buf ++ (f <$> slice buf lo hi) ++ drop (Z.to_nat hi) buf) !! p =
  (fun v => if bool_decide (lo <= Z.of_nat p < hi) then f v else v) <$> buf !! p.
Proof.
  intros Hlo Hhi. rewrite slice_inside by assumption. unfold len in *.
  destruct (decide (p < Z.to_nat lo)%nat) as [H1|H1].
  - rewrite lookup_app_l by (rewrite length_take; lia).
    rewrite lookup_take_lt by lia.
    rewrite bool_decide_eq_false_2 by lia.
    destruct (buf !! p); reflexivity.
  - rewrite lookup_app_r by (rewrite length_take; lia).
    rewrite length_take, Nat.min_l by lia.
    destruct (decide (p < Z.to_nat hi)%nat) as [H2|H2].
    + rewrite lookup_app_l by (rewrite length_fmap, length_take, length_drop; lia).
      rewrite list_lookup_fmap, lookup_take_lt by lia. rewrite lookup_drop.
      replace (Z.to_nat lo + (p - Z.to_nat lo))%nat with p by lia.
      rewrite bool_decide_eq_true_2 by lia. reflexivity.
    + rewrite lookup_app_r by (rewrite length_fmap, length_take, length_drop; lia).
      rewrite length_fmap, length_take, length_drop, lookup_drop.
      replace (Z.to_nat hi + (p - Z.to_nat lo - Z.to_nat (hi - lo) `min` (length buf - Z.to_nat lo)))%nat
        with p by lia.
      rewrite bool_decide_eq_false_2 by lia.
      destruct (buf !! p); reflexivity.
Qed.

Section Wiggle.
Context `{NumpySum}.

Lemma buffer_len_Some ga c s n :
  buffer_len ga c s = Some n <->
  exists d buf, _chroms ga !! c = Some d /\ d !! s = Some buf /\ len buf = n.
Proof.
  unfold buffer_len. split.
  - destruct (_chroms ga !! c) as [d|]; cbn; [|discriminate].
    destruct (d !! s) as [buf|] eqn:Hs; cbn; [|discriminate].
    intros [= <-]. eauto.
  - intros (d & buf & -> & Hs & <-). cbn. rewrite Hs. reflexivity.
Qed.

Lemma increment_spec ga seg val :
  _normalize ga = false -> fits ga seg ->
  exists ga',
    increment seg val ga = returns (tt, ga') /\
    _normalize ga' = false /\ strands ga' = strands ga /\ _sum ga' = None /\
    (forall c s, buffer_len ga' c s = buffer_len ga c s) /\
    (forall c s p, stored ga' c s p =
                   (fun v => add_tuple c s p v (seg, val)) <$> stored ga c s p).
Proof.
  intros Hn (n & Hlen & Hse & He).
  apply buffer_len_Some in Hlen as (d & buf & Hc & Hs & <-).
  set (f := fun v => PrimFloat.add v val).
  set (sl := slice buf (start seg) (end_ seg)).
  set (buf' := take (Z.to_nat (start seg)) buf ++ (f <$> sl)
                 ++ drop (Z.to_nat (end_ seg)) buf).
  assert (Hsl : length sl = Z.to_nat (end_ seg - start seg)).
  { pose proof (slice_length buf (start seg) (end_ seg) Hse ltac:(lia)) as Hl.
    unfold len in Hl. subst sl. lia. }
  assert (Hbuf' : len buf' = len buf).
  { apply len_set_slice; [lia|lia|]. rewrite length_fmap. exact Hsl. }
  exists (with_normalize false
            (with_chroms (<[chrom seg := <[strand seg := buf']> d]> (_chroms ga))
               (with_normalize false (with_sum None ga)))).
  split; [|split; [reflexivity|split; [reflexivity|split; [reflexivity|split]]]].
  - unfold increment. rewrite run_bind.
    rewrite (getitem_fits _ _ _ _ _ Hn Hc Hs He), obind_returns; cbv beta iota.
    cbn [andb].
    rewrite (setitem_with_room ga seg _ true (with_normalize false (with_sum None ga))
               d buf (f <$> sl)).
    + rewrite Hn. reflexivity.
    + apply (make_room_fits _ _ _ _ d buf); assumption.
    + exact Hc.
    + exact Hs.
    + exact Hse.
    + lia.
    + destruct (bool_decide (strand seg = Minus)); cbn [andb reverse_values].
      * change (broadcast (Z.to_nat (seg_len seg))
                          (Vector (reverse (f <$> reverse sl))) = Some (f <$> sl)).
        rewrite fmap_reverse, reverse_involutive.
        apply broadcast_vector. rewrite length_fmap. exact Hsl.
      * apply broadcast_vector. rewrite length_fmap. exact Hsl.
  - intros c s. unfold buffer_len. cbn [with_normalize with_chroms _chroms].
    destruct (decide (chrom seg = c)) as [<-|Hnc].
    + rewrite lookup_insert_eq, Hc. cbn.
      destruct (decide (strand seg = s)) as [<-|Hns].
      * rewrite lookup_insert_eq, Hs. cbn. rewrite Hbuf'. reflexivity.
      * rewrite lookup_insert_ne by exact Hns. reflexivity.
    + rewrite lookup_insert_ne by exact Hnc. reflexivity.
  - intros c s p. rewrite !stored_buffer_of.
    destruct (Z.ltb_spec p 0); [reflexivity|].
    unfold buffer_of, add_tuple. cbn [with_normalize with_chroms _chroms fst snd].
    destruct (decide (chrom seg = c)) as [<-|Hnc].
    + rewrite lookup_insert_eq, Hc. cbn [mbind option_bind].
      destruct (decide (strand seg = s)) as [<-|Hns].
      * rewrite lookup_insert_eq, Hs. cbn [from_option id].
        subst buf' sl. rewrite (lookup_add_over buf _ _ f) by lia.
        rewrite Z2Nat.id by lia.
        destruct (bool_decide_reflect (start seg <= p < end_ seg)) as [Hp|Hp].
        -- rewrite bool_decide_eq_true_2 by tauto. reflexivity.
        -- rewrite bool_decide_eq_false_2 by tauto. reflexivity.
      * rewrite lookup_insert_ne by exact Hns.
        rewrite bool_decide_eq_false_2 by tauto.
        symmetry. apply option_fmap_id.
    + rewrite lookup_insert_ne by exact Hnc.
      rewrite bool_decide_eq_false_2 by tauto.
      symmetry. apply option_fmap_id.
Qed.

Lemma fits_ext ga ga' seg :
  (forall c s, buffer_len ga' c s = buffer_len ga c s) -> fits ga seg -> fits ga' seg.
Proof. intros Hl (n & Hn & Hrest). exists n. rewrite Hl. eauto. Qed.

Lemma increments_spec tuples : forall ga,
  _normalize ga = false -> Forall (fits ga) tuples.*1 ->
  exists ga',
    for_each tuples (fun '(seg, val) => increment seg val) ga = returns (tt, ga') /\
    _normalize ga' = false /\ strands ga' = strands ga /\
    (tuples <> [] -> _sum ga' = None) /\
    (forall c s, buffer_len ga' c s = buffer_len ga c s) /\
    (forall c s p, stored ga' c s p =
                   (fun v => foldl (add_tuple c s p) v tuples) <$> stored ga c s p).
Proof.
  induction tuples as [|[seg val] tuples IH]; intros ga Hn Hfits.
  - exists ga. split; [reflexivity|]. split; [exact Hn|]. split; [reflexivity|].
    split; [congruence|]. split; [reflexivity|].
    intros c s p. cbn. destruct (stored ga c s p); reflexivity.
  - cbn in Hfits. apply Forall_cons in Hfits as [Hfit Hfits].
    destruct (increment_spec ga seg val Hn Hfit)
      as (ga1 & Hrun1 & Hn1 & Hs1 & Hsum1 & Hlen1 & Hst1).
    destruct (IH ga1 Hn1) as (ga' & Hrun & Hn' & Hs' & Hsum' & Hlen' & Hst').
    { eapply Forall_impl; [exact Hfits|]. intros x. apply fits_ext, Hlen1. }
    exists ga'. split; [|split; [exact Hn'|split; [congruence|split; [|split]]]].
    + cbn [for_each]. rewrite run_bind, Hrun1, obind_returns. exact Hrun.
    + intros _. destruct tuples as [|t tuples]; [|apply Hsum'; discriminate].
      cbn in Hrun. injection Hrun as <-. exact Hsum1.
    + intros c s. rewrite Hlen', Hlen1. reflexivity.
    + intros c s p. rewrite Hst', Hst1. cbn [foldl].
      destruct (stored ga c s p); reflexivity.
Qed.

(** X21. Importing a wiggle file adds each record's value to the positions
    it covers: after [add_from_wiggle] every position of the strand holds
    what it held, plus the values of the records that cover it, added in
    the order of the file; the other strands are as they were, and no sum
    is cached. The records here lie within the buffers, and normalization
    is off. On a strand that the array does not have the import is
    refused. *)
Theorem add_from_wiggle_adds ga records strand :
  (strand ∉ strands ga ->
   result (add_from_wiggle records strand ga) = inl AssertionError) /\
  (_normalize ga = false -> strand ∈ strands ga ->
   Forall (fits ga) (wiggle_tuple strand <$> records).*1 ->
   exists ga',
     add_from_wiggle records strand ga = returns (tt, ga') /\
     _sum ga' = None /\
     (forall c s p,
        stored ga' c s p =
        (fun v => foldl (add_tuple c s p) v (wiggle_tuple strand <$> records))
          <$> stored ga c s p) /\
     (forall c s p, s <> strand -> stored ga' c s p = stored ga c s p)).
Proof.
  split.
  - intros Hs. unfold add_from_wiggle.
    rewrite run_bind, run_get, obind_returns; cbv beta iota.
    rewrite (bool_decide_eq_false_2 _ Hs). reflexivity.
  - intros Hn Hs Hfits.
    destruct (increments_spec _ ga Hn Hfits) as (ga1 & Hrun & Hn1 & Hs1 & _ & _ & Hst).
    exists (with_sum None ga1). split; [|split; [reflexivity|split]].
    + unfold add_from_wiggle.
      rewrite run_bind, run_get, obind_returns; cbv beta iota.
      rewrite (bool_decide_eq_true_2 _ Hs). cbn [negb].
      rewrite run_bind.
      rewrite for_each_fmap in Hrun.
      rewrite (for_each_ext _ (fun x => let '(seg, val) := wiggle_tuple strand x in
                                        increment seg val)).
      2:{ intros [[[c st] sp] v] s _. reflexivity. }
      rewrite Hrun, obind_returns; cbv beta iota.
      rewrite run_bind, run_get, obind_returns; cbv beta iota.
      apply run_put.
    + intros c s p. exact (Hst c s p).
    + intros c s p Hne. change (stored (with_sum None ga1) c s p) with (stored ga1 c s p).
      rewrite Hst.
      assert (Hid : forall v, foldl (add_tuple c s p) v (wiggle_tuple strand <$> records) = v).
      { clear -Hne. induction records as [|[[[c0 st] sp] v0] records IH]; intros v;
          [reflexivity|].
        cbn [fmap list_fmap foldl]. unfold add_tuple at 2. cbn [wiggle_tuple fst snd].
        rewrite bool_decide_eq_false_2 by (cbn; intros (_ & E & _); congruence).
        apply IH. }
      destruct (stored ga c s p); cbn; [rewrite Hid|]; reflexivity.
Qed.

End Wiggle.

Section Bowtie.
Context `{NumpySum}.

Lemma bowtie_loop (mapfunc : SegmentChain -> kwargs -> outcome mapped)
  min_length max_length trans_args tup features : forall ga,
  _normalize ga = false ->
  (forall f, f ∈ features -> counted min_length max_length f = true ->
             result (mapfunc f trans_args) = inr (tup f)) ->
  Forall (fits ga)
         (concat (tup <$> filter (fun f => counted min_length max_length f = true)
                                 features)).*1 ->
  exists w ga',
    for_each features (fun feature =>
        let span_len := seg_len (spanning_segment feature) in
        if (min_length <=? span_len)
           && (match max_length with Some m => span_len <=? m | None => true end)
        then
          tuples ← lift (mapfunc feature trans_args);
          for_each tuples (fun '(seg, val) => increment seg val)
        else mret tt) ga = Outcome w (inr (tt, ga')) /\
    _normalize ga' = false /\
    (forall c s, buffer_len ga' c s = buffer_len ga c s) /\
    (forall c s p,
       stored ga' c s p =
       (fun v => foldl (add_tuple c s p) v
                   (concat (tup <$> filter (fun f => counted min_length max_length f = true)
                                           features)))
         <$> stored ga c s p).
Proof.
  induction features as [|f features IH]; intros ga Hn Hmap Hfits.
  - exists [], ga. split; [reflexivity|]. split; [exact Hn|]. split; [reflexivity|].
    intros c s p. cbn. symmetry. apply option_fmap_id.
  - cbn [for_each]. rewrite run_bind. cbv zeta.
    change ((min_length <=? seg_len (spanning_segment f))
            && match max_length with
               | Some m => seg_len (spanning_segment f) <=? m
               | None => true
               end) with (counted min_length max_length f).
    rewrite filter_cons in Hfits |- *.
    destruct (counted min_length max_length f) eqn:Hcount.
    + destruct (decide (true = true)) as [_|E]; [|congruence].
      rewrite fmap_cons in Hfits |- *. cbn [concat] in Hfits |- *.
      rewrite fmap_app in Hfits. apply Forall_app in Hfits as [Hfits1 Hfits2].
      pose proof (Hmap f ltac:(left) Hcount) as Hf.
      destruct (mapfunc f trans_args) as [w1 r1]. cbn in Hf. subst r1.
      destruct (increments_spec (tup f) ga Hn Hfits1)
        as (ga1 & Hrun1 & Hn1 & _ & _ & Hlen1 & Hst1).
      destruct (IH ga1 Hn1) as (w2 & ga' & Hrun & Hn' & Hlen' & Hst').
      { intros f0 Hf0. apply Hmap. right. exact Hf0. }
      { eapply Forall_impl; [exact Hfits2|]. intros x. apply fits_ext, Hlen1. }
      exists (w1 ++ w2), ga'. split; [|split; [exact Hn'|split]].
      * rewrite run_lift_bind.
        rewrite (obind_run _ w1 (tup f) [] (tt, ga1)) by exact Hrun1.
        rewrite app_nil_r. apply obind_run. exact Hrun.
      * intros c s. rewrite Hlen', Hlen1. reflexivity.
      * intros c s p. rewrite Hst', Hst1.
        destruct (stored ga c s p); cbn [fmap option_fmap option_map];
          [rewrite foldl_app|]; reflexivity.
    + destruct (decide (false = true)) as [E|_]; [discriminate E|].
      destruct (IH ga Hn) as (w2 & ga' & Hrun & Hn' & Hlen' & Hst').
      { intros f0 Hf0. apply Hmap. right. exact Hf0. }
      { exact Hfits. }
      exists w2, ga'. split; [|split; [exact Hn'|split; [exact Hlen'|exact Hst']]].
      rewrite run_ret, obind_returns. exact Hrun.
Qed.

(** X22. Importing alignments adds each mapped value to the positions of its
    segment: after [add_from_bowtie] every position holds what it held plus
    the values that the mapping function returned for it, alignment by
    alignment, and no sum is cached. Alignments whose span is shorter than
    [min_length] or longer than [max_length] are not mapped and add
    nothing. The mapped segments here lie within the buffers, and
    normalization is off. *)
Theorem add_from_bowtie_adds ga features
  (mapfunc : SegmentChain -> kwargs -> outcome mapped)
  min_length max_length trans_args tup :
  let kept := filter (fun f => counted min_length max_length f = true) features in
  _normalize ga = false ->
  (forall f, f ∈ kept -> result (mapfunc f trans_args) = inr (tup f)) ->
  Forall (fits ga) (concat (tup <$> kept)).*1 ->
  exists ga',
    final (add_from_bowtie features mapfunc min_length max_length trans_args ga)
    = Some ga' /\
    _sum ga' = None /\
    forall c s p,
      stored ga' c s p =
      (fun v => foldl (add_tuple c s p) v (concat (tup <$> kept))) <$> stored ga c s p.
Proof.
  intros kept Hn Hmap Hfits.
  destruct (bowtie_loop mapfunc min_length max_length trans_args tup features ga Hn)
    as (w & ga1 & Hrun & _ & _ & Hst).
  { intros f Hf Hc. apply Hmap. apply list_elem_of_filter. split; assumption. }
  { exact Hfits. }
  exists (with_sum None ga1). split; [|split; [reflexivity|exact Hst]].
  unfold add_from_bowtie. rewrite run_bind.
  match goal with
  | |- context [for_each features ?b ga] =>
    assert (Hb : for_each features b ga = Outcome w (inr (tt, ga1))) by exact Hrun
  end.
  rewrite Hb. unfold obind at 1. cbn [result warnings]. cbv beta iota.
  rewrite run_bind, run_get, obind_returns; cbv beta iota.
  rewrite run_put. reflexivity.
Qed.

End Bowtie.

Lemma add_from_wiggle_adds_witness :
  exists ga',
    add_from_wiggle [("chrI"%string, 0, 2, 5%float); ("chrI"%string, 1, 2, 1%float)]
                    Plus chrI = returns (tt, ga') /\
    stored ga' "chrI" Plus 1 = Some 6%float /\
    stored ga' "chrI" Minus 1 = Some 0%float.
Proof.
  destruct (proj2 (add_from_wiggle_adds chrI
                     [("chrI"%string, 0, 2, 5%float); ("chrI"%string, 1, 2, 1%float)] Plus))
    as (ga' & Hrun & _ & Hst & _).
  - reflexivity.
  - left.
  - repeat constructor; exists 3; (split; [vm_compute; reflexivity|cbn; lia]).
  - exists ga'. split; [exact Hrun|]. rewrite !Hst. split; vm_compute; reflexivity.
Defined.

Lemma add_from_bowtie_adds_witness :
  exists ga',
    final (add_from_bowtie
             [ungapped (Segment "chrI" 10 40 Plus); ungapped (Segment "chrI" 10 30 Plus);
              ungapped (Segment "chrI" 12 40 Minus)]
             five_prime_map 25 None (Kwargs (Some (OffsetInt 2)) None None)
             (dense [("chrI"%string, replicate 50 0%float)])) = Some ga' /\
    stored ga' "chrI" Plus 12 = Some 1%float /\
    stored ga' "chrI" Minus 37 = Some 1%float.
Proof.
  destruct (add_from_bowtie_adds (dense [("chrI"%string, replicate 50 0%float)])
              [ungapped (Segment "chrI" 10 40 Plus); ungapped (Segment "chrI" 10 30 Plus);
               ungapped (Segment "chrI" 12 40 Minus)]
              five_prime_map 25 None (Kwargs (Some (OffsetInt 2)) None None)
              (fun f => [(site (spanning_segment f)
                               (five_prime_site (spanning_segment f) 2), 1%float)]))
    as (ga' & Hrun & _ & Hst).
  - reflexivity.
  - intros f Hf. vm_compute in Hf.
    apply elem_of_cons in Hf as [->|Hf]; [vm_compute; reflexivity|].
    apply elem_of_cons in Hf as [->|Hf]; [vm_compute; reflexivity|].
    inversion Hf.
  - match goal with
    | |- Forall ?P ?l => let l' := eval vm_compute in l in change (Forall P l')
    end.
    repeat constructor; exists 50; (split; [vm_compute; reflexivity|cbn; lia]).
  - exists ga'. split; [exact Hrun|]. rewrite !Hst. split; vm_compute; reflexivity.
Defined.

(** * The BAM array: references, filters, sums and export *)

Section BamArray.
Context {read : Type} `{AlignedSegment read} `{NumpySum}.
Implicit Types (a : B.t read).

Lemma max_lengths_lookup (pairs : list (string * Z)) k : forall d : gmap string Z,
  foldl (fun d '(k, v) => <[k := Z.max (default 0 (d !! k)) v]> d) d pairs !! k =
  match (filter (fun p => p.1 = k) pairs).*2 with
  | [] => d !! k
  | l => Some (foldl Z.max (default 0 (d !! k)) l)
  end.
Proof.
  induction pairs as [|[k' v] pairs IH]; intros d; [reflexivity|].
  cbn [foldl]. rewrite IH. rewrite filter_cons. cbn [fst].
  destruct (decide (k' = k)) as [->|Hne].
  - rewrite fmap_cons. cbn [snd foldl]. rewrite lookup_insert_eq. cbn [default from_option id].
    destruct ((filter (fun p => p.1 = k) pairs).*2); reflexivity.
  - rewrite lookup_insert_ne by exact Hne. reflexivity.
Qed.

Lemma foldl_bind {A B C} (f : C -> B -> C) (g : A -> list B) (xs : list A) : forall c,
  foldl (fun c x => foldl f c (g x)) c xs = foldl f c (xs ≫= g).
Proof.
  induction xs as [|x xs IH]; intros c; [reflexivity|].
  cbn [foldl]. rewrite IH. rewrite bind_cons, foldl_app. reflexivity.
Qed.

Lemma bam_lengths_spec (bamfiles : list (B.AlignmentFile read)) mapping k :
  B.lengths (B.__init__ bamfiles mapping) !! k =
  match reported bamfiles k with
  | [] => None
  | l => Some (foldl Z.max 0 l)
  end.
Proof.
  unfold B.__init__, B.lengths, reported. cbn [B.with_sum B._chr_lengths].
  rewrite (foldl_bind (fun d '(k, v) => <[k := Z.max (default 0 (d !! k)) v]> d)
                      (fun f => zip (B.references f) (B.lengths_ f))).
  rewrite max_lengths_lookup. rewrite lookup_empty. reflexivity.
Qed.

Lemma foldl_max_spec (l : list Z) : forall m0,
  m0 <= foldl Z.max m0 l /\
  (forall v, v ∈ l -> v <= foldl Z.max m0 l) /\
  (foldl Z.max m0 l = m0 \/ foldl Z.max m0 l ∈ l).
Proof.
  induction l as [|x l IH]; intros m0; cbn [foldl].
  - split; [lia|]. split; [intros v Hv; inversion Hv|left; reflexivity].
  - destruct (IH (Z.max m0 x)) as (Hge & Hall & Hin).
    split; [lia|]. split.
    + intros v [->|Hv]%elem_of_cons; [lia|apply Hall, Hv].
    + destruct Hin as [Heq|Hin]; [|right; apply elem_of_cons; right; exact Hin].
      rewrite Heq. destruct (Z.max_spec m0 x) as [[_ ->]|[_ ->]];
        [right; apply elem_of_cons; left; reflexivity|left; reflexivity].
Qed.

(** X23. A BAM array knows the references of all its files, in sorted order
    and once each; the length of each is the largest that a file reports for
    it, or 0 if they are all negative. *)
Theorem bam_init_chromosomes (bamfiles : list (B.AlignmentFile read)) mapping :
  let a := B.__init__ bamfiles mapping in
  Sorted String.le (B.chroms a) /\ NoDup (B.chroms a) /\
  (forall k, k ∈ B.chroms a <->
             exists f, f ∈ bamfiles /\ k ∈ take (length (B.lengths_ f)) (B.references f)) /\
  (forall k, k ∈ B.chroms a <-> is_Some (B.lengths a !! k)) /\
  (forall k m, B.lengths a !! k = Some m ->
     0 <= m /\ (forall v, v ∈ reported bamfiles k -> v <= m) /\
     (m = 0 \/ m ∈ reported bamfiles k)).
Proof.
  intros a.
  assert (Hperm : B.chroms a ≡ₚ elements (dom (B.lengths a))).
  { apply merge_sort_Permutation. }
  assert (Hin : forall k, k ∈ B.chroms a <-> is_Some (B.lengths a !! k)).
  { intros k. rewrite Hperm, elem_of_elements, elem_of_dom. reflexivity. }
  split; [|split; [|split; [|split]]].
  - apply (Sorted_merge_sort String.le).
  - rewrite Hperm. apply NoDup_elements.
  - intros k. rewrite Hin. subst a. rewrite bam_lengths_spec.
    unfold reported.
    assert (Hk : (filter (fun p : string * Z => p.1 = k)
                    (bamfiles ≫= fun f => zip (B.references f) (B.lengths_ f))).*2 <> []
                 <-> exists f, f ∈ bamfiles /\
                               k ∈ take (length (B.lengths_ f)) (B.references f)).
    { split.
      - intros Hne.
        destruct (filter _ _) as [|[k0 v] rest] eqn:Hf; [contradiction Hne; reflexivity|].
        assert (Hm : (k0, v) ∈ filter (fun p : string * Z => p.1 = k)
                        (bamfiles ≫= fun f => zip (B.references f) (B.lengths_ f))).
        { rewrite Hf. apply elem_of_cons. left. reflexivity. }
        apply list_elem_of_filter in Hm as [Hk0 Hm]. cbn in Hk0. subst k0.
        apply list_elem_of_bind in Hm as (f & Hm & Hf').
        exists f. split; [exact Hf'|].
        apply list_elem_of_lookup in Hm as [i Hi].
        apply lookup_zip_with_Some in Hi as (x & y & [= <- <-] & Hx & Hy).
        apply list_elem_of_lookup. exists i. rewrite lookup_take_lt; [exact Hx|].
        apply lookup_lt_Some in Hy. exact Hy.
      - intros (f & Hf & Hk') Hnil.
        apply list_elem_of_lookup in Hk' as [i Hi].
        assert (Hlt : (i < length (B.lengths_ f))%nat).
        { destruct (decide (i < length (B.lengths_ f))%nat); [assumption|].
          rewrite lookup_take_ge in Hi by lia. discriminate. }
        rewrite lookup_take_lt in Hi by exact Hlt.
        destruct (lookup_lt_is_Some_2 _ _ Hlt) as [v Hv].
        assert (Hm : (k, v) ∈ filter (fun p : string * Z => p.1 = k)
                        (bamfiles ≫= fun f => zip (B.references f) (B.lengths_ f))).
        { apply list_elem_of_filter. split; [reflexivity|].
          apply list_elem_of_bind. exists f. split; [|exact Hf].
          apply list_elem_of_lookup. exists i.
          apply lookup_zip_with_Some. exists k, v. auto. }
        apply (list_elem_of_fmap_2 snd) in Hm. rewrite Hnil in Hm. inversion Hm. }
    rewrite <- Hk.
    destruct ((filter _ _).*2); split.
    + intros [? [=]].
    + intros Hne; contradiction Hne; reflexivity.
    + intros _; discriminate.
    + intros _; eexists; reflexivity.
  - exact Hin.
  - intros k m. subst a. rewrite bam_lengths_spec.
    destruct (reported bamfiles k) as [|v l] eqn:Hrep; [discriminate|].
    intros [= <-]. destruct (foldl_max_spec (v :: l) 0) as (Hge & Hall & Hor).
    split; [exact Hge|]. split; [exact Hall|]. destruct Hor as [Heq|Hor]; [left; exact Heq|right; exact Hor].
Qed.

Lemma filter_filter_bool {A} (p q : A -> bool) (l : list A) :
  filter (fun x => q x = true) (filter (fun x => p x = true) l) =
  filter (fun x => p x && q x = true) l.
Proof.
  induction l as [|x l IH]; [reflexivity|].
  rewrite !filter_cons. destruct (p x) eqn:Hp.
  - rewrite decide_True by reflexivity. rewrite filter_cons. cbn [andb].
    destruct (decide (q x = true)); rewrite IH; reflexivity.
  - rewrite decide_False by discriminate. cbn [andb].
    rewrite decide_False by discriminate. exact IH.
Qed.

Lemma filter_true {A} (l : list A) : filter (fun _ : A => true = true) l = l.
Proof.
  induction l as [|x l IH]; [reflexivity|].
  rewrite filter_cons, decide_True by reflexivity. rewrite IH. reflexivity.
Qed.

Lemma filter_bool_ext {A} (p q : A -> bool) (l : list A) :
  (forall x, p x = q x) ->
  filter (fun x => p x = true) l = filter (fun x => q x = true) l.
Proof.
  intros Hpq. induction l as [|x l IH]; [reflexivity|].
  rewrite !filter_cons, IH.
  destruct (decide (p x = true)) as [Hp|Hp], (decide (q x = true)) as [Hq|Hq];
    try reflexivity; rewrite Hpq in Hp; contradiction.
Qed.

Lemma filters_fold (fs : list (read -> bool)) : forall (p : read -> bool) (reads : list read),
  foldl (fun reads my_filter => filter (fun x => my_filter x = true) reads)
        (filter (fun x => p x = true) reads) fs =
  filter (fun x => p x && forallb (fun f => f x) fs = true) reads.
Proof.
  induction fs as [|f fs IH]; intros p reads; cbn [foldl forallb].
  - apply filter_bool_ext. intros x. rewrite andb_true_r. reflexivity.
  - rewrite filter_filter_bool, IH. apply filter_bool_ext. intros x.
    rewrite andb_assoc. reflexivity.
Qed.

Lemma mapped_counts_passes roi a :
  mapped_counts roi a =
  obind (fun fetched =>
           B.map_fn a (filter (fun x => passes a roi x = true) (concat fetched)) roi)
        (mapM (fun X => B.fetch X (chrom roi) (start roi) (end_ roi)) (B.bamfiles a)).
Proof.
  unfold mapped_counts. apply obind_ext. intros fetched. cbv zeta. f_equal.
  unfold passes. destruct (strand roi).
  - rewrite <- (filters_fold _ (fun x => negb (is_reverse x))). f_equal.
    apply list_filter_iff. intros x. destruct (is_reverse x); cbn [negb];
      split; intros Hx; solve [reflexivity|discriminate Hx].
  - rewrite <- (filters_fold _ (fun x => is_reverse x)). reflexivity.
  - rewrite <- (filters_fold _ (fun _ => true)). rewrite filter_true. reflexivity.
Qed.

Lemma finish_reads roi roi_order a reads ca :
  exists w c a', finish roi roi_order a (reads, ca) = Outcome w (inr ((reads, c), a')).
Proof.
  unfold finish. destruct (B._normalize a).
  - rewrite bam_sum_spec. destruct (B._sum a); rewrite obind_returns; eauto.
  - eauto.
Qed.

(** X24. The reads that [get_reads] returns are those the mapping function
    keeps of the fetched reads that lie on the strand of the region and pass
    every filter; normalization and the sum play no part.  On an unknown
    chromosome there are none. *)
Theorem get_reads_pass_every_filter a roi :
  answer (B.get_reads roi a) =
  if bool_decide (chrom roi ∈ B.chroms a) then
    match result
            (obind (fun fetched =>
                      B.map_fn a (filter (fun x => passes a roi x = true)
                                         (concat fetched)) roi)
                   (mapM (fun X => B.fetch X (chrom roi) (start roi) (end_ roi))
                         (B.bamfiles a)))
    with
    | inl e => inl e
    | inr (reads, _) => inr reads
    end
  else if seg_len roi <? 0 then inl ValueError else inr [].
Proof.
  unfold B.get_reads. rewrite run_bind, get_reads_and_counts_spec.
  destruct (bool_decide (chrom roi ∈ B.chroms a)); cbn [negb].
  - rewrite <- mapped_counts_passes.
    destruct (mapped_counts roi a) as [w [e|[reads ca]]]; [reflexivity|].
    destruct (finish_reads roi true a reads ca) as (w' & c & a' & Hf).
    unfold obind at 2. cbn [result warnings]. rewrite Hf. cbn [result warnings].
    reflexivity.
  - unfold zeros. destruct (seg_len roi <? 0); reflexivity.
Qed.

Lemma od_pop_absent {V} k (d : list (string * V)) : k ∉ d.*1 -> od_pop k d = None.
Proof.
  induction d as [|[k' v'] d IH]; intros Hk; [reflexivity|].
  cbn [od_pop]. rewrite fmap_cons in Hk. cbn [fst] in Hk.
  apply not_elem_of_cons in Hk as [Hne Hk].
  rewrite decide_False by congruence. rewrite (IH Hk). reflexivity.
Qed.

Lemma od_pop_set_fresh {V} k (v : V) d :
  k ∉ d.*1 -> od_pop k (od_set k v d) = Some (v, d).
Proof.
  induction d as [|[k' v'] d IH]; intros Hk.
  - cbn. rewrite decide_True by reflexivity. reflexivity.
  - rewrite fmap_cons in Hk. cbn [fst] in Hk.
    apply not_elem_of_cons in Hk as [Hne Hk].
    cbn [od_set]. rewrite decide_False by congruence.
    cbn [od_pop]. rewrite decide_False by congruence.
    rewrite (IH Hk). reflexivity.
Qed.

Lemma od_pop_set {V} k (v : V) d : exists rest, od_pop k (od_set k v d) = Some (v, rest).
Proof.
  induction d as [|[k' v'] d [rest IH]].
  - exists []. cbn. rewrite decide_True by reflexivity. reflexivity.
  - cbn [od_set]. destruct (decide (k' = k)) as [->|Hne].
    + exists d. cbn [od_pop]. rewrite decide_True by reflexivity. reflexivity.
    + exists ((k', v') :: rest). cbn [od_pop]. rewrite decide_False by exact Hne.
      rewrite IH. reflexivity.
Qed.

Lemma od_set_fresh {V} k (v : V) d : k ∉ d.*1 -> od_set k v d = d ++ [(k, v)].
Proof.
  induction d as [|[k' v'] d IH]; intros Hk; [reflexivity|].
  rewrite fmap_cons in Hk. cbn [fst] in Hk.
  apply not_elem_of_cons in Hk as [Hne Hk].
  cbn [od_set]. rewrite decide_False by congruence. rewrite (IH Hk). reflexivity.
Qed.

Lemma with_filters_same a : B.with_filters (B._filters a) a = a.
Proof. destruct a; reflexivity. Qed.

(** X25. A filter that was added is the one [remove_filter] gives back;
    under a new name, adding it narrows the reads to those it accepts, and
    removing it again restores the array.  Removing a name that is not there
    raises [KeyError]. *)
Theorem filter_added_then_removed a name func :
  answer ((B.add_filter name func ≫= fun _ => B.remove_filter name) a) = inr func /\
  (name ∉ (B._filters a).*1 ->
   answer (B.remove_filter name a) = inl KeyError /\
   (B.add_filter name func ≫= fun _ => B.remove_filter name) a = returns (func, a) /\
   exists a', B.add_filter name func a = returns (tt, a') /\
              forall roi x, passes a' roi x = passes a roi x && func x).
Proof.
  split.
  - rewrite run_bind. unfold B.add_filter. rewrite obind_returns; cbv beta iota.
    unfold B.remove_filter. cbn [B.with_filters B._filters].
    destruct (od_pop_set name func (B._filters a)) as [rest ->]. reflexivity.
  - intros Hfresh. split; [|split].
    + unfold B.remove_filter. rewrite (od_pop_absent _ _ Hfresh). reflexivity.
    + rewrite run_bind. unfold B.add_filter. rewrite obind_returns; cbv beta iota.
      unfold B.remove_filter. cbn [B.with_filters B._filters].
      rewrite (od_pop_set_fresh _ _ _ Hfresh).
      destruct a; reflexivity.
    + eexists. split; [reflexivity|]. intros roi x. unfold passes.
      cbn [B.with_filters B._filters]. rewrite (od_set_fresh _ _ _ Hfresh).
      rewrite fmap_app, forallb_app. cbn [fmap list_fmap snd forallb].
      rewrite andb_true_r, andb_assoc. reflexivity.
Qed.

(** X26. A sum set by hand is what [sum] reports and what normalized counts
    are scaled by, until [set_mapping] is called: that resets the sum to the
    number of mapped reads of the files. *)
Theorem manual_sum_until_set_mapping a v f roi o :
  answer ((B.set_sum v ≫= fun _ => B.sum) a) = inr v /\
  answer ((B.set_sum v ≫= fun _ => B.set_mapping f ≫= fun _ => B.sum) a)
  = inr (total_mapped a) /\
  (chrom roi ∈ B.chroms a ->
   answer ((B.set_normalize true ≫= fun _ => B.set_sum v ≫= fun _ =>
            B.__getitem__ roi o) a)
   = match answer (B.__getitem__ roi o (B.with_normalize false a)) with
     | inl e => inl e
     | inr c => inr ((fun c => PrimFloat.mul (PrimFloat.div c v) 1e6%float) <$> c)
     end).
Proof.
  split; [|split].
  - rewrite run_bind. unfold B.set_sum. rewrite obind_returns; cbv beta iota.
    rewrite bam_sum_spec. reflexivity.
  - rewrite run_bind. unfold B.set_sum. rewrite obind_returns; cbv beta iota.
    rewrite run_bind. unfold B.set_mapping.
    rewrite run_bind, run_get, obind_returns; cbv beta iota.
    rewrite run_bind, run_put, obind_returns; cbv beta iota.
    unfold B._update, B.reset_sum.
    rewrite run_bind, run_get, obind_returns; cbv beta iota.
    rewrite run_put, obind_returns; cbv beta iota.
    rewrite bam_sum_spec. reflexivity.
  - intros Hchrom.
    rewrite run_bind. unfold B.set_normalize. rewrite obind_returns; cbv beta iota.
    rewrite run_bind. unfold B.set_sum. rewrite obind_returns; cbv beta iota.
    unfold B.__getitem__. rewrite !run_bind, !get_reads_and_counts_spec.
    change (B.chroms (B.with_sum (Some v) (B.with_normalize true a))) with (B.chroms a).
    change (B.chroms (B.with_normalize false a)) with (B.chroms a).
    rewrite bool_decide_true by exact Hchrom. cbn [negb].
    change (mapped_counts roi (B.with_sum (Some v) (B.with_normalize true a)))
      with (mapped_counts roi a).
    change (mapped_counts roi (B.with_normalize false a)) with (mapped_counts roi a).
    destruct (mapped_counts roi a) as [w [e|[reads ca]]]; [reflexivity|].
    unfold obind at 2 4. cbn [result warnings].
    unfold finish. cbn [B._normalize B.with_sum B.with_normalize].
    rewrite bam_sum_spec. cbn [B._sum B.with_sum]. rewrite obind_returns.
    unfold answer, obind; cbn [result warnings]. f_equal.
    destruct (o && bool_decide (strand roi = Minus)); [|reflexivity].
    rewrite fmap_reverse. reflexivity.
Qed.

Lemma finish_oriented roi a reads ca :
  finish roi true a (reads, ca) =
  obind (fun '((r, c), a') =>
           returns ((r, if bool_decide (strand roi = Minus) then reverse c else c), a'))
        (finish roi false a (reads, ca)).
Proof.
  unfold finish. cbn [andb]. destruct (B._normalize a).
  - rewrite bam_sum_spec. destruct (B._sum a); rewrite !obind_returns; reflexivity.
  - rewrite obind_returns. reflexivity.
Qed.

(** X27. [roi_order] only decides the direction of the answer: what an
    array returns for a region in the region's own order is what it returns
    in the order of the chromosome, reversed if the region is on the minus
    strand.  For the dense array the state left behind is the same. *)
Theorem roi_order_reverses_minus_strand roi :
  (forall a,
     answer (B.__getitem__ roi true a) =
     match answer (B.__getitem__ roi false a) with
     | inl e => inl e
     | inr c => inr (if bool_decide (strand roi = Minus) then reverse c else c)
     end) /\
  (forall ga,
     GenomeArray.__getitem__ roi true ga =
     obind (fun '(c, ga') =>
              returns (if bool_decide (strand roi = Minus) then reverse c else c, ga'))
           (GenomeArray.__getitem__ roi false ga)).
Proof.
  split.
  - intros a. unfold B.__getitem__. rewrite !run_bind, !get_reads_and_counts_spec.
    destruct (negb (bool_decide (chrom roi ∈ B.chroms a))).
    + unfold zeros. destruct (seg_len roi <? 0); [reflexivity|].
      rewrite !obind_returns. cbn. rewrite reverse_replicate.
      destruct (bool_decide (strand roi = Minus)); reflexivity.
    + destruct (mapped_counts roi a) as [w [e|[reads ca]]]; [reflexivity|].
      unfold obind at 2 4. cbn [result warnings]. rewrite finish_oriented.
      destruct (finish roi false a (reads, ca)) as [w' [e|[[r c] a']]]; reflexivity.
  - intros ga. unfold GenomeArray.__getitem__; cbv zeta.
    rewrite !run_bind, !obind_assoc. apply obind_ext. intros [[] ga1].
    rewrite !run_bind, !obind_assoc. apply obind_ext. intros [buf ga2].
    rewrite !run_bind, !run_get, !obind_returns; cbv beta iota.
    rewrite !run_bind, !obind_assoc. apply obind_ext. intros [vals ga3].
    rewrite !run_ret, !obind_returns. reflexivity.
Qed.

Lemma fold_each_prefix {S A B} (I : list A -> B -> S -> Prop)
  (body : B -> A -> State S B) xs : forall done acc s w acc' s',
  (forall done' x acc s w acc' s',
      x ∈ xs -> I done' acc s -> body acc x s = Outcome w (inr (acc', s')) ->
      I (done' ++ [x]) acc' s') ->
  I done acc s -> fold_each xs acc body s = Outcome w (inr (acc', s')) ->
  I (done ++ xs) acc' s'.
Proof.
  induction xs as [|x xs IH]; intros done acc s w acc' s' Hbody HI Hrun.
  - cbn in Hrun. injection Hrun as _ <- <-. rewrite app_nil_r. exact HI.
  - cbn [fold_each] in Hrun. rewrite run_bind in Hrun.
    apply obind_inv in Hrun as (w1 & [acc1 s1] & w2 & Hb & Hrest & ->).
    replace (done ++ x :: xs) with ((done ++ [x]) ++ xs)
      by (rewrite <- app_assoc; reflexivity).
    apply (IH (done ++ [x]) acc1 s1 w2 acc' s'); [|
      apply (Hbody done x acc s w1 acc1 s1); [left|exact HI|exact Hb] | exact Hrest].
    intros d y acc0 s0 w0 acc0' s0' Hy. apply Hbody. right. exact Hy.
Qed.

Lemma xrange_from_0_multiples stop step l x :
  xrange_from_0 stop step = returns l -> x ∈ l -> exists k, 0 <= k /\ x = k * step.
Proof.
  unfold xrange_from_0. destruct (step =? 0); [discriminate|].
  intros [= <-] Hx. apply list_elem_of_fmap in Hx as (k & -> & Hk).
  apply elem_of_seqZ in Hk. exists k. split; [lia|reflexivity].
Qed.

Lemma positions_loop (counts : list float) my_start l :
  forall (out : list wiggle_line) (s : B.t read) w out' s',
  (forall idx, idx ∈ l -> idx ∈ np_nonzero counts) ->
  fold_each l out (fun out idx =>
      val ← lift (item counts idx);
      mret (out ++ [Position (my_start + idx + 1) val])) s
  = Outcome w (inr (out', s')) ->
  w = [] /\ s' = s /\
  exists added, out' = out ++ added /\
    Forall (fun l => exists idx v,
              0 <= idx /\ counts !! Z.to_nat idx = Some v /\ nonzerob v = true /\
              l = Position (my_start + idx + 1) v) added.
Proof.
  induction l as [|idx l IH]; intros out s w out' s' Hl Hrun.
  - cbn in Hrun. injection Hrun as <- <- <-. split; [reflexivity|].
    split; [reflexivity|]. exists []. rewrite app_nil_r. split; [reflexivity|constructor].
  - cbn [fold_each] in Hrun. rewrite run_bind in Hrun.
    apply obind_inv in Hrun as (w3 & [o1 s1] & w4 & Hb & Hrest & ->).
    assert (Hidx : idx ∈ np_nonzero counts) by (apply Hl; left).
    apply elem_of_np_nonzero in Hidx as (Hnn & v & Hv & Hnz).
    rewrite run_lift_bind in Hb. unfold item in Hb.
    destruct (Z.ltb_spec idx 0); [lia|].
    destruct (Z.ltb_spec idx 0); [lia|].
    rewrite Hv, obind_returns, run_ret in Hb. injection Hb as <- <- <-.
    apply IH in Hrest as (-> & -> & added & -> & Hadded);
      [|intros i Hi; apply Hl; right; exact Hi].
    split; [reflexivity|]. split; [reflexivity|].
    exists (Position (my_start + idx + 1) v :: added).
    split; [rewrite <- app_assoc; reflexivity|].
    constructor; [|exact Hadded]. exists idx, v. auto.
Qed.

Lemma variable_step_window_spec chrom strand my_size window_size out my_start a w out' a' :
  B.variable_step_window chrom strand my_size window_size out my_start a
  = Outcome w (inr (out', a')) ->
  exists counts added,
    B.__getitem__ (Segment chrom my_start (Z.min (my_start + window_size) my_size) strand)
                  false a
    = Outcome w (inr (counts, a')) /\
    out' = out ++ added /\
    Forall (fun l => exists idx v,
                0 <= idx /\ counts !! Z.to_nat idx = Some v /\ nonzerob v = true /\
                l = Position (my_start + idx + 1) v) added.
Proof.
  unfold B.variable_step_window; cbv zeta. rewrite run_bind. intros Hrun.
  apply obind_inv in Hrun as (w1 & [counts a1] & w2 & Hget & Hrest & ->).
  exists counts.
  destruct (PrimFloat.ltb 0%float (np_sum counts)).
  - apply positions_loop in Hrest as (-> & -> & added & -> & Hadded); [|auto].
    exists added. rewrite app_nil_r. auto.
  - rewrite run_ret in Hrest. injection Hrest as <- <- <-.
    exists []. rewrite !app_nil_r. split; [exact Hget|]. split; [reflexivity|constructor].
Qed.

(** X28. What the BAM array writes as [variableStep]: after the track line,
    one declaration for each chromosome, in sorted order, and between them
    only positions at which the array reports a nonzero count, each with
    that count and numbered from 1. *)
Theorem bam_variable_step_positions a trackname strand window_size kwargs lines :
  answer (B.to_variable_step trackname strand window_size kwargs a) = inr lines ->
  exists body,
    lines = WiggleTrack trackname (sorted_items kwargs) :: body /\
    filter (fun l => is_position l = false) body
    = VariableStep <$> sorted (B.chroms a) /\
    Forall (fun l => is_position l = true -> position_line a strand window_size l) body.
Proof.
  intros Hans. apply answer_inv in Hans as (w & a' & Hrun).
  unfold B.to_variable_step in Hrun.
  rewrite run_bind, run_get, obind_returns in Hrun; cbv beta iota in Hrun.
  destruct (negb (bool_decide (strand ∈ B.strands a))); [discriminate Hrun|].
  cbv zeta in Hrun.
  set (I := fun (done : list string) (out : list wiggle_line) (s : B.t read) =>
              cache_of a s /\
              exists body, out = WiggleTrack trackname (sorted_items kwargs) :: body /\
                filter (fun l => is_position l = false) body = VariableStep <$> done /\
                Forall (fun l => is_position l = true ->
                                 position_line a strand window_size l) body).
  assert (HI : I ([] ++ sorted (B.chroms a)) lines a');
    [|destruct HI as [_ HI]; exact HI].
  refine (fold_each_prefix I _ _ _ _ _ _ _ _ _ _ Hrun).
  - intros done chrom out s w1 out1 s1 _ [Hc (body & -> & Hdecl & Hpos)] Hbody.
    destruct (B.lengths a !! chrom) as [my_size|] eqn:Hsize; [|discriminate Hbody].
    change (B._chr_lengths a !! chrom) with (B.lengths a !! chrom) in Hbody.
    rewrite Hsize in Hbody. rewrite run_lift_bind in Hbody.
    apply obind_inv in Hbody as (w2 & starts & w3 & Hstarts & Hbody & ->).
    assert (Hst : xrange_from_0 my_size window_size = returns starts).
    { revert Hstarts. unfold xrange_from_0. destruct (window_size =? 0); [discriminate|].
      intros [= <- <-]. reflexivity. }
    set (J := fun (out : list wiggle_line) (s : B.t read) =>
                cache_of a s /\
                exists added, out = WiggleTrack trackname (sorted_items kwargs)
                                    :: body ++ VariableStep chrom :: added /\
                  Forall (fun l => is_position l = true /\
                                   position_line a strand window_size l) added).
    assert (HJ : J out1 s1).
    { refine (fold_each_inv J _ _ _ _ _ _ _ _ _ Hbody).
      - intros my_start out0 s0 w0 out2 s2 Hstart [Hc0 (added & -> & Hadded)] Hwin.
        apply variable_step_window_spec in Hwin as (counts & more & Hget & -> & Hmore).
        destruct (getitem_cache _ _ _ _ _ _ _ Hc0 Hget) as [Hc1 [a0 Hget0]].
        split; [exact Hc1|]. exists (added ++ more).
        split; [cbn [app]; rewrite <- !app_assoc; reflexivity|].
        apply Forall_app. split; [exact Hadded|].
        eapply Forall_impl; [exact Hmore|].
        intros l (idx & v & Hidx & Hv & Hnz & ->). split; [reflexivity|].
        exists chrom, my_size, my_start, counts, idx, v.
        rewrite Hget0. repeat split; try assumption.
        apply (xrange_from_0_multiples _ _ _ _ Hst Hstart).
      - split; [exact Hc|]. exists []. split; [reflexivity|constructor]. }
    destruct HJ as [Hc1 (added & -> & Hadded)].
    split; [exact Hc1|]. exists (body ++ VariableStep chrom :: added).
    split; [reflexivity|]. split.
    + rewrite filter_app, filter_cons, decide_True by reflexivity.
      rewrite Hdecl, fmap_app. cbn [fmap list_fmap]. f_equal. f_equal.
      clear -Hadded. induction Hadded as [|l added [Hl _] _ IH]; [reflexivity|].
      rewrite filter_cons, decide_False by (rewrite Hl; discriminate). exact IH.
    + apply Forall_app. split; [exact Hpos|]. constructor; [discriminate|].
      eapply Forall_impl; [exact Hadded|]. intros l [_ Hl] _. exact Hl.
  - split; [left; reflexivity|]. exists []. split; [reflexivity|].
    split; [reflexivity|constructor].
Qed.

Lemma sorted_nonempty l : l <> [] -> sorted l <> [].
Proof.
  intros Hl Hs. apply Hl. apply Permutation_nil_r.
  rewrite <- Hs. unfold sorted. symmetry. apply merge_sort_Permutation.
Qed.

Lemma elem_of_sorted x l : x ∈ sorted l <-> x ∈ l.
Proof. unfold sorted. rewrite merge_sort_Permutation. reflexivity. Qed.

(** X29. The BAM array does not check [window_size] when it writes
    [variableStep]: with a window of 0 the call raises [ValueError] as soon
    as there is a chromosome, and with a negative window it writes the track
    line and the declarations and no position at all. *)
Theorem bam_variable_step_window_size a trackname strand window_size kwargs :
  strand ∈ B.strands a ->
  (forall c, c ∈ B.chroms a -> exists n, B.lengths a !! c = Some n /\ 0 <= n) ->
  (window_size = 0 -> B.chroms a <> [] ->
   answer (B.to_variable_step trackname strand window_size kwargs a) = inl ValueError) /\
  (window_size < 0 ->
   B.to_variable_step trackname strand window_size kwargs a
   = returns (WiggleTrack trackname (sorted_items kwargs)
                :: (VariableStep <$> sorted (B.chroms a)), a)).
Proof.
  intros Hstrand Hlen.
  assert (Hlen' : forall c, c ∈ sorted (B.chroms a) ->
                            exists n, B.lengths a !! c = Some n /\ 0 <= n).
  { intros c Hc. apply Hlen, elem_of_sorted, Hc. }
  unfold B.to_variable_step.
  rewrite !run_bind, !run_get, !obind_returns; cbv beta iota.
  rewrite bool_decide_true by exact Hstrand. cbn [negb]. cbv zeta.
  split.
  - intros -> Hne. apply sorted_nonempty in Hne.
    destruct (sorted (B.chroms a)) as [|c rest]; [contradiction Hne; reflexivity|].
    destruct (Hlen' c) as (n & Hn & _); [left|].
    cbn [fold_each]. rewrite run_bind. rewrite Hn.
    change (B._chr_lengths a !! c) with (B.lengths a !! c). rewrite Hn.
    rewrite run_lift_bind. reflexivity.
  - intros Hneg.
    assert (Hloop : forall xs (out : list wiggle_line),
      (forall c, c ∈ xs -> exists n, B.lengths a !! c = Some n /\ 0 <= n) ->
      fold_each xs out (fun out chrom =>
        match B.lengths a !! chrom with
        | None => throw KeyError
        | Some my_size =>
          let out := out ++ [VariableStep chrom] in
          match B._chr_lengths a !! chrom with
          | None => throw KeyError
          | Some stop =>
            window_starts ← lift (xrange_from_0 stop window_size);
            fold_each window_starts out
                      (B.variable_step_window chrom strand my_size window_size)
          end
        end) a = returns (out ++ (VariableStep <$> xs), a)).
    { induction xs as [|c rest IH]; intros out Hxs.
      - cbn. rewrite app_nil_r. reflexivity.
      - destruct (Hxs c) as (n & Hn & Hnn); [left|].
        cbn [fold_each]. rewrite run_bind. rewrite Hn. cbv zeta.
        change (B._chr_lengths a !! c) with (B.lengths a !! c). rewrite Hn.
        rewrite run_lift_bind.
        assert (Hx : xrange_from_0 n window_size = returns []).
        { unfold xrange_from_0. destruct (Z.eqb_spec window_size 0); [lia|].
          assert (Hq : - (- n / window_size) <= 0).
          { assert (0 <= (- n) / window_size); [|lia].
            pose proof (Z.div_mod (- n) window_size ltac:(lia)) as Hdm.
            pose proof (Z.mod_neg_bound (- n) window_size Hneg) as Hmb. nia. }
          rewrite seqZ_nil by lia. reflexivity. }
        rewrite Hx, obind_returns. cbn [fold_each]. rewrite run_ret, obind_returns.
        cbv beta iota.
        transitivity (returns ((out ++ [VariableStep c]) ++ (VariableStep <$> rest), a));
          [exact (IH (out ++ [VariableStep c])
                     (fun c' Hc' => Hxs c' (list_elem_of_further _ _ _ Hc')))|].
        rewrite fmap_cons, <- app_assoc. reflexivity. }
    rewrite (Hloop _ _ Hlen'). reflexivity.
Qed.

End BamArray.

Lemma filter_added_then_removed_witness :
  let func := fun r : toy_read => r_end r - r_start r <? 3 in
  answer (B.remove_filter "size" toy_bam) = inl KeyError /\
  (B.add_filter "size" func ≫= fun _ => B.remove_filter "size") toy_bam
  = returns (func, toy_bam) /\
  exists a', B.add_filter "size" func toy_bam = returns (tt, a') /\
             forall roi x, passes a' roi x = passes toy_bam roi x && func x.
Proof.
  intros func. apply (proj2 (filter_added_then_removed toy_bam "size" func)).
  vm_compute. intros Hin. inversion Hin.
Defined.

Lemma manual_sum_until_set_mapping_witness :
  answer ((B.set_normalize true ≫= fun _ => B.set_sum 2e6%float ≫= fun _ =>
           B.__getitem__ (Segment "chrI" 0 4 Plus) true) toy_bam)
  = match answer (B.__getitem__ (Segment "chrI" 0 4 Plus) true
                    (B.with_normalize false toy_bam)) with
    | inl e => inl e
    | inr c => inr ((fun c => PrimFloat.mul (PrimFloat.div c 2e6%float) 1e6%float) <$> c)
    end.
Proof.
  apply (proj2 (proj2 (manual_sum_until_set_mapping toy_bam 2e6%float toy_fiveprime
                         (Segment "chrI" 0 4 Plus) true))).
  vm_compute. apply list_elem_of_here.
Defined.

Lemma bam_variable_step_positions_witness :
  exists body,
    [WiggleTrack "reads" []; VariableStep "chrI";
     Position 1 1; Position 2 1; Position 3 1; Position 4 2]
    = WiggleTrack "reads" (sorted_items []) :: body /\
    filter (fun l => is_position l = false) body
    = VariableStep <$> sorted (B.chroms toy_bam) /\
    Forall (fun l => is_position l = true -> position_line toy_bam Plus 2 l) body.
Proof.
  apply (bam_variable_step_positions toy_bam "reads"%string Plus 2 []).
  vm_compute. reflexivity.
Defined.

Lemma bam_variable_step_window_size_witness :
  answer (B.to_variable_step "reads" Plus 0 [] toy_bam) = inl ValueError /\
  B.to_variable_step "reads" Plus (-1) [] toy_bam
  = returns (WiggleTrack "reads" (sorted_items [])
               :: (VariableStep <$> sorted (B.chroms toy_bam)), toy_bam).
Proof.
  assert (Hs : Plus ∈ B.strands toy_bam) by (vm_compute; apply list_elem_of_here).
  assert (Hl : forall c, c ∈ B.chroms toy_bam ->
                         exists n, B.lengths toy_bam !! c = Some n /\ 0 <= n).
  { assert (Hc : B.chroms toy_bam = ["chrI"%string]) by (vm_compute; reflexivity).
    rewrite Hc. intros c ->%list_elem_of_singleton.
    exists 4. split; [vm_compute; reflexivity|lia]. }
  split.
  - apply (proj1 (bam_variable_step_window_size toy_bam "reads"%string Plus 0 [] Hs Hl));
      [reflexivity|]. vm_compute. discriminate.
  - apply (proj2 (bam_variable_step_window_size toy_bam "reads"%string Plus (-1) [] Hs Hl)).
    lia.
Defined.
